(** * auto-match-pull: scheduling and synchronisation engine

    A shallow embedding of [services/git_service.py] (the sync executor and
    the conflict resolver), [services/scheduler.py] (candidate selection, the
    per-mapping pull task, the external gate check) and of the part of
    [core/database.py] they call, together with the properties the
    specification states about them.

    Python [str] values are modelled by [string], read as UTF-8.  Every
    separator, marker and keyword the code looks for is ASCII, and an ASCII
    byte never occurs inside a multi-byte UTF-8 sequence, so splitting,
    prefix tests and substring tests agree with Python's on code points.

    The program acts on a world: the paths on disk, the text files it reads
    and writes, the external commands it runs, the clock and the store.
    Calls of [logger] change nothing of it and are left out.  The threads
    and the semaphore of the scheduler are not modelled: each function is
    the code one thread runs. *)

From Stdlib Require Import ZArith String Ascii List Bool Lia.
From stdpp Require Import base option list sorting strings pretty gmap.

Local Open Scope string_scope.
Local Open Scope Z_scope.

(** ** Python string primitives *)

Module PyStr.

(** The line feed and the tab the code splits on. *)
Definition LF : ascii := ascii_of_nat 10.
Definition CR : ascii := ascii_of_nat 13.
Definition TAB : ascii := ascii_of_nat 9.
Definition nl : string := String LF "".

(** What reading in text mode makes of the line ends of a file (the
    [newline=None] of [open]): a carriage return with its line feed, and a
    carriage return alone, both come out as one line feed. *)
Fixpoint universal_newlines (s : string) : string :=
  match s with
  | EmptyString => EmptyString
  | String a s' =>
      if Ascii.eqb a CR then
        match s' with
        | String b s'' =>
            if Ascii.eqb b LF then String LF (universal_newlines s'')
            else String LF (universal_newlines s')
        | EmptyString => String LF EmptyString
        end
      else String a (universal_newlines s')
  end.

(** Whether bytes are well-formed UTF-8, which is what the strict decoder
    of [open(..., encoding='utf-8')] reads without raising: no stray or
    missing continuation byte, no overlong form, no surrogate, nothing above
    U+10FFFF. *)
Definition between (lo hi : nat) (a : ascii) : bool :=
  let n := nat_of_ascii a in (lo <=? n)%nat && (n <=? hi)%nat.

Fixpoint decodable (s : string) : bool :=
  match s with
  | EmptyString => true
  | String a s1 =>
      if between 0 127 a then decodable s1
      else
        match s1 with
        | EmptyString => false
        | String a1 s2 =>
            if between 194 223 a then between 128 191 a1 && decodable s2
            else
              match s2 with
              | EmptyString => false
              | String a2 s3 =>
                  if between 224 239 a then
                    (if between 224 224 a then between 160 191 a1
                     else if between 237 237 a then between 128 159 a1
                     else between 128 191 a1)
                    && between 128 191 a2 && decodable s3
                  else
                    match s3 with
                    | EmptyString => false
                    | String a3 s4 =>
                        between 240 244 a
                        && (if between 240 240 a then between 144 191 a1
                            else if between 244 244 a then between 128 143 a1
                            else between 128 191 a1)
                        && between 128 191 a2 && between 128 191 a3 && decodable s4
                    end
              end
        end
  end.

(** [s.startswith(p)] *)
Fixpoint startswith (s p : string) : bool :=
  match p, s with
  | EmptyString, _ => true
  | String _ _, EmptyString => false
  | String b p', String a s' => if Ascii.eqb a b then startswith s' p' else false
  end.

(** [s.endswith(p)], through the reversed strings. *)
Definition endswith (s p : string) : bool :=
  startswith (String.rev s) (String.rev p).

(** [needle in s] *)
Fixpoint str_in (needle s : string) : bool :=
  if startswith s needle then true
  else match s with
       | EmptyString => false
       | String _ s' => str_in needle s'
       end.

(** [s.split(c)] for a one-character separator: never empty, and a
    separator at the end leaves a final empty field. *)
Fixpoint split (c : ascii) (s : string) : list string :=
  match s with
  | EmptyString => [EmptyString]
  | String a s' =>
      if Ascii.eqb a c then EmptyString :: split c s'
      else match split c s' with
           | [] => [String a EmptyString]
           | field :: rest => String a field :: rest
           end
  end.

(** [sep.join(l)] *)
Definition join (sep : string) (l : list string) : string :=
  String.concat sep l.

(** Drop [n] bytes: [s[n:]] on the encoded text. *)
Fixpoint drop_bytes (n : nat) (s : string) : string :=
  match n, s with
  | O, _ => s
  | S _, EmptyString => EmptyString
  | S n', String _ s' => drop_bytes n' s'
  end.

(** A UTF-8 continuation byte is 10xxxxxx. *)
Definition is_continuation (a : ascii) : bool :=
  let n := nat_of_ascii a in (128 <=? n)%nat && (n <? 192)%nat.

Fixpoint skip_continuation (s : string) : string :=
  match s with
  | String a s' => if is_continuation a then skip_continuation s' else s
  | EmptyString => EmptyString
  end.

(** [s[n:]]: drop [n] code points, each a lead byte and its continuation
    bytes. *)
Fixpoint drop_chars (n : nat) (s : string) : string :=
  match n, s with
  | O, _ => s
  | S _, EmptyString => EmptyString
  | S n', String _ s' => drop_chars n' (skip_continuation s')
  end.

(** ASCII part of [str.lower()]: bytes of other code points are left as
    they are.  The only code point outside ASCII whose lower case contains
    an ASCII letter of the words tested below is U+0130, which becomes [i]
    followed by U+0307, never [i] followed by an ASCII letter; so the
    substring and membership tests made on the result are unaffected. *)
Definition lower_ascii (a : ascii) : ascii :=
  let n := nat_of_ascii a in
  if (65 <=? n)%nat && (n <=? 90)%nat then ascii_of_nat (n + 32) else a.

Fixpoint lower (s : string) : string :=
  match s with
  | EmptyString => EmptyString
  | String a s' => String (lower_ascii a) (lower s')
  end.

(** The white space [str.strip()] removes, as UTF-8: the ASCII separators
    and controls 9-13 and 28-32, then U+0085, U+00A0, U+1680,
    U+2000..U+200A, U+2028, U+2029, U+202F, U+205F and U+3000. *)
Definition bytes (l : list nat) : string :=
  string_of_list_ascii (map ascii_of_nat l).

Definition whitespace : list string :=
  map bytes
    [ [9]; [10]; [11]; [12]; [13]; [28]; [29]; [30]; [31]; [32];
      [194; 133]; [194; 160]; [225; 154; 128];
      [226; 128; 128]; [226; 128; 129]; [226; 128; 130]; [226; 128; 131];
      [226; 128; 132]; [226; 128; 133]; [226; 128; 134]; [226; 128; 135];
      [226; 128; 136]; [226; 128; 137]; [226; 128; 138];
      [226; 128; 168]; [226; 128; 169]; [226; 128; 175];
      [226; 129; 159]; [227; 128; 128] ]%nat.

(** The first of the tokens that [s] starts with, and what follows it. *)
Fixpoint strip_token (tokens : list string) (s : string) : option string :=
  match tokens with
  | [] => None
  | t :: tokens' =>
      if startswith s t then Some (drop_bytes (String.length t) s)
      else strip_token tokens' s
  end.

Fixpoint lstrip_fuel (fuel : nat) (s : string) : string :=
  match fuel with
  | O => s
  | S fuel' =>
      match strip_token whitespace s with
      | Some s' => lstrip_fuel fuel' s'
      | None => s
      end
  end.

(** Every token is at least one byte long, so the length of [s] is fuel
    enough. *)
Definition lstrip (s : string) : string := lstrip_fuel (String.length s) s.

Definition rev_tokens : list string := map String.rev whitespace.

Fixpoint rstrip_fuel (fuel : nat) (r : string) : string :=
  match fuel with
  | O => r
  | S fuel' =>
      match strip_token rev_tokens r with
      | Some r' => rstrip_fuel fuel' r'
      | None => r
      end
  end.

Definition rstrip (s : string) : string :=
  String.rev (rstrip_fuel (String.length s) (String.rev s)).

(** [s.strip()] *)
Definition strip (s : string) : string := rstrip (lstrip s).

(** [s.splitlines()]: the line boundaries are LF, CR, CR LF, VT, FF, FS,
    GS, RS, U+0085, U+2028 and U+2029; the boundaries are dropped and no
    empty last line is produced. *)
Definition line_breaks : list string :=
  map bytes
    [ [13; 10]; [10]; [13]; [11]; [12]; [28]; [29]; [30];
      [194; 133]; [226; 128; 168]; [226; 128; 169] ]%nat.

(** [cur] holds the bytes of the line being read, most recent first;
    [skip] counts the remaining bytes of a boundary already recognised. *)
Fixpoint splitlines_go (s : string) (cur : string) (skip : nat) : list string :=
  match s with
  | EmptyString => if String.eqb cur "" then [] else [String.rev cur]
  | String a s' =>
      match skip with
      | S k => splitlines_go s' cur k
      | O =>
          match strip_token line_breaks s with
          | Some rest =>
              String.rev cur
                :: splitlines_go s' "" (String.length s' - String.length rest)
          | None => splitlines_go s' (String a cur) O
          end
      end
  end.

Definition splitlines (s : string) : list string := splitlines_go s "" O.

(** What follows the first occurrence of [needle] in [s]. *)
Fixpoint after_first (needle s : string) : option string :=
  if startswith s needle then Some (drop_bytes (String.length needle) s)
  else match s with
       | EmptyString => None
       | String _ s' => after_first needle s'
       end.

End PyStr.

(** ** Exceptions, outcomes and the world the program runs in *)

(** The exception classes the code raises or receives, all subclasses of
    [Exception]; each carries the text [str(e)] yields. *)
Inductive exn : Type :=
| TimeoutExpired (msg : string)   (* subprocess.TimeoutExpired *)
| ValueError (msg : string)
| TimeoutError (msg : string)
| OverflowError (msg : string)
| OSError (msg : string)          (* FileNotFoundError, PermissionError, ... *)
| DatabaseError (msg : string)    (* sqlite3.Error *)
| OtherException (msg : string).

Definition str_exn (e : exn) : string :=
  match e with
  | TimeoutExpired m | ValueError m | TimeoutError m | OverflowError m
  | OSError m | DatabaseError m | OtherException m => m
  end.

Definition is_TimeoutExpired (e : exn) : bool :=
  match e with TimeoutExpired _ => true | _ => false end.

Inductive outcome (A : Type) : Type :=
| Ret (a : A)
| Raise (e : exn).
Arguments Ret {A} a.
Arguments Raise {A} e.

(** [subprocess.CompletedProcess] *)
Record CompletedProcess : Type := mkCompleted {
  returncode : Z;
  stdout : string;
  stderr : string
}.

Inductive run_outcome : Type :=
| Completed (p : CompletedProcess)
| RunRaises (e : exn).

(** One call of [subprocess.run]. *)
Record Invocation : Type := mkInvocation {
  args : list string;
  cwd : option string;
  timeout : Z
}.

(** database.py: [FolderRepoMapping].  The similarity score, a float that no
    code below reads, is left out. *)
Record FolderRepoMapping : Type := mkMapping {
  id : option Z;
  folder_path : string;
  folder_name : string;
  repo_path : string;
  repo_name : string;
  remote_url : option string;
  branch : string;
  created_at : option string;
  updated_at : option string;
  last_pull_at : option string;
  pull_status : string;
  auto_pull_enabled : bool;
  github_url : option string;
  github_exists : bool
}.

(** A row of the [pull_logs] table. *)
Record PullLog : Type := mkPullLog {
  log_mapping_id : option Z;
  log_action : string;
  log_status : string;
  log_message : option string;
  log_timestamp : string
}.

(** The two tables the scheduler reads and writes. *)
Record Store : Type := mkStore {
  folder_repo_mappings : list FolderRepoMapping;
  pull_logs : list PullLog
}.

(** Everything outside the program.  [run_oracle n inv] is what the [n]-th
    call of [subprocess.run] does when it is [inv]; [invocations] logs the
    calls made, most recent first.  [store_oracle n] says which step, if any,
    of the [n]-th store transaction raises.  [files] holds the bytes of the
    text files the program itself reads and writes; the commands it runs
    before it reads them (rev-parse, status, fetch, rev-list, diff, add) leave
    the working tree as it is.  A file that is [writable] is opened and
    written in full; for one that is not, [write_fault] tells how the writing
    fails: [None] when the file cannot be opened, [Some n] when it is opened,
    and so emptied, and the writing breaks off with [n] bytes stored, which
    leaves a file that can be read only if the bytes can be decoded.  [now] is the reading of [datetime.now()], the local time
    in microseconds; [current_timestamp] is the text SQLite puts for
    [CURRENT_TIMESTAMP], which is UTC; nothing relates the two. *)
Record World : Type := mkWorld {
  exists_on_disk : string -> bool;
  files : gmap string string;
  writable : string -> bool;
  run_oracle : nat -> Invocation -> run_outcome;
  invocations : list Invocation;
  now : Z;
  current_timestamp : string;
  store : Store;
  store_oracle : nat -> option nat;
  transactions : nat;
  write_fault : string -> option nat
}.

Definition with_invocations (l : list Invocation) (w : World) : World :=
  mkWorld (exists_on_disk w) (files w) (writable w) (run_oracle w) l
          (now w) (current_timestamp w) (store w) (store_oracle w) (transactions w)
          (write_fault w).

Definition with_files (f : gmap string string) (w : World) : World :=
  mkWorld (exists_on_disk w) f (writable w) (run_oracle w) (invocations w)
          (now w) (current_timestamp w) (store w) (store_oracle w) (transactions w)
          (write_fault w).

Definition with_store (s : Store) (n : nat) (w : World) : World :=
  mkWorld (exists_on_disk w) (files w) (writable w) (run_oracle w) (invocations w)
          (now w) (current_timestamp w) s (store_oracle w) n (write_fault w).

(** State and exceptions. *)
Definition M (A : Type) : Type := World -> outcome A * World.

Definition ret {A} (a : A) : M A := fun w => (Ret a, w).

Definition raise {A} (e : exn) : M A := fun w => (Raise e, w).

Definition bind {A B} (m : M A) (k : A -> M B) : M B :=
  fun w =>
    match m w with
    | (Ret a, w') => k a w'
    | (Raise e, w') => (Raise e, w')
    end.

(** [try: m except Exception as e: handler e] *)
Definition try_except {A} (m : M A) (handler : exn -> M A) : M A :=
  fun w =>
    match m w with
    | (Ret a, w') => (Ret a, w')
    | (Raise e, w') => handler e w'
    end.

Declare Scope py_scope.
Delimit Scope py_scope with py.
Notation "'let*' x ':=' m 'in' k" := (bind m (fun x => k))
  (at level 10, x name, m at level 100, k at level 200) : py_scope.
Notation "m '>>' k" := (bind m (fun _ => k))
  (at level 100, k at level 200, right associativity) : py_scope.
Local Open Scope py_scope.

(** [os.path.exists] *)
Definition os_path_exists (path : string) : M bool :=
  fun w => (Ret (exists_on_disk w path), w).

(** [posixpath.join] of two components. *)
Definition os_path_join (a b : string) : string :=
  if PyStr.startswith b "/" then b
  else if String.eqb a "" || PyStr.endswith a "/" then a +:+ b
  else a +:+ "/" +:+ b.

(** [subprocess.run(args, cwd=cwd, ..., timeout=timeout)] *)
Definition subprocess_run (a : list string) (dir : option string) (t : Z)
  : M CompletedProcess :=
  fun w =>
    let inv := mkInvocation a dir t in
    let w' := with_invocations (inv :: invocations w) w in
    match run_oracle w (length (invocations w)) inv with
    | Completed p => (Ret p, w')
    | RunRaises e => (Raise e, w')
    end.

(** [open(path, 'r', encoding='utf-8').read()]: [files] holds the files that
    can be opened and decoded, and the text read has its line ends
    translated. *)
Definition read_file (path : string) : M string :=
  fun w =>
    match files w !! path with
    | Some content => (Ret (PyStr.universal_newlines content), w)
    | None => (Raise (OSError path), w)
    end.

(** What a writing that broke off leaves of a file: the bytes stored, when
    they can be decoded, and else a file that cannot be read. *)
Definition broken_off (path : string) (n : nat) (content : string)
           (fs : gmap string string) : gmap string string :=
  let part := String.substring 0 n content in
  if PyStr.decodable part then <[path := part]> fs else delete path fs.

(** [open(path, 'w', encoding='utf-8').write(content)], where a line feed is
    written as it is (the line separator of POSIX): the file is replaced; or
    the opening raises and the file is as before; or the file is opened, which
    empties it, and the writing raises with a part of the text stored. *)
Definition write_file (path content : string) : M unit :=
  fun w =>
    if writable w path then (Ret tt, with_files (<[path := content]> (files w)) w)
    else
      match write_fault w path with
      | Some n => (Raise (OSError path), with_files (broken_off path n content (files w)) w)
      | None => (Raise (OSError path), w)
      end.

(** ** git_service.py *)

(** [int(s)] on a [str], held as its UTF-8 bytes: white space around, an
    optional sign, then decimal digits of any script that single underscores
    may separate, as many as the interpreter converts (CPython 3.11). *)
Module PyInt.

(** An ASCII digit. *)
Definition digit (a : ascii) : option Z :=
  let n := nat_of_ascii a in
  if (48 <=? n)%nat && (n <=? 57)%nat then Some (Z.of_nat (n - 48)) else None.

(** The code points of the digit zero of every script (Unicode 14, general
    category Nd): the nine code points after each are its digits one to
    nine. *)
Definition decimal_zeros : list Z :=
  [48; 1632; 1776; 1984; 2406; 2534; 2662; 2790;
   2918; 3046; 3174; 3302; 3430; 3558; 3664; 3792;
   3872; 4160; 4240; 6112; 6160; 6470; 6608; 6784;
   6800; 6992; 7088; 7232; 7248; 42528; 43216; 43264;
   43472; 43504; 43600; 44016; 65296; 66720; 68912; 69734;
   69872; 69942; 70096; 70384; 70736; 70864; 71248; 71360;
   71472; 71904; 72016; 72784; 73040; 73120; 92768; 92864;
   93008; 120782; 120792; 120802; 120812; 120822; 123200; 123632;
   125264; 130032].

(** [unicodedata.decimal] *)
Definition decimal_value (cp : Z) : option Z :=
  (fun zero => cp - zero)
    <$> List.find (fun zero => (zero <=? cp) && (cp <? zero + 10)) decimal_zeros.

Definition byte (a : ascii) : Z := Z.of_nat (nat_of_ascii a).

(** The first code point of UTF-8 text, and the text behind it. *)
Definition code_point (s : string) : option (Z * string) :=
  match s with
  | EmptyString => None
  | String a s1 =>
      let b := byte a in
      if b <? 128 then Some (b, s1)
      else
        match s1 with
        | EmptyString => None
        | String a1 s2 =>
            let c1 := byte a1 - 128 in
            if b <? 224 then Some ((b - 192) * 64 + c1, s2)
            else
              match s2 with
              | EmptyString => None
              | String a2 s3 =>
                  let c2 := byte a2 - 128 in
                  if b <? 240 then Some (((b - 224) * 64 + c1) * 64 + c2, s3)
                  else
                    match s3 with
                    | EmptyString => None
                    | String a3 s4 =>
                        Some ((((b - 240) * 64 + c1) * 64 + c2) * 64 + (byte a3 - 128), s4)
                    end
              end
        end
  end.

(** How the scan of the digits ends: with a number, on text that is no
    number, or on more digits than the interpreter converts. *)
Inductive scanned : Type :=
| Value (z : Z)
| Invalid
| TooLong (digits : nat).

(** The most digits [int] converts: [sys.get_int_max_str_digits()] as the
    interpreter starts with, unless its environment sets another. *)
Definition max_str_digits : nat := 4300.

(** The scan has stopped before [s]: an underscore at the end is no number;
    then comes the limit on the digits; then there must have been a digit
    and nothing may be left. *)
Definition finish (s : string) (acc : Z) (count : nat) (prev : option bool) : scanned :=
  match prev with
  | Some true =>
      if (max_str_digits <? count)%nat then TooLong count
      else match s with
           | EmptyString => Value acc
           | String _ _ => Invalid
           end
  | _ => Invalid
  end.

(** The digits, with single underscores between them.  [count] counts the
    digits read; [prev] tells what the character before was: [Some true] a
    digit, [Some false] an underscore, [None] when there was none. *)
Fixpoint digits (fuel : nat) (s : string) (acc : Z) (count : nat) (prev : option bool)
  : scanned :=
  match fuel with
  | O => Invalid
  | S fuel' =>
      match code_point s with
      | Some (cp, rest) =>
          match decimal_value cp with
          | Some d => digits fuel' rest (10 * acc + d) (S count) (Some true)
          | None =>
              if cp =? 95 then
                match prev with
                | Some true => digits fuel' rest acc count (Some false)
                | _ => Invalid
                end
              else finish s acc count prev
          end
      | None => finish s acc count prev
      end
  end.

(** The white space [int] lets stand around the number: that of
    [str.strip] without the separators U+001C to U+001F. *)
Definition spaces : list string :=
  map PyStr.bytes
  [[9];
   [10];
   [11];
   [12];
   [13];
   [32];
   [194; 133];
   [194; 160];
   [225; 154; 128];
   [226; 128; 128];
   [226; 128; 129];
   [226; 128; 130];
   [226; 128; 131];
   [226; 128; 132];
   [226; 128; 133];
   [226; 128; 134];
   [226; 128; 135];
   [226; 128; 136];
   [226; 128; 137];
   [226; 128; 138];
   [226; 128; 168];
   [226; 128; 169];
   [226; 128; 175];
   [226; 129; 159];
   [227; 128; 128]]%nat.

Fixpoint skip_spaces (tokens : list string) (fuel : nat) (s : string) : string :=
  match fuel with
  | O => s
  | S fuel' =>
      match PyStr.strip_token tokens s with
      | Some s' => skip_spaces tokens fuel' s'
      | None => s
      end
  end.

Definition trim (s : string) : string :=
  let behind := skip_spaces spaces (String.length s) s in
  String.rev (skip_spaces (map String.rev spaces) (String.length behind) (String.rev behind)).

Definition unsigned (s : string) : scanned := digits (S (String.length s)) s 0 0 None.

(** The messages of the two errors.  The first quotes the literal with
    [repr], of which the quoting of plain text is what is written here; the
    program only logs the messages. *)
Definition invalid_literal (s : string) : exn :=
  ValueError ("invalid literal for int() with base 10: '" +:+ s +:+ "'").

Definition exceeds_limit (n : nat) : exn :=
  ValueError ("Exceeds the limit (4300 digits) for integer string conversion: value has "
              +:+ pretty n
              +:+ " digits; use sys.set_int_max_str_digits() to increase the limit").

Definition int (s : string) : outcome Z :=
  let body := trim s in
  let '(negative, rest) :=
    match body with
    | String "-" rest => (true, rest)
    | String "+" rest => (false, rest)
    | _ => (false, body)
    end in
  match unsigned rest with
  | Value z => Ret (if negative then - z else z)
  | Invalid => Raise (invalid_literal s)
  | TooLong n => Raise (exceeds_limit n)
  end.

End PyInt.

Record GitStatus : Type := mkGitStatus {
  is_clean : bool;
  has_conflicts : bool;
  ahead_commits : Z;
  behind_commits : Z;
  untracked_files : list string;
  modified_files : list string;
  staged_files : list string
}.

Record PullResult : Type := mkPullResult {
  success : bool;
  message : string;
  conflicts : list string;
  auto_resolved : bool
}.

(** [PullResult(success, message, conflicts)], [auto_resolved] at its
    default. *)
Definition PullResult3 (ok : bool) (msg : string) (cs : list string) : PullResult :=
  mkPullResult ok msg cs false.

Record GitService : Type := mkGitService {
  git_timeout : Z;
  conflict_strategy : string
}.

(** The lists the status loop of [get_repo_status] fills. *)
Record StatusScan : Type := mkScan {
  scan_untracked : list string;
  scan_modified : list string;
  scan_staged : list string;
  scan_conflicts : bool
}.

(** One round of the loop over the lines of [git status --porcelain]. *)
Definition scan_line (acc : StatusScan) (line : string) : StatusScan :=
  let name := PyStr.drop_chars 3 line in
  if PyStr.startswith line "??" then
    mkScan (scan_untracked acc ++ [name]) (scan_modified acc) (scan_staged acc) (scan_conflicts acc)
  else if PyStr.startswith line " M" then
    mkScan (scan_untracked acc) (scan_modified acc ++ [name]) (scan_staged acc) (scan_conflicts acc)
  else if PyStr.startswith line "M " then
    mkScan (scan_untracked acc) (scan_modified acc) (scan_staged acc ++ [name]) (scan_conflicts acc)
  else if PyStr.startswith line "UU" || PyStr.startswith line "AA" then
    mkScan (scan_untracked acc) (scan_modified acc ++ [name]) (scan_staged acc) true
  else acc.

Definition scan_status (porcelain : string) : StatusScan :=
  fold_left scan_line (PyStr.splitlines porcelain) (mkScan [] [] [] false).

(** A computation that touches nothing. *)
Definition lift_outcome {A} (o : outcome A) : M A := fun w => (o, w).

(** [GitService._get_sync_status]: every exception ends in [(0, 0)]. *)
Definition _get_sync_status (self : GitService) (repo_path : string) : M (Z * Z) :=
  try_except
    (subprocess_run ["git"; "fetch"; "--quiet"] (Some repo_path) (git_timeout self) >>
     let* result :=
       subprocess_run ["git"; "rev-list"; "--count"; "--left-right"; "HEAD...@{u}"]
                      (Some repo_path) (git_timeout self) in
     if returncode result =? 0 then
       match PyStr.split PyStr.TAB (PyStr.strip (stdout result)) with
       | [ahead; behind] =>
           let* a := lift_outcome (PyInt.int ahead) in
           let* b := lift_outcome (PyInt.int behind) in
           ret (a, b)
       | _ => ret (0, 0)
       end
     else ret (0, 0))
    (fun _ => ret (0, 0)).

(** [GitService.get_repo_status]: the check of the path stands before the
    [try]; a timeout inside it is raised again as [TimeoutError], any other
    exception as it is. *)
Definition get_repo_status (self : GitService) (repo_path : string) : M GitStatus :=
  let* present := os_path_exists repo_path in
  if negb present then raise (ValueError ("仓库路径不存在: " +:+ repo_path))
  else
    try_except
      (let* result :=
         subprocess_run ["git"; "rev-parse"; "--is-inside-work-tree"]
                        (Some repo_path) (git_timeout self) in
       if negb (returncode result =? 0)
       then raise (ValueError ("不是Git仓库: " +:+ repo_path))
       else
         let* status_result :=
           subprocess_run ["git"; "status"; "--porcelain"]
                          (Some repo_path) (git_timeout self) in
         let scan := scan_status (stdout status_result) in
         let* sync := _get_sync_status self repo_path in
         ret (mkGitStatus
                ((length (scan_untracked scan) =? 0)%nat && (length (scan_modified scan) =? 0)%nat)
                (scan_conflicts scan)
                (fst sync) (snd sync)
                (scan_untracked scan) (scan_modified scan) (scan_staged scan)))
      (fun e =>
         if is_TimeoutExpired e
         then raise (TimeoutError ("Git操作超时: " +:+ repo_path))
         else raise e).

(** *** The conflict resolver *)

Definition start_marker : string := "<<<<<<< HEAD".
Definition separator_marker : string := "=======".
Definition end_marker : string := ">>>>>>> ".

(** The flags the three line loops carry. *)
Record ScanState : Type := mkScanState {
  resolved_lines : list string;
  in_conflict : bool;
  in_remote_section : bool;
  local_lines : list string;
  remote_lines : list string
}.

Definition initial_state : ScanState := mkScanState [] false false [] [].

(** One round of the loop of [_resolve_keep_both]. *)
Definition keep_both_step (st : ScanState) (line : string) : ScanState :=
  if PyStr.startswith line start_marker then
    mkScanState
      (resolved_lines st ++ ["# ============ 合并冲突 ============"; "# 本地版本:"])
      true false [] []
  else if PyStr.startswith line separator_marker then
    mkScanState
      ((resolved_lines st ++ local_lines st) ++ ["# 远程版本:"])
      (in_conflict st) true (local_lines st) (remote_lines st)
  else if PyStr.startswith line end_marker then
    mkScanState
      ((resolved_lines st ++ remote_lines st) ++ ["# ================================"])
      false false (local_lines st) (remote_lines st)
  else if negb (in_conflict st) then
    mkScanState (resolved_lines st ++ [line])
                (in_conflict st) (in_remote_section st) (local_lines st) (remote_lines st)
  else if in_conflict st && negb (in_remote_section st) then
    mkScanState (resolved_lines st)
                (in_conflict st) (in_remote_section st) (local_lines st ++ [line]) (remote_lines st)
  else if in_conflict st && in_remote_section st then
    mkScanState (resolved_lines st)
                (in_conflict st) (in_remote_section st) (local_lines st) (remote_lines st ++ [line])
  else st.

(** One round of the loop of [_resolve_keep_local]. *)
Definition keep_local_step (st : ScanState) (line : string) : ScanState :=
  if PyStr.startswith line start_marker then
    mkScanState (resolved_lines st) true false (local_lines st) (remote_lines st)
  else if PyStr.startswith line separator_marker then
    mkScanState (resolved_lines st) (in_conflict st) true (local_lines st) (remote_lines st)
  else if PyStr.startswith line end_marker then
    mkScanState (resolved_lines st) false false (local_lines st) (remote_lines st)
  else if negb (in_conflict st) then
    mkScanState (resolved_lines st ++ [line])
                (in_conflict st) (in_remote_section st) (local_lines st) (remote_lines st)
  else if in_conflict st && negb (in_remote_section st) then
    mkScanState (resolved_lines st ++ [line])
                (in_conflict st) (in_remote_section st) (local_lines st) (remote_lines st)
  else st.

(** One round of the loop of [_resolve_keep_remote]. *)
Definition keep_remote_step (st : ScanState) (line : string) : ScanState :=
  if PyStr.startswith line start_marker then
    mkScanState (resolved_lines st) true false (local_lines st) (remote_lines st)
  else if PyStr.startswith line separator_marker then
    mkScanState (resolved_lines st) (in_conflict st) true (local_lines st) (remote_lines st)
  else if PyStr.startswith line end_marker then
    mkScanState (resolved_lines st) false false (local_lines st) (remote_lines st)
  else if negb (in_conflict st) then
    mkScanState (resolved_lines st ++ [line])
                (in_conflict st) (in_remote_section st) (local_lines st) (remote_lines st)
  else if in_conflict st && in_remote_section st then
    mkScanState (resolved_lines st ++ [line])
                (in_conflict st) (in_remote_section st) (local_lines st) (remote_lines st)
  else st.

(** The lines each strategy keeps, and the text it writes. *)
Definition keep_both_lines (content : string) : list string :=
  resolved_lines (fold_left keep_both_step (PyStr.split PyStr.LF content) initial_state).

Definition keep_local_lines (content : string) : list string :=
  resolved_lines (fold_left keep_local_step (PyStr.split PyStr.LF content) initial_state).

Definition keep_remote_lines (content : string) : list string :=
  resolved_lines (fold_left keep_remote_step (PyStr.split PyStr.LF content) initial_state).

Definition _resolve_keep_both (file_path content : string) : M bool :=
  write_file file_path (PyStr.join PyStr.nl (keep_both_lines content)) >> ret true.

Definition _resolve_keep_local (file_path content : string) : M bool :=
  write_file file_path (PyStr.join PyStr.nl (keep_local_lines content)) >> ret true.

Definition _resolve_keep_remote (file_path content : string) : M bool :=
  write_file file_path (PyStr.join PyStr.nl (keep_remote_lines content)) >> ret true.

(** [posixpath.splitext(p)[1]]: the extension starts at the last dot of the
    last path component, leading dots of that component set aside. *)
Fixpoint strip_leading_dots (s : string) : string :=
  match s with
  | String "." s' => strip_leading_dots s'
  | _ => s
  end.

Definition splitext_ext (p : string) : string :=
  let name := List.last (PyStr.split "/" p) "" in
  match PyStr.split "." (strip_leading_dots name) with
  | [] | [_] => ""
  | fields => "." +:+ List.last fields ""
  end.

Definition config_files : list string :=
  [".json"; ".yaml"; ".yml"; ".conf"; ".ini"; ".toml"].

Definition doc_files : list string := [".md"; ".txt"; ".rst"; ".doc"].

Definition str_mem (s : string) (l : list string) : bool :=
  existsb (String.eqb s) l.

(** [GitService._smart_merge_conflict] *)
Definition _smart_merge_conflict (file_path content : string) : M bool :=
  let file_ext := PyStr.lower (splitext_ext file_path) in
  if str_mem file_ext config_files then _resolve_keep_local file_path content
  else if str_mem file_ext doc_files then _resolve_keep_both file_path content
  else _resolve_keep_both file_path content.

(** [GitService._try_resolve_conflict]: a file without the start marker
    counts as resolved; any exception, of the reading or of the writing,
    yields [False]. *)
Definition _try_resolve_conflict (file_path strategy : string) : M bool :=
  try_except
    (let* content := read_file file_path in
     if negb (PyStr.str_in start_marker content) then ret true
     else if String.eqb strategy "smart_merge" then _smart_merge_conflict file_path content
     else if String.eqb strategy "keep_both" then _resolve_keep_both file_path content
     else if String.eqb strategy "keep_local" then _resolve_keep_local file_path content
     else if String.eqb strategy "keep_remote" then _resolve_keep_remote file_path content
     else _resolve_keep_both file_path content)
    (fun _ => ret false).

(** *** Listing and resolving the conflicted files *)

(** The loop of [_resolve_conflicts] over the conflicted files. *)
Fixpoint resolve_each (self : GitService) (repo_path : string)
         (conflict_files unresolved_conflicts : list string) : M (list string) :=
  match conflict_files with
  | [] => ret unresolved_conflicts
  | file_path :: rest =>
      if String.eqb file_path "" then resolve_each self repo_path rest unresolved_conflicts
      else
        let full_path := os_path_join repo_path file_path in
        let* resolved := _try_resolve_conflict full_path (conflict_strategy self) in
        if (resolved : bool) then
          subprocess_run ["git"; "add"; file_path] (Some repo_path) (git_timeout self) >>
          resolve_each self repo_path rest unresolved_conflicts
        else resolve_each self repo_path rest (unresolved_conflicts ++ [file_path])
  end.

(** An exception before [conflict_files] is bound yields the empty list, one
    after it yields the whole of [conflict_files]. *)
Definition _resolve_conflicts (self : GitService) (repo_path : string) : M (list string) :=
  let* listed :=
    try_except
      (let* result :=
         subprocess_run ["git"; "diff"; "--name-only"; "--diff-filter=U"]
                        (Some repo_path) (git_timeout self) in
       ret (Some result))
      (fun _ => ret None) in
  match listed with
  | None => ret []
  | Some result =>
      let conflict_files :=
        if String.eqb (PyStr.strip (stdout result)) "" then []
        else PyStr.split PyStr.LF (PyStr.strip (stdout result)) in
      try_except (resolve_each self repo_path conflict_files [])
                 (fun _ => ret conflict_files)
  end.

(** [re.search(r'CONFLICT.*?in (.+)', line).group(1)] on a line, which holds
    no line feed: the leftmost [CONFLICT], then the nearest [in ] after it,
    then all that follows, which must not be empty.  A later [CONFLICT] has
    less text after it, so when the leftmost one fails every one does. *)
Definition search_conflict_path (line : string) : option string :=
  match PyStr.after_first "CONFLICT" line with
  | Some rest =>
      match PyStr.after_first "in " rest with
      | Some path => if String.eqb path "" then None else Some path
      | None => None
      end
  | None => None
  end.

(** One round of the loop of [_parse_conflicts]. *)
Definition parse_line (found : list string) (line : string) : list string :=
  if PyStr.str_in "CONFLICT" line then
    match search_conflict_path line with
    | Some path => found ++ [path]
    | None => found
    end
  else found.

(** [GitService._parse_conflicts] *)
Definition _parse_conflicts (error_message : string) : list string :=
  fold_left parse_line (PyStr.split PyStr.LF error_message) [].

(** *** The sync executor *)

(** [if branch:] holds for a branch that is neither [None] nor empty. *)
Definition pull_cmd (branch : option string) : list string :=
  match branch with
  | Some b => if String.eqb b "" then ["git"; "pull"] else ["git"; "pull"; "origin"; b]
  | None => ["git"; "pull"]
  end.

(** [GitService.pull_repository].  The early [return] on unresolved
    conflicts is the [Some] of [early]. *)
Definition pull_repository (self : GitService) (repo_path : string)
           (branch : option string) : M PullResult :=
  let* present := os_path_exists repo_path in
  if negb present then ret (PullResult3 false ("仓库路径不存在: " +:+ repo_path) [])
  else
    try_except
      (let* status := get_repo_status self repo_path in
       let* early :=
         (if has_conflicts status then
            let* conflicts := _resolve_conflicts self repo_path in
            match conflicts with
            | [] => ret None
            | _ :: _ =>
                ret (Some (PullResult3 false
                             ("存在无法自动解决的冲突: " +:+ PyStr.join ", " conflicts)
                             conflicts))
            end
          else ret None) in
       match early with
       | Some result => ret result
       | None =>
           let* stashed :=
             (if negb (is_clean status) then
                let* stash_result :=
                  subprocess_run ["git"; "stash"; "push"; "-m"; "Auto-stash before pull"]
                                 (Some repo_path) (git_timeout self) in
                ret (returncode stash_result =? 0)
              else ret false) in
           let* pull_result :=
             subprocess_run (pull_cmd branch) (Some repo_path) (git_timeout self) in
           if returncode pull_result =? 0 then
             let message := PyStr.strip (stdout pull_result) in
             (if (stashed : bool) then
                subprocess_run ["git"; "stash"; "pop"] (Some repo_path) (git_timeout self) >>
                ret tt
              else ret tt) >>
             ret (PullResult3 true message [])
           else if PyStr.str_in "conflict" (PyStr.lower (stderr pull_result)) then
             ret (PullResult3 false ("Pull冲突: " +:+ stderr pull_result)
                              (_parse_conflicts (stderr pull_result)))
           else ret (PullResult3 false ("Pull失败: " +:+ stderr pull_result) [])
       end)
      (fun e =>
         if is_TimeoutExpired e
         then ret (PullResult3 false ("Pull操作超时: " +:+ repo_path) [])
         else ret (PullResult3 false ("Pull操作异常: " +:+ str_exn e) [])).

(** ** database.py: the calls the scheduler makes *)

(** [with sqlite3.connect(db_path) as conn:] runs its statements on a working
    copy; the copy becomes the stored state when the block ends normally and
    is dropped when a step raises.  Step 0 is the connection, the statements
    follow, the commit is last; [fault] names the step that raises. *)
Fixpoint run_statements (fault : option nat) (stmts : list (Store -> Store))
         (working : Store) : outcome Store :=
  match fault with
  | Some O => Raise (DatabaseError "sqlite3.OperationalError")
  | _ =>
      match stmts with
      | [] => Ret working
      | stmt :: rest => run_statements (Nat.pred <$> fault) rest (stmt working)
      end
  end.

Definition connect : Store -> Store := fun s => s.
Definition commit : Store -> Store := fun s => s.

(** One transaction on the store of the world. *)
Definition transaction (stmts : list (Store -> Store)) : M unit :=
  fun w =>
    let n := transactions w in
    match run_statements (store_oracle w n) (connect :: stmts ++ [commit]) (store w) with
    | Ret committed => (Ret tt, with_store committed (S n) w)
    | Raise e => (Raise e, with_store (store w) (S n) w)
    end.

(** [WHERE id=?]: a NULL on either side matches nothing. *)
Definition id_matches (mapping_id : option Z) (m : FolderRepoMapping) : bool :=
  match id m, mapping_id with
  | Some a, Some b => a =? b
  | _, _ => false
  end.

Definition set_pull_status (mapping_id : option Z) (status ts : string)
           (m : FolderRepoMapping) : FolderRepoMapping :=
  if id_matches mapping_id m then
    mkMapping (id m) (folder_path m) (folder_name m) (repo_path m) (repo_name m)
              (remote_url m) (branch m) (created_at m) (Some ts) (Some ts)
              status (auto_pull_enabled m) (github_url m) (github_exists m)
  else m.

(** [UPDATE folder_repo_mappings SET pull_status=?, last_pull_at=CURRENT_TIMESTAMP,
    updated_at=CURRENT_TIMESTAMP WHERE id=?] *)
Definition update_mapping_row (mapping_id : option Z) (status ts : string)
           (s : Store) : Store :=
  mkStore (map (set_pull_status mapping_id status ts) (folder_repo_mappings s))
          (pull_logs s).

(** [INSERT INTO pull_logs (mapping_id, action, status, message) VALUES (?, ?, ?, ?)] *)
Definition insert_pull_log (mapping_id : option Z) (status : string)
           (msg : option string) (ts : string) (s : Store) : Store :=
  mkStore (folder_repo_mappings s)
          (pull_logs s ++ [mkPullLog mapping_id "pull" status msg ts]).

(** [DatabaseManager.update_pull_status] *)
Definition update_pull_status (mapping_id : option Z) (status : string)
           (msg : option string) : M unit :=
  fun w =>
    let ts := current_timestamp w in
    transaction [update_mapping_row mapping_id status ts;
                 insert_pull_log mapping_id status msg ts] w.

(** [ORDER BY last_pull_at ASC]: NULL first, then the texts byte by byte. *)
Definition last_pull_leb (a b : FolderRepoMapping) : bool :=
  match last_pull_at a, last_pull_at b with
  | None, _ => true
  | Some _, None => false
  | Some x, Some y => String.leb x y
  end.

Definition last_pull_le (a b : FolderRepoMapping) : Prop := last_pull_leb a b = true.

#[local] Instance last_pull_le_dec : RelDecision last_pull_le.
Proof. intros a b. unfold last_pull_le. apply _. Defined.

(** [SELECT * FROM folder_repo_mappings WHERE auto_pull_enabled=1 ORDER BY
    last_pull_at ASC].  SQLite leaves the order of equal keys open; the
    results below use only that the rows are the enabled ones. *)
Definition select_auto_pull (s : Store) : list FolderRepoMapping :=
  merge_sort last_pull_le (List.filter auto_pull_enabled (folder_repo_mappings s)).

(** A read: the connection and the query can raise, nothing is written. *)
Definition get_auto_pull_mappings : M (list FolderRepoMapping) :=
  fun w =>
    let n := transactions w in
    match run_statements (store_oracle w n) [connect; (fun s => s)] (store w) with
    | Ret s => (Ret (select_auto_pull s), with_store (store w) (S n) w)
    | Raise e => (Raise e, with_store (store w) (S n) w)
    end.

(** ** scheduler.py *)

Record SchedulerConfig : Type := mkConfig {
  pull_interval_minutes : Z;
  max_concurrent_pulls : Z;
  retry_failed_after_minutes : Z;
  cleanup_logs_days : Z;
  repo_manager_dependency : bool;
  repo_manager_config_dir : string
}.

Definition default_config : SchedulerConfig :=
  mkConfig 15 3 120 30 true
    "/Users/niceday/Developer/Code/Local/Script/desktop/repo-management/.repo-manager".

Record SchedulerService : Type := mkScheduler {
  config : SchedulerConfig;
  git_service : GitService
}.

(** [datetime.now()], in microseconds. *)
Definition datetime_now : M Z := fun w => (Ret (now w), w).

(** [timedelta(minutes=m)], in microseconds; the constructor refuses a span
    of more than 999999999 days either way. *)
Definition timedelta_minutes (m : Z) : outcome Z :=
  if (-999999999 <=? m / 1440) && (m / 1440 <=? 999999999)
  then Ret (m * 60000000)
  else Raise (OverflowError "days; must have magnitude <= 999999999").

(** The gate check: a line of [ps aux] that shows the monitor running. *)
Definition monitor_line (line : string) : bool :=
  PyStr.str_in "repo-manager" line && PyStr.str_in "monitor" line
  && negb (PyStr.str_in "grep" line).

(** [SchedulerService._is_repo_manager_idle] *)
Definition _is_repo_manager_idle (self : SchedulerService) : M bool :=
  if negb (repo_manager_dependency (config self)) then ret true
  else
    try_except
      (let* result := subprocess_run ["ps"; "aux"] None 10 in
       if negb (returncode result =? 0) then ret true
       else if existsb monitor_line (PyStr.split PyStr.LF (stdout result)) then ret false
       else ret true)
      (fun _ => ret true).

(** The status the pull task stores for a result that is not a success. *)
Definition failure_status (result : PullResult) : string :=
  match conflicts result with
  | [] => "failed"
  | _ :: _ => "conflict"
  end.

(** [SchedulerService._pull_repository_thread]; the semaphore around its
    body only bounds how many run at once. *)
Definition _pull_repository_thread (self : SchedulerService)
           (mapping : FolderRepoMapping) : M unit :=
  try_except
    (let* present := os_path_exists (repo_path mapping) in
     if negb present then
       update_pull_status (id mapping) "failed"
                          (Some ("仓库路径不存在: " +:+ repo_path mapping))
     else
       let* result :=
         pull_repository (git_service self) (repo_path mapping) (Some (branch mapping)) in
       if success result then
         update_pull_status (id mapping) "success" (Some (message result))
       else
         update_pull_status (id mapping) (failure_status result) (Some (message result)))
    (fun e =>
       update_pull_status (id mapping) "failed" (Some ("Pull线程异常: " +:+ str_exn e))).

Section Pending.

(** [datetime.fromisoformat]: the naive time a text denotes, in
    microseconds, or the exception raised, by the parser or by the
    subtraction from [now] when the text carries a UTC offset. *)
Variable fromisoformat : string -> outcome Z.

(** The value of [should_pull] for one enabled mapping. *)
Definition should_pull (now_ pull_interval retry_interval : Z)
           (mapping : FolderRepoMapping) : outcome bool :=
  match last_pull_at mapping with
  | None => Ret true
  | Some text =>
      match fromisoformat text with
      | Raise e => Raise e
      | Ret last_pull =>
          if String.eqb (pull_status mapping) "success" then
            Ret (pull_interval <=? now_ - last_pull)
          else if str_mem (pull_status mapping) ["failed"; "conflict"] then
            Ret (retry_interval <=? now_ - last_pull)
          else Ret (pull_interval <=? now_ - last_pull)
      end
  end.

(** The loop of [_get_pending_mappings]. *)
Fixpoint select_pending (now_ pull_interval retry_interval : Z)
         (all_mappings pending_mappings : list FolderRepoMapping)
  : outcome (list FolderRepoMapping) :=
  match all_mappings with
  | [] => Ret pending_mappings
  | mapping :: rest =>
      if negb (auto_pull_enabled mapping)
      then select_pending now_ pull_interval retry_interval rest pending_mappings
      else
        match should_pull now_ pull_interval retry_interval mapping with
        | Raise e => Raise e
        | Ret true =>
            select_pending now_ pull_interval retry_interval rest
                           (pending_mappings ++ [mapping])
        | Ret false =>
            select_pending now_ pull_interval retry_interval rest pending_mappings
        end
  end.

(** [SchedulerService._get_pending_mappings]: any exception, of the store,
    of [timedelta] or of the parser, ends in the empty list. *)
Definition _get_pending_mappings (self : SchedulerService)
  : M (list FolderRepoMapping) :=
  try_except
    (let* all_mappings := get_auto_pull_mappings in
     let* now_ := datetime_now in
     let* pull_interval :=
       lift_outcome (timedelta_minutes (pull_interval_minutes (config self))) in
     let* retry_interval :=
       lift_outcome (timedelta_minutes (retry_failed_after_minutes (config self))) in
     lift_outcome (select_pending now_ pull_interval retry_interval all_mappings []))
    (fun _ => ret []).

End Pending.

(** ** A parser for the timestamps the store writes *)

(** [CURRENT_TIMESTAMP] writes [YYYY-MM-DD HH:MM:SS].  This instance of
    [datetime.fromisoformat] reads exactly the texts of that shape (any one
    byte may separate date and time) and refuses every other text; the
    results about candidate selection hold for any parser and are run on
    this one. *)
Module Iso.

(** Exactly [n] decimal digits. *)
Fixpoint number (n : nat) (s : string) (acc : Z) : option (Z * string) :=
  match n with
  | O => Some (acc, s)
  | S n' =>
      match s with
      | String a s' =>
          match PyInt.digit a with
          | Some d => number n' s' (10 * acc + d)
          | None => None
          end
      | EmptyString => None
      end
  end.

Definition expect (c : ascii) (s : string) : option string :=
  match s with
  | String a s' => if Ascii.eqb a c then Some s' else None
  | EmptyString => None
  end.

Definition any_byte (s : string) : option string :=
  match s with
  | String _ s' => Some s'
  | EmptyString => None
  end.

Definition is_leap (y : Z) : bool :=
  ((y mod 4 =? 0) && negb (y mod 100 =? 0)) || (y mod 400 =? 0).

Definition days_in_month (y m : Z) : Z :=
  if m =? 2 then (if is_leap y then 29 else 28)
  else if (m =? 4) || (m =? 6) || (m =? 9) || (m =? 11) then 30
  else 31.

Definition days_before_year (y : Z) : Z :=
  let p := y - 1 in p * 365 + p / 4 - p / 100 + p / 400.

Definition days_before_month (y m : Z) : Z :=
  fold_left (fun acc k => acc + days_in_month y (Z.of_nat k)) (seq 1 (Z.to_nat (m - 1))) 0.

(** Microseconds since 0001-01-01 00:00:00. *)
Definition micros (y m d hh mm ss : Z) : Z :=
  (((days_before_year y + days_before_month y m + (d - 1)) * 24 + hh) * 60 + mm) * 60000000
  + ss * 1000000.

Definition fields (s : string) : option Z :=
  '(y, s) ← number 4 s 0;
  s ← expect "-" s;
  '(m, s) ← number 2 s 0;
  s ← expect "-" s;
  '(d, s) ← number 2 s 0;
  s ← any_byte s;
  '(hh, s) ← number 2 s 0;
  s ← expect ":" s;
  '(mm, s) ← number 2 s 0;
  s ← expect ":" s;
  '(ss, s) ← number 2 s 0;
  if String.eqb s ""
     && (1 <=? y) && (1 <=? m) && (m <=? 12) && (1 <=? d) && (d <=? days_in_month y m)
     && (hh <? 24) && (mm <? 60) && (ss <? 60)
  then Some (micros y m d hh mm ss)
  else None.

Definition fromisoformat (s : string) : outcome Z :=
  match fields s with
  | Some t => Ret t
  | None => Raise (ValueError ("Invalid isoformat string: " +:+ s))
  end.

End Iso.


(** ** The vocabulary of the specification *)

(** [needle] occurs in [s]. *)
Definition occurs (needle s : string) : Prop :=
  exists before after, s = before +:+ needle +:+ after.

(** [s] contains [word] in some mix of upper and lower case. *)
Definition occurs_ignoring_case (word s : string) : Prop :=
  exists before found after,
    s = before +:+ found +:+ after /\ PyStr.lower found = word.

(** A line that names a conflicted file the way git prints it: [CONFLICT],
    any text, then [in ] and a path that is not empty. *)
Definition names_conflict_path (line : string) : Prop :=
  exists before between path,
    line = before +:+ "CONFLICT" +:+ between +:+ "in " +:+ path /\ path <> "".

Section Due.

Variable fromisoformat : string -> outcome Z.

(** A mapping is due, in the words of the specification: never pulled, or
    pulled at least the normal interval ago when the last status is
    neither [failed] nor [conflict], or at least the retry interval ago
    when it is one of them.  Times are in microseconds, intervals in
    minutes. *)
Definition is_due (cfg : SchedulerConfig) (now_ : Z) (m : FolderRepoMapping) : Prop :=
  last_pull_at m = None
  \/ exists text last_pull,
      last_pull_at m = Some text /\ fromisoformat text = Ret last_pull
      /\ ((pull_status m <> "failed" /\ pull_status m <> "conflict"
           /\ now_ - last_pull >= pull_interval_minutes cfg * 60000000)
          \/ ((pull_status m = "failed" \/ pull_status m = "conflict")
              /\ now_ - last_pull >= retry_failed_after_minutes cfg * 60000000)).

(** The same as a test, on intervals in microseconds. *)
Definition due_now (now_ pull_interval retry_interval : Z) (m : FolderRepoMapping)
  : bool :=
  match last_pull_at m with
  | None => true
  | Some text =>
      match fromisoformat text with
      | Ret last_pull =>
          if str_mem (pull_status m) ["failed"; "conflict"]
          then retry_interval <=? now_ - last_pull
          else pull_interval <=? now_ - last_pull
      | Raise _ => false
      end
  end.

(** Every enabled row carries a timestamp the parser reads. *)
Definition timestamps_readable (s : Store) : Prop :=
  forall m text,
    In m (folder_repo_mappings s) -> auto_pull_enabled m = true ->
    last_pull_at m = Some text -> exists t, fromisoformat text = Ret t.

End Due.

(** An interval [timedelta] can hold. *)
Definition interval_in_range (minutes : Z) : Prop :=
  -999999999 <= minutes / 1440 <= 999999999.

(** The status the specification asks the scheduler to store for a result. *)
Definition status_of_result (r : PullResult) : string :=
  if success r then "success"
  else if bool_decide (conflicts r = []) then "failed" else "conflict".

(** *** Conflict regions *)

(** A file with conflicts, as git writes it: plain lines, and regions made of
    a start marker line, the local lines, a separator line, the remote lines
    and an end marker line. *)
Inductive segment : Type :=
| Plain (line : string)
| Region (start_line : string) (local_text : list string) (separator_line : string)
         (remote_text : list string) (end_line : string).

Definition segment_lines (seg : segment) : list string :=
  match seg with
  | Plain line => [line]
  | Region s lo m re e => s :: lo ++ m :: re ++ [e]
  end.

Definition document_lines (segs : list segment) : list string :=
  flat_map segment_lines segs.

Definition is_marker (line : string) : bool :=
  PyStr.startswith line start_marker || PyStr.startswith line separator_marker
  || PyStr.startswith line end_marker.

(** The marker prefixes occur on the delimiters of the regions and nowhere
    else. *)
Definition well_delimited (seg : segment) : Prop :=
  match seg with
  | Plain line => is_marker line = false
  | Region s lo m re e =>
      PyStr.startswith s start_marker = true
      /\ Forall (fun l => is_marker l = false) lo
      /\ PyStr.startswith m separator_marker = true
      /\ Forall (fun l => is_marker l = false) re
      /\ PyStr.startswith e end_marker = true
  end.

(** What [keep_local] is to keep of a segment. *)
Definition local_side (seg : segment) : list string :=
  match seg with
  | Plain line => [line]
  | Region _ lo _ _ _ => lo
  end.

(** Where a reader of the file stands. *)
Inductive position : Type := Outside | InLocal | InRemote.

(** The claim about [keep_local] read as a procedure: a region runs from a
    start marker to the next separator and on to the next end marker; the
    lines outside the regions and the local lines are kept, the three
    markers and the remote lines dropped. *)
Fixpoint claimed_keep_local (pos : position) (lines : list string) : list string :=
  match lines with
  | [] => []
  | line :: rest =>
      match pos with
      | Outside =>
          if PyStr.startswith line start_marker then claimed_keep_local InLocal rest
          else line :: claimed_keep_local Outside rest
      | InLocal =>
          if PyStr.startswith line separator_marker then claimed_keep_local InRemote rest
          else line :: claimed_keep_local InLocal rest
      | InRemote =>
          if PyStr.startswith line end_marker then claimed_keep_local Outside rest
          else claimed_keep_local InRemote rest
      end
  end.

(** The loop of [keep_local] said by where a line stands among the lines
    [before] it.  It stands in a region when the nearest line before it that
    starts with the start or the end marker starts with the start marker; it
    stands behind a separator when the nearest line before it that starts
    with any of the three markers starts with the separator.  The remote part
    is where both hold. *)
Definition opens_or_closes (line : string) : bool :=
  PyStr.startswith line start_marker || PyStr.startswith line end_marker.

Definition in_region (before : list string) : bool :=
  match List.find opens_or_closes (List.rev before) with
  | Some l => PyStr.startswith l start_marker
  | None => false
  end.

Definition behind_separator (before : list string) : bool :=
  match List.find is_marker (List.rev before) with
  | Some l => PyStr.startswith l separator_marker
  | None => false
  end.

Definition in_remote_part (before : list string) : bool :=
  in_region before && behind_separator before.

(** A line is kept when it starts with no marker and stands outside the
    remote parts. *)
Definition kept_by_keep_local (before : list string) (line : string) : bool :=
  negb (is_marker line) && negb (in_remote_part before).

(** The lines of [lines] that [keep] keeps, each judged with the lines
    before it. *)
Fixpoint lines_kept (keep : list string -> string -> bool) (before lines : list string)
  : list string :=
  match lines with
  | [] => []
  | line :: rest =>
      (if keep before line then [line] else []) ++ lines_kept keep (before ++ [line]) rest
  end.

(** *** A healthy repository *)

(** What the [k]-th call from now does when it is the given one. *)
Definition answer (w : World) (k : nat) (a : list string) (dir : string) (t : Z)
  : run_outcome :=
  run_oracle w (k + length (invocations w))%nat (mkInvocation a (Some dir) t).

(** The path is a repository whose tree is clean and free of conflicts, the
    fetch and the count of commits ahead and behind complete, and the pull
    exits with 0 and prints [out]. *)
Definition healthy (self : GitService) (repo_path : string) (branch : option string)
           (out : string) (w : World) : Prop :=
  exists_on_disk w repo_path = true
  /\ (exists p, answer w 0 ["git"; "rev-parse"; "--is-inside-work-tree"] repo_path
                       (git_timeout self) = Completed p
                /\ returncode p = 0)
  /\ (exists p, answer w 1 ["git"; "status"; "--porcelain"] repo_path
                       (git_timeout self) = Completed p
                /\ scan_untracked (scan_status (stdout p)) = []
                /\ scan_modified (scan_status (stdout p)) = []
                /\ scan_conflicts (scan_status (stdout p)) = false)
  /\ (exists p, answer w 2 ["git"; "fetch"; "--quiet"] repo_path
                       (git_timeout self) = Completed p)
  /\ (exists p, answer w 3 ["git"; "rev-list"; "--count"; "--left-right"; "HEAD...@{u}"]
                       repo_path (git_timeout self) = Completed p)
  /\ (exists p, answer w 4 (pull_cmd branch) repo_path (git_timeout self) = Completed p
                /\ returncode p = 0 /\ stdout p = out).

(** The calls a sync of a healthy repository makes, most recent first. *)
Definition healthy_calls (self : GitService) (repo_path : string) (branch : option string)
  : list Invocation :=
  map (fun a => mkInvocation a (Some repo_path) (git_timeout self))
      [ pull_cmd branch;
        ["git"; "rev-list"; "--count"; "--left-right"; "HEAD...@{u}"];
        ["git"; "fetch"; "--quiet"];
        ["git"; "status"; "--porcelain"];
        ["git"; "rev-parse"; "--is-inside-work-tree"] ].

(** ** Worlds to run the program in *)

(** External commands that answer by a table from argument lists to
    outcomes; a command the table lacks cannot be started. *)
Definition scripted (script : list (list string * run_outcome))
  : nat -> Invocation -> run_outcome :=
  fun _ inv =>
    match find (fun entry => bool_decide (fst entry = args inv)) script with
    | Some (_, o) => o
    | None => RunRaises (OSError "No such file or directory")
    end.

Definition completed (rc : Z) (out err : string) : run_outcome :=
  Completed (mkCompleted rc out err).

(** A world with the given paths and files, all writable, a store that never
    fails and no call made yet. *)
Definition world_of (present : list string) (fs : gmap string string)
           (script : list (list string * run_outcome)) (st : Store) : World :=
  mkWorld (fun p => str_mem p present) fs (fun _ => true) (scripted script) []
          (63844884900 * 1000000) "2024-03-01 10:15:00" st (fun _ => None) 0
          (fun _ => None).

Definition service : GitService := mkGitService 30 "smart_merge".

Definition scheduler : SchedulerService := mkScheduler default_config service.

(** The conflict block of the specification's example. *)
Definition sample_conflict : string :=
  PyStr.join PyStr.nl ["<<<<<<< HEAD"; "A"; "======="; "B"; ">>>>>>> x"; ""].

Definition sample_world : World :=
  world_of ["/repo"] {[ "/repo/a.py" := sample_conflict; "/repo/notes.txt" := "plain" ]}
           [] (mkStore [] []).

(** A document whose heading is underlined with equals signs, with one
    conflict below it. *)
Definition heading_conflict : string :=
  PyStr.join PyStr.nl
    ["Title"; "======="; "<<<<<<< HEAD"; "A"; "======="; "B"; ">>>>>>> x"; ""].

(** The process list while the monitor of the other tool runs. *)
Definition busy_world : World :=
  world_of [] ∅
    [(["ps"; "aux"],
      completed 0
        (PyStr.join PyStr.nl
           ["USER  PID COMMAND"; "me  41 /usr/bin/python repo-manager monitor"; ""])
        "")]
    (mkStore [] []).

(** ** Describing a run of the executor *)

(** The git subcommand of a call. *)
Definition git_verb (inv : Invocation) : string := nth 1 (args inv) "".

(** The call that pulls, and the call that restores the stash. *)
Definition pull_call (self : GitService) (repo_path : string) (branch : option string)
  : Invocation :=
  mkInvocation (pull_cmd branch) (Some repo_path) (git_timeout self).

Definition pop_call (self : GitService) (repo_path : string) : Invocation :=
  mkInvocation ["git"; "stash"; "pop"] (Some repo_path) (git_timeout self).

(** [w'] comes after [w] in a run of the executor: what is outside the
    program answers the same way, the store is untouched, and calls were
    added to the log. *)
Definition runs_on (w w' : World) : Prop :=
  exists_on_disk w' = exists_on_disk w
  /\ writable w' = writable w
  /\ run_oracle w' = run_oracle w
  /\ now w' = now w
  /\ current_timestamp w' = current_timestamp w
  /\ store w' = store w
  /\ store_oracle w' = store_oracle w
  /\ transactions w' = transactions w
  /\ exists during, invocations w' = (during ++ invocations w)%list.

(** Every run of [m] leaves the surroundings as they are. *)
Definition steady {A} (m : M A) : Prop :=
  forall w o w', m w = (o, w') -> runs_on w w'.

(** The labels a failure message starts with. *)
Definition failure_labels : list string :=
  ["仓库路径不存在: "; "存在无法自动解决的冲突: "; "Pull冲突: "; "Pull失败: ";
   "Pull操作超时: "; "Pull操作异常: "].

Definition labelled (msg : string) : Prop :=
  exists label detail, In label failure_labels /\ msg = label +:+ detail.

(** What [pull_repository] returns once the pull itself has exited with a
    code other than 0. *)
Definition pull_failure (p : CompletedProcess) : PullResult :=
  if PyStr.str_in "conflict" (PyStr.lower (stderr p))
  then PullResult3 false ("Pull冲突: " +:+ stderr p) (_parse_conflicts (stderr p))
  else PullResult3 false ("Pull失败: " +:+ stderr p) [].

(** Every call a run of [m] adds to the log satisfies [P]. *)
Definition calls_only {A} (P : Invocation -> Prop) (m : M A) : Prop :=
  forall w o w', m w = (o, w') ->
    exists during, invocations w' = (during ++ invocations w)%list /\ Forall P during.

(** The part of [pull_repository] that follows the resolution of conflicts:
    stash, pull, restore. *)
Definition stash_and_pull (self : GitService) (repo_path : string)
           (branch : option string) (status : GitStatus) : M PullResult :=
  let* stashed :=
    (if negb (is_clean status) then
       let* stash_result :=
         subprocess_run ["git"; "stash"; "push"; "-m"; "Auto-stash before pull"]
                        (Some repo_path) (git_timeout self) in
       ret (returncode stash_result =? 0)
     else ret false) in
  let* pull_result :=
    subprocess_run (pull_cmd branch) (Some repo_path) (git_timeout self) in
  if returncode pull_result =? 0 then
    let message := PyStr.strip (stdout pull_result) in
    (if (stashed : bool) then
       subprocess_run ["git"; "stash"; "pop"] (Some repo_path) (git_timeout self) >>
       ret tt
     else ret tt) >>
    ret (PullResult3 true message [])
  else if PyStr.str_in "conflict" (PyStr.lower (stderr pull_result)) then
    ret (PullResult3 false ("Pull冲突: " +:+ stderr pull_result)
                     (_parse_conflicts (stderr pull_result)))
  else ret (PullResult3 false ("Pull失败: " +:+ stderr pull_result) []).

(** The calls whose failure the code swallows: the fetch and the count of
    commits in [_get_sync_status], and the listing of the conflicted files in
    [_resolve_conflicts].  A [git add] that raises is caught as well, but
    then [_resolve_conflicts] reports every listed file as unresolved. *)
Definition swallowed (inv : Invocation) : bool :=
  str_mem (git_verb inv) ["fetch"; "rev-list"; "diff"].

(** [log] extends [base] by calls each of which completed or is one of the
    swallowed kind. *)
Inductive survived (w : World) (base : list Invocation) : list Invocation -> Prop :=
| survived_base : survived w base base
| survived_call (inv : Invocation) (log : list Invocation) :
    survived w base log ->
    (swallowed inv = true \/ exists p, run_oracle w (length log) inv = Completed p) ->
    survived w base (inv :: log).

(** What the handlers of [pull_repository] make of an exception. *)
Definition raised_result (repo_path : string) (e : exn) : PullResult :=
  if is_TimeoutExpired e
  then PullResult3 false ("Pull操作超时: " +:+ repo_path) []
  else PullResult3 false ("Pull操作异常: " +:+ str_exn e) [].

(** How a run of [pull_repository] on an existing path from [w] can end in
    [w'] with the result [r]: short of the pull or on the restoring of the
    stash; on a pull that raised; on a pull that exited with 0, every call
    made having completed or being of the swallowed kind; on a pull that
    exited with another code. *)
Inductive pull_run (self : GitService) (repo_path : string) (branch : option string)
          (w : World) (r : PullResult) (w' : World) : Prop :=
| stopped_short (inv : Invocation) (rest : list Invocation) :
    invocations w' = inv :: rest ->
    git_verb inv <> "pull" ->
    success r = false ->
    pull_run self repo_path branch w r w'
| pull_raised (e : exn) (during : list Invocation) :
    invocations w' = (pull_call self repo_path branch :: during ++ invocations w)%list ->
    run_oracle w (length (during ++ invocations w)) (pull_call self repo_path branch)
    = RunRaises e ->
    r = raised_result repo_path e ->
    pull_run self repo_path branch w r w'
| pull_succeeded (post during : list Invocation) (p : CompletedProcess) :
    invocations w'
    = (post ++ pull_call self repo_path branch :: during ++ invocations w)%list ->
    post = [] \/ post = [pop_call self repo_path] ->
    run_oracle w (length (during ++ invocations w)) (pull_call self repo_path branch)
    = Completed p ->
    returncode p = 0 ->
    survived w (invocations w) (invocations w') ->
    r = PullResult3 true (PyStr.strip (stdout p)) [] ->
    pull_run self repo_path branch w r w'
| pull_failed (during : list Invocation) (p : CompletedProcess) :
    invocations w' = (pull_call self repo_path branch :: during ++ invocations w)%list ->
    run_oracle w (length (during ++ invocations w)) (pull_call self repo_path branch)
    = Completed p ->
    returncode p <> 0 ->
    r = pull_failure p ->
    pull_run self repo_path branch w r w'.

(** The same for the stage [stash_and_pull], which can still raise. *)
Inductive stage_run (self : GitService) (repo_path : string) (branch : option string)
          (w : World) (o : outcome PullResult) (w' : World) : Prop :=
| stage_stash_raised (e : exn) (inv : Invocation) (rest : list Invocation) :
    o = Raise e ->
    invocations w' = inv :: rest ->
    git_verb inv = "stash" ->
    stage_run self repo_path branch w o w'
| stage_pull_raised (e : exn) (during : list Invocation) :
    o = Raise e ->
    invocations w' = (pull_call self repo_path branch :: during ++ invocations w)%list ->
    run_oracle w (length (during ++ invocations w)) (pull_call self repo_path branch)
    = RunRaises e ->
    stage_run self repo_path branch w o w'
| stage_pull_succeeded (post during : list Invocation) (p : CompletedProcess) :
    o = Ret (PullResult3 true (PyStr.strip (stdout p)) []) ->
    invocations w'
    = (post ++ pull_call self repo_path branch :: during ++ invocations w)%list ->
    post = [] \/ post = [pop_call self repo_path] ->
    run_oracle w (length (during ++ invocations w)) (pull_call self repo_path branch)
    = Completed p ->
    returncode p = 0 ->
    survived w (invocations w) (invocations w') ->
    stage_run self repo_path branch w o w'
| stage_pull_failed (during : list Invocation) (p : CompletedProcess) :
    o = Ret (pull_failure p) ->
    invocations w' = (pull_call self repo_path branch :: during ++ invocations w)%list ->
    run_oracle w (length (during ++ invocations w)) (pull_call self repo_path branch)
    = Completed p ->
    returncode p <> 0 ->
    stage_run self repo_path branch w o w'.

(** A repository on which the fetch times out and everything else goes
    well. *)
Definition fetch_timeout_world : World :=
  world_of ["/repo"] ∅
    [(["git"; "rev-parse"; "--is-inside-work-tree"], completed 0 ("true" +:+ PyStr.nl) "");
     (["git"; "status"; "--porcelain"], completed 0 "" "");
     (["git"; "fetch"; "--quiet"],
      RunRaises (TimeoutExpired "Command '['git', 'fetch', '--quiet']' timed out after 30 seconds"));
     (["git"; "pull"; "origin"; "main"],
      completed 0 ("Already up to date." +:+ PyStr.nl) "")]
    (mkStore [] []).

Definition fetch_call : Invocation :=
  mkInvocation ["git"; "fetch"; "--quiet"] (Some "/repo") 30.

(** A mapping of the store. *)
Definition sample_mapping : FolderRepoMapping :=
  mkMapping (Some 1) "/work/app" "app" "/repo" "app" None "main"
            (Some "2024-03-01 09:00:00") (Some "2024-03-01 10:00:00")
            (Some "2024-03-01 10:00:00") "success" true None false.

(** A clean repository that is up to date with its upstream. *)
Definition healthy_world : World :=
  world_of ["/repo"] ∅
    [(["git"; "rev-parse"; "--is-inside-work-tree"], completed 0 ("true" +:+ PyStr.nl) "");
     (["git"; "status"; "--porcelain"], completed 0 "" "");
     (["git"; "fetch"; "--quiet"], completed 0 "" "");
     (["git"; "rev-list"; "--count"; "--left-right"; "HEAD...@{u}"],
      completed 0 ("0" +:+ String PyStr.TAB "0" +:+ PyStr.nl) "");
     (["git"; "pull"; "origin"; "main"],
      completed 0 ("Already up to date." +:+ PyStr.nl) "")]
    (mkStore [sample_mapping] []).

(** A repository whose pull stops on a rebase that reports conflicts
    without naming a file the way a merge does. *)
Definition rebase_stderr : string :=
  PyStr.join PyStr.nl
    ["error: could not apply 1a2b3c4... update";
     "hint: Resolve all conflicts manually, mark them as resolved";
     ""].

Definition rebase_world : World :=
  world_of ["/repo"] ∅
    [(["git"; "rev-parse"; "--is-inside-work-tree"], completed 0 ("true" +:+ PyStr.nl) "");
     (["git"; "status"; "--porcelain"], completed 0 "" "");
     (["git"; "fetch"; "--quiet"], completed 0 "" "");
     (["git"; "rev-list"; "--count"; "--left-right"; "HEAD...@{u}"],
      completed 0 ("0" +:+ String PyStr.TAB "1" +:+ PyStr.nl) "");
     (["git"; "pull"; "origin"; "main"], completed 1 "" rebase_stderr)]
    (mkStore [sample_mapping] []).

(** The store after [update_pull_status] has committed. *)
Definition status_stored (mapping_id : option Z) (status : string) (msg : option string)
           (ts : string) (s : Store) : Store :=
  insert_pull_log mapping_id status msg ts (update_mapping_row mapping_id status ts s).

(** Rows of every kind at 10:15: never pulled; pulled ten minutes ago;
    pulled a quarter of an hour ago to the second; failed an hour ago;
    switched off. *)
Definition row (n : Z) (pulled : option string) (status : string) (enabled : bool)
  : FolderRepoMapping :=
  mkMapping (Some n) "/work/app" "app" "/repo" "app" None "main"
            (Some "2024-03-01 09:00:00") pulled pulled status enabled None false.

Definition due_rows : list FolderRepoMapping :=
  [ row 1 (Some "2024-03-01 10:05:00") "success" true;
    row 2 None "pending" true;
    row 3 (Some "2024-03-01 10:00:00") "success" true;
    row 4 (Some "2024-03-01 09:15:00") "failed" true;
    row 5 None "pending" false ].

Definition due_world : World := world_of [] ∅ [] (mkStore due_rows []).

(** The same rows with one timestamp that is no timestamp. *)
Definition unreadable_world : World :=
  world_of [] ∅ [] (mkStore (row 6 (Some "yesterday") "success" true :: due_rows) []).

(** An interval of more than 999999999 days. *)
Definition endless_scheduler : SchedulerService :=
  mkScheduler (mkConfig 1440000000000 3 120 30 true "") service.

(** The healthy repository with a store whose first transaction fails on
    its first statement. *)
Definition flaky_store_world : World :=
  mkWorld (exists_on_disk healthy_world) (files healthy_world) (writable healthy_world)
          (run_oracle healthy_world) [] (now healthy_world)
          (current_timestamp healthy_world) (store healthy_world)
          (fun n => if (n =? 0)%nat then Some 1%nat else None) 0
          (write_fault healthy_world).

(** What git prints when a merge stops on two files. *)
Definition merge_stderr : string :=
  PyStr.join PyStr.nl
    ["Auto-merging src/a.py";
     "CONFLICT (content): Merge conflict in src/a.py";
     "CONFLICT (add/add): Merge conflict in docs/in place.md";
     "Automatic merge failed; fix conflicts and then commit the result.";
     ""].

(** * More of the code *)

(** ** Vocabulary for the other functions *)

(** The byte [c] occurs in [s]. *)
Fixpoint has_char (c : ascii) (s : string) : bool :=
  match s with
  | EmptyString => false
  | String a s' => Ascii.eqb a c || has_char c s'
  end.

(** The four comment lines [keep_both] generates. *)
Definition generated_lines : list string :=
  ["# ============ 合并冲突 ============"; "# 本地版本:"; "# 远程版本:";
   "# ================================"].

(** What [keep_remote] and [keep_both] are to keep of a segment. *)
Definition remote_side (seg : segment) : list string :=
  match seg with
  | Plain line => [line]
  | Region _ _ _ re _ => re
  end.

Definition both_sides (seg : segment) : list string :=
  match seg with
  | Plain line => [line]
  | Region _ lo _ re _ =>
      ["# ============ 合并冲突 ============"; "# 本地版本:"] ++ lo
      ++ ["# 远程版本:"] ++ re ++ ["# ================================"]
  end.

(** The lines a strategy keeps; a text that names no strategy is treated as
    [keep_both], and [smart_merge] picks by the extension of the path. *)
Definition strategy_lines (file_path strategy content : string) : list string :=
  if String.eqb strategy "smart_merge" then
    if str_mem (PyStr.lower (splitext_ext file_path)) config_files
    then keep_local_lines content else keep_both_lines content
  else if String.eqb strategy "keep_local" then keep_local_lines content
  else if String.eqb strategy "keep_remote" then keep_remote_lines content
  else keep_both_lines content.

(** ** git_service.py: the probes *)

(** [GitService.check_git_available] *)
Definition check_git_available (self : GitService) : M bool :=
  try_except
    (let* result := subprocess_run ["git"; "--version"] None 5 in
     ret (returncode result =? 0))
    (fun _ => ret false).

(** [GitService.get_remote_url] *)
Definition get_remote_url (self : GitService) (repo_path : string) : M (option string) :=
  try_except
    (let* result :=
       subprocess_run ["git"; "remote"; "get-url"; "origin"]
                      (Some repo_path) (git_timeout self) in
     if returncode result =? 0 then ret (Some (PyStr.strip (stdout result)))
     else ret None)
    (fun _ => ret None).

(** [GitService.get_current_branch] *)
Definition get_current_branch (self : GitService) (repo_path : string)
  : M (option string) :=
  try_except
    (let* result :=
       subprocess_run ["git"; "branch"; "--show-current"]
                      (Some repo_path) (git_timeout self) in
     if returncode result =? 0 then ret (Some (PyStr.strip (stdout result)))
     else ret None)
    (fun _ => ret None).

(** The call that stashes. *)
Definition stash_call (self : GitService) (repo_path : string) : Invocation :=
  mkInvocation ["git"; "stash"; "push"; "-m"; "Auto-stash before pull"]
               (Some repo_path) (git_timeout self).

Definition is_pop (inv : Invocation) : bool :=
  bool_decide (args inv = ["git"; "stash"; "pop"]).

(** ** database.py: reading one row, deleting *)

(** [DatabaseManager.get_mapping_by_id]: [fetchone] on [WHERE id=?]. *)
Definition get_mapping_by_id (mapping_id : option Z) : M (option FolderRepoMapping) :=
  fun w =>
    let n := transactions w in
    match run_statements (store_oracle w n) [connect; (fun s => s)] (store w) with
    | Ret s =>
        (Ret (List.find (id_matches mapping_id) (folder_repo_mappings s)),
         with_store (store w) (S n) w)
    | Raise e => (Raise e, with_store (store w) (S n) w)
    end.

(** [WHERE mapping_id=?] on the log. *)
Definition log_matches (mapping_id : option Z) (l : PullLog) : bool :=
  match log_mapping_id l, mapping_id with
  | Some a, Some b => a =? b
  | _, _ => false
  end.

(** [DELETE FROM pull_logs WHERE mapping_id=?] *)
Definition delete_logs_of (mapping_id : option Z) (s : Store) : Store :=
  mkStore (folder_repo_mappings s)
          (List.filter (fun l => negb (log_matches mapping_id l)) (pull_logs s)).

(** [DELETE FROM folder_repo_mappings WHERE id=?] *)
Definition delete_row (mapping_id : option Z) (s : Store) : Store :=
  mkStore (List.filter (fun m => negb (id_matches mapping_id m)) (folder_repo_mappings s))
          (pull_logs s).

(** [DatabaseManager.delete_mapping]: the answer is the row count of the
    second statement. *)
Definition delete_mapping (mapping_id : option Z) : M bool :=
  fun w =>
    let deleted :=
      length (List.filter (id_matches mapping_id) (folder_repo_mappings (store w))) in
    (transaction [delete_logs_of mapping_id; delete_row mapping_id] >>
     ret (0 <? Z.of_nat deleted)) w.

Section Cleanup.

(** What SQLite makes of [datetime('now', '-N days')] when [CURRENT_TIMESTAMP]
    reads the given text: the time [N] days earlier as a text of the same
    shape, or NULL when it cannot read the modifier, as for a negative
    [N], which is formatted with two signs. *)
Variable days_before : string -> Z -> option string.

(** [timestamp < cutoff]; a comparison with NULL selects nothing. *)
Definition older_than (cutoff : option string) (l : PullLog) : bool :=
  match cutoff with
  | Some c => String.ltb (log_timestamp l) c
  | None => false
  end.

(** [DELETE FROM pull_logs WHERE timestamp < datetime('now', '-N days')] *)
Definition delete_old_logs (cutoff : option string) (s : Store) : Store :=
  mkStore (folder_repo_mappings s)
          (List.filter (fun l => negb (older_than cutoff l)) (pull_logs s)).

(** [DatabaseManager.cleanup_old_logs] *)
Definition cleanup_old_logs (keep_days : Z) : M unit :=
  fun w =>
    transaction [delete_old_logs (days_before (current_timestamp w) keep_days)] w.

(** [SchedulerService._cleanup_old_logs] *)
Definition _cleanup_old_logs (self : SchedulerService) : M unit :=
  try_except (cleanup_old_logs (cleanup_logs_days (config self)))
             (fun _ => ret tt).

End Cleanup.

(** ** scheduler.py: one repository on demand *)

(** [SchedulerService.force_pull_repository] *)
Definition force_pull_repository (self : SchedulerService) (mapping_id : Z) : M unit :=
  try_except
    (let* mapping := get_mapping_by_id (Some mapping_id) in
     match mapping with
     | None => ret tt
     | Some found => _pull_repository_thread self found
     end)
    (fun _ => ret tt).

(** Whether the [n]-th transaction on the store raises, when it has [steps]
    steps, the connection and the commit among them: the fault named by the
    oracle falls on one of them or on the end of the block. *)
Definition store_fails (w : World) (n steps : nat) : bool :=
  match store_oracle w n with
  | Some k => (k <=? steps)%nat
  | None => false
  end.

(** ** More worlds *)

(** A repository in the middle of a merge: one file in conflict. *)
Definition conflicted_world : World :=
  world_of ["/repo"] {[ "/repo/a.py" := sample_conflict ]}
    [(["git"; "rev-parse"; "--is-inside-work-tree"], completed 0 ("true" +:+ PyStr.nl) "");
     (["git"; "status"; "--porcelain"], completed 0 ("UU a.py" +:+ PyStr.nl) "");
     (["git"; "fetch"; "--quiet"], completed 0 "" "");
     (["git"; "rev-list"; "--count"; "--left-right"; "HEAD...@{u}"],
      completed 0 ("2" +:+ String PyStr.TAB "1" +:+ PyStr.nl) "");
     (["git"; "diff"; "--name-only"; "--diff-filter=U"], completed 0 ("a.py" +:+ PyStr.nl) "");
     (["git"; "add"; "a.py"], completed 0 "" "");
     (["git"; "stash"; "push"; "-m"; "Auto-stash before pull"],
      completed 0 ("Saved working directory and index state" +:+ PyStr.nl) "");
     (["git"; "pull"; "origin"; "main"],
      completed 0 ("Already up to date." +:+ PyStr.nl) "");
     (["git"; "stash"; "pop"], completed 0 "" "")]
    (mkStore [sample_mapping] []).

(** The same repository when [git add] does not come back in time. *)
Definition add_timeout_world : World :=
  world_of ["/repo"] {[ "/repo/a.py" := sample_conflict ]}
    [(["git"; "rev-parse"; "--is-inside-work-tree"], completed 0 ("true" +:+ PyStr.nl) "");
     (["git"; "status"; "--porcelain"], completed 0 ("UU a.py" +:+ PyStr.nl) "");
     (["git"; "fetch"; "--quiet"], completed 0 "" "");
     (["git"; "rev-list"; "--count"; "--left-right"; "HEAD...@{u}"],
      completed 0 ("2" +:+ String PyStr.TAB "1" +:+ PyStr.nl) "");
     (["git"; "diff"; "--name-only"; "--diff-filter=U"], completed 0 ("a.py" +:+ PyStr.nl) "");
     (["git"; "add"; "a.py"],
      RunRaises (TimeoutExpired "Command '['git', 'add', 'a.py']' timed out after 30 seconds"));
     (["git"; "stash"; "push"; "-m"; "Auto-stash before pull"],
      completed 0 ("Saved working directory and index state" +:+ PyStr.nl) "");
     (["git"; "pull"; "origin"; "main"],
      completed 0 ("Already up to date." +:+ PyStr.nl) "");
     (["git"; "stash"; "pop"], completed 0 "" "")]
    (mkStore [sample_mapping] []).

(** A repository with an edited file, whose remote cannot be reached. *)
Definition dirty_world : World :=
  world_of ["/repo"] ∅
    [(["git"; "rev-parse"; "--is-inside-work-tree"], completed 0 ("true" +:+ PyStr.nl) "");
     (["git"; "status"; "--porcelain"], completed 0 (" M notes.txt" +:+ PyStr.nl) "");
     (["git"; "fetch"; "--quiet"], completed 128 "" "fatal: unable to access");
     (["git"; "rev-list"; "--count"; "--left-right"; "HEAD...@{u}"],
      completed 0 ("0" +:+ String PyStr.TAB "0" +:+ PyStr.nl) "");
     (["git"; "stash"; "push"; "-m"; "Auto-stash before pull"],
      completed 0 ("Saved working directory and index state" +:+ PyStr.nl) "");
     (["git"; "pull"; "origin"; "main"], completed 1 "" "fatal: unable to access");
     (["git"; "stash"; "pop"], completed 0 "" "")]
    (mkStore [sample_mapping] []).

(** Every run of [m] leaves the files as they are. *)
Definition keeps_files {A} (m : M A) : Prop :=
  forall w o w', m w = (o, w') -> files w' = files w.

(** The call that lists the files in conflict. *)
Definition listing_call (self : GitService) (repo_path : string) : Invocation :=
  mkInvocation ["git"; "diff"; "--name-only"; "--diff-filter=U"]
               (Some repo_path) (git_timeout self).

(** A store with one mapping and the log of three syncs, two of them of a
    mapping that is gone. *)
Definition logged_world : World :=
  world_of ["/repo"] ∅ []
    (mkStore [sample_mapping; row 2 None "pending" false]
       [mkPullLog (Some 1) "pull" "success" (Some "Already up to date.") "2024-01-10 08:00:00";
        mkPullLog (Some 7) "pull" "failed" (Some "Pull失败: ") "2024-02-20 08:00:00";
        mkPullLog (Some 1) "pull" "success" (Some "Already up to date.") "2024-03-01 10:00:00"]).

(** The healthy repository with a store that cannot be written at all. *)
Definition broken_store_world : World :=
  mkWorld (exists_on_disk healthy_world) (files healthy_world) (writable healthy_world)
          (run_oracle healthy_world) [] (now healthy_world)
          (current_timestamp healthy_world) (store healthy_world)
          (fun _ => Some 0%nat) 0 (write_fault healthy_world).

(** ** database.py: saving a mapping, the configuration *)

(** The database as a whole: the two tables of the [Store], the counter
    SQLite keeps for the AUTOINCREMENT key of the mappings, and the table of
    the configuration, each value with the time it was set.  [clock] is the
    text of [CURRENT_TIMESTAMP]; [refuses n] says that the [n]-th connection
    cannot be opened or cannot commit. *)
Record Database : Type := mkDatabase {
  tables : Store;
  mapping_sequence : Z;
  configurations : gmap string (string * string);
  clock : string;
  refuses : nat -> bool;
  connections : nat
}.

(** State and exceptions over the database. *)
Definition DB (A : Type) : Type := Database -> outcome A * Database.

Definition opened (db : Database) : Database :=
  mkDatabase (tables db) (mapping_sequence db) (configurations db) (clock db)
             (refuses db) (S (connections db)).

Definition with_mappings (rows : list FolderRepoMapping) (seq : Z) (db : Database)
  : Database :=
  mkDatabase (mkStore rows (pull_logs (tables db))) seq (configurations db) (clock db)
             (refuses db) (connections db).

Definition with_configurations (c : gmap string (string * string)) (db : Database)
  : Database :=
  mkDatabase (tables db) (mapping_sequence db) c (clock db) (refuses db) (connections db).

(** [with sqlite3.connect(db_path) as conn:] around statements that may
    raise: what they changed is dropped when they raise. *)
Definition with_connection {A} (body : Database -> outcome (A * Database)) : DB A :=
  fun db =>
    if refuses db (connections db)
    then (Raise (DatabaseError "sqlite3.OperationalError"), opened db)
    else match body (opened db) with
         | Ret (a, db') => (Ret a, db')
         | Raise e => (Raise e, opened db)
         end.

(** [UNIQUE(folder_path, repo_path)] *)
Definition same_pair (a b : FolderRepoMapping) : bool :=
  String.eqb (folder_path a) (folder_path b) && String.eqb (repo_path a) (repo_path b).

Definition largest_id (rows : list FolderRepoMapping) : Z :=
  fold_right Z.max 0 (omap id rows).

(** The key AUTOINCREMENT gives the next row: one more than the largest the
    table has ever held. *)
Definition next_id (db : Database) : Z :=
  Z.max (mapping_sequence db) (largest_id (folder_repo_mappings (tables db))) + 1.

(** [INSERT OR REPLACE INTO folder_repo_mappings (folder_path, ...) VALUES
    (...)]: a row with the same two paths is deleted, the new row gets a new
    key and the defaults of the columns the statement does not name. *)
Definition insert_or_replace (mapping : FolderRepoMapping) (db : Database)
  : Z * Database :=
  let rows := folder_repo_mappings (tables db) in
  let key := next_id db in
  let inserted :=
    mkMapping (Some key) (folder_path mapping) (folder_name mapping)
              (repo_path mapping) (repo_name mapping) (remote_url mapping)
              (branch mapping) (Some (clock db)) (Some (clock db)) None "pending"
              (auto_pull_enabled mapping) (github_url mapping) (github_exists mapping) in
  (key,
   with_mappings (List.filter (fun r => negb (same_pair mapping r)) rows ++ [inserted])
                 key db).

(** The row [UPDATE folder_repo_mappings SET folder_path=?, ...,
    updated_at=CURRENT_TIMESTAMP WHERE id=?] makes of a row with the key. *)
Definition updated_row (mapping : FolderRepoMapping) (ts : string)
           (r : FolderRepoMapping) : FolderRepoMapping :=
  mkMapping (id r) (folder_path mapping) (folder_name mapping)
            (repo_path mapping) (repo_name mapping) (remote_url mapping)
            (branch mapping) (created_at r) (Some ts) (last_pull_at r) (pull_status r)
            (auto_pull_enabled mapping) (github_url mapping) (github_exists mapping).

(** The update is refused when it would give a row the two paths of
    another row. *)
Definition update_by_id (key : Z) (mapping : FolderRepoMapping) (db : Database)
  : outcome Database :=
  let rows := folder_repo_mappings (tables db) in
  if existsb (id_matches (Some key)) rows
     && existsb (fun r => same_pair mapping r && negb (id_matches (Some key) r)) rows
  then Raise (DatabaseError
                "sqlite3.IntegrityError: UNIQUE constraint failed: folder_repo_mappings.folder_path, folder_repo_mappings.repo_path")
  else Ret (with_mappings
              (map (fun r => if id_matches (Some key) r
                             then updated_row mapping (clock db) r else r) rows)
              (mapping_sequence db) db).

(** [DatabaseManager.save_mapping] *)
Definition save_mapping (mapping : FolderRepoMapping) : DB Z :=
  with_connection
    (fun db =>
       match id mapping with
       | None => Ret (insert_or_replace mapping db)
       | Some key =>
           match update_by_id key mapping db with
           | Ret db' => Ret (key, db')
           | Raise e => Raise e
           end
       end).

(** [DatabaseManager.set_config] *)
Definition set_config (key value : string) : DB unit :=
  with_connection
    (fun db =>
       Ret (tt, with_configurations (<[key := (value, clock db)]> (configurations db)) db)).

(** [DatabaseManager.get_config] *)
Definition get_config (key : string) (default : option string) : DB (option string) :=
  with_connection
    (fun db =>
       Ret (match configurations db !! key with
            | Some (value, _) => Some value
            | None => default
            end, db)).

(** A database with the sample mapping, pulled with success. *)
Definition sample_database : Database :=
  mkDatabase (mkStore [sample_mapping]
                [mkPullLog (Some 1) "pull" "success" None "2024-03-01 10:00:00"])
             1 ∅ "2024-03-01 10:15:00" (fun _ => false) 0.

(** The mapping as a scan finds it again: no key yet. *)
Definition scanned_mapping : FolderRepoMapping :=
  mkMapping None "/work/app" "app" "/repo" "app" None "main" None None None "pending"
            true None false.

(** ** matcher.py: comparing remote URLs *)

(** [s.replace(old, new)] for an [old] that is not empty: the occurrences
    are taken from the left and do not overlap; [skip] counts the bytes of an
    occurrence still to be passed over. *)
Fixpoint replace_go (old new : string) (skip : nat) (s : string) : string :=
  match s with
  | EmptyString => EmptyString
  | String c s' =>
      match skip with
      | S k => replace_go old new k s'
      | O =>
          if PyStr.startswith (String c s') old
          then new +:+ replace_go old new (String.length old - 1) s'
          else String c (replace_go old new O s')
      end
  end.

Definition str_replace (old new s : string) : string := replace_go old new O s.

(** [FolderMatcher._normalize_git_url] *)
Definition _normalize_git_url (url : string) : string :=
  if PyStr.startswith url "git@github.com:" then
    str_replace ".git" "" (str_replace "git@github.com:" "https://github.com/" url)
  else str_replace ".git" "" url.

(** [FolderMatcher._has_correct_remote] *)
Definition _has_correct_remote (repo_path expected_url : string) : M bool :=
  try_except
    (let* result :=
       subprocess_run ["git"; "remote"; "get-url"; "origin"] (Some repo_path) 10 in
     if returncode result =? 0 then
       let current_url := PyStr.strip (stdout result) in
       ret (String.eqb (_normalize_git_url current_url) (_normalize_git_url expected_url))
     else ret false)
    (fun _ => ret false).

(** A clone made over SSH. *)
Definition ssh_clone_world : World :=
  world_of ["/repo"] ∅
    [(["git"; "remote"; "get-url"; "origin"],
      completed 0 ("git@github.com:owner/tool.git" +:+ PyStr.nl) "")]
    (mkStore [] []).

(** A tree with a deleted file, a file changed both in the index and in the
    tree, and a new file in the index. *)
Definition deleted_world : World :=
  world_of ["/repo"] ∅
    [(["git"; "rev-parse"; "--is-inside-work-tree"], completed 0 ("true" +:+ PyStr.nl) "");
     (["git"; "status"; "--porcelain"],
      completed 0 (" D gone.txt" +:+ PyStr.nl +:+ "MM both.txt" +:+ PyStr.nl
                   +:+ "A  new.txt" +:+ PyStr.nl) "");
     (["git"; "fetch"; "--quiet"], completed 0 "" "");
     (["git"; "rev-list"; "--count"; "--left-right"; "HEAD...@{u}"],
      completed 0 ("0" +:+ String PyStr.TAB "0" +:+ PyStr.nl) "")]
    (mkStore [] []).

(** A line of the status that adds to the untracked or to the modified
    files. *)
Definition counts_as_change (line : string) : bool :=
  PyStr.startswith line "??" || PyStr.startswith line " M"
  || PyStr.startswith line "UU" || PyStr.startswith line "AA".

(** * Properties *)

Local Open Scope list_scope.

(** ** The string primitives on examples *)

Example split_trailing : PyStr.split PyStr.LF ("a" +:+ PyStr.nl +:+ "b" +:+ PyStr.nl) = ["a"; "b"; ""].
Proof. reflexivity. Qed.

Example strip_both : PyStr.strip ("  Already up to date." +:+ PyStr.nl) = "Already up to date.".
Proof. reflexivity. Qed.

Example splitlines_mixed :
  PyStr.splitlines ("?? a" +:+ PyStr.bytes [13; 10]%nat +:+ " M b" +:+ PyStr.nl +:+ PyStr.nl +:+ "c")
  = ["?? a"; " M b"; ""; "c"].
Proof. reflexivity. Qed.

Example drop_chars_utf8 : PyStr.drop_chars 3 "?? 合并.txt" = "合并.txt".
Proof. reflexivity. Qed.

Example iso_quarter_hour :
  Iso.fromisoformat "2024-03-01 10:15:00" = Ret (63844884900 * 1000000)
  /\ Iso.fromisoformat "2024-03-01 10:00:00" = Ret (63844884000 * 1000000)
  /\ Iso.fromisoformat "2024-02-30 10:00:00" = Raise (ValueError "Invalid isoformat string: 2024-02-30 10:00:00").
Proof. vm_compute. auto. Qed.

Example int_forms :
  PyInt.int " 12 " = Ret 12 /\ PyInt.int "-3" = Ret (-3) /\ PyInt.int "1_000" = Ret 1000
  /\ PyInt.int "" = Raise (ValueError "invalid literal for int() with base 10: ''")
  /\ PyInt.int "1__0" = Raise (ValueError "invalid literal for int() with base 10: '1__0'")
  /\ PyInt.int "+ 3" = Raise (ValueError "invalid literal for int() with base 10: '+ 3'").
Proof. repeat split. Qed.

(** Digits of other scripts count: Arabic-Indic three and four, a
    full-width seven behind a no-break space, a mathematical bold three; the
    separator U+001F is no white space for [int]. *)
Example int_of_other_scripts :
  PyInt.int (PyStr.bytes [217; 163; 95; 217; 164]%nat) = Ret 34
  /\ PyInt.int (PyStr.bytes [194; 160; 45; 239; 188; 151; 10]%nat) = Ret (-7)
  /\ PyInt.int (PyStr.bytes [240; 157; 159; 145]%nat) = Ret 3
  /\ (exists e, PyInt.int (PyStr.bytes [51; 31]%nat) = Raise e)
  /\ (exists e, PyInt.int (PyStr.bytes [45; 32; 51]%nat) = Raise e).
Proof. repeat split; vm_compute; eauto. Qed.

(** The limit on the digits: 4300 are converted, one more is an error, and
    zeros in front count. *)
Example int_of_many_digits :
  (exists z, PyInt.int (String.concat "" (repeat "1" 4300)) = Ret z)
  /\ PyInt.int (String.concat "" (repeat "0" 4301))
     = Raise (ValueError
                "Exceeds the limit (4300 digits) for integer string conversion: value has 4301 digits; use sys.set_int_max_str_digits() to increase the limit").
Proof. split; [eexists|]; vm_compute; reflexivity. Qed.

Example splitext_forms :
  splitext_ext "/repo/settings.JSON" = ".JSON" /\ splitext_ext "/repo/.gitignore" = ""
  /\ splitext_ext "/repo.d/Makefile" = "" /\ splitext_ext "a.tar.gz" = ".gz"
  /\ splitext_ext "..a.b" = ".b" /\ splitext_ext "a." = ".".
Proof. repeat split. Qed.

Example join_forms :
  os_path_join "/repo" "src/a.py" = "/repo/src/a.py"
  /\ os_path_join "/repo/" "a.py" = "/repo/a.py"
  /\ os_path_join "/repo" "/etc/hosts" = "/etc/hosts".
Proof. repeat split. Qed.

Example status_scanned :
  scan_status (PyStr.join PyStr.nl ["?? new.txt"; " M src/a.py"; "M  staged.py"; "UU both.md"; ""])
  = mkScan ["new.txt"] ["src/a.py"; "both.md"] ["staged.py"] true.
Proof. reflexivity. Qed.

Example merge_conflicts_parsed :
  _parse_conflicts merge_stderr = ["src/a.py"; "docs/in place.md"].
Proof. reflexivity. Qed.

(** ** Facts about the string primitives *)

Lemma startswith_app (p r : string) : PyStr.startswith (p +:+ r) p = true.
Proof.
  induction p as [|a p IH]; simpl.
  - destruct r; reflexivity.
  - rewrite Ascii.eqb_refl. exact IH.
Qed.

Lemma startswith_inv (s p : string) :
  PyStr.startswith s p = true -> exists r, s = p +:+ r.
Proof.
  revert s. induction p as [|b p IH]; intros s H.
  - exists s. reflexivity.
  - destruct s as [|a s]; simpl in H; [discriminate|].
    destruct (Ascii.eqb a b) eqn:E; [|discriminate].
    apply Ascii.eqb_eq in E. subst b.
    destruct (IH s H) as [r ->]. exists r. reflexivity.
Qed.

Lemma drop_bytes_app (p r : string) : PyStr.drop_bytes (String.length p) (p +:+ r) = r.
Proof. induction p as [|a p IH]; simpl; auto. Qed.

Lemma startswith_drop (s p : string) :
  PyStr.startswith s p = true -> s = p +:+ PyStr.drop_bytes (String.length p) s.
Proof.
  intros H. destruct (startswith_inv s p H) as [r ->].
  now rewrite drop_bytes_app.
Qed.

Lemma str_in_unfold (needle s : string) :
  PyStr.str_in needle s
  = if PyStr.startswith s needle then true
    else match s with
         | EmptyString => false
         | String _ s' => PyStr.str_in needle s'
         end.
Proof. destruct s; reflexivity. Qed.

Lemma str_in_occurs (needle s : string) :
  PyStr.str_in needle s = true <-> occurs needle s.
Proof.
  split.
  - induction s as [|a s IH]; rewrite str_in_unfold.
    + destruct (PyStr.startswith "" needle) eqn:E; [|easy].
      intros _. destruct (startswith_inv _ _ E) as [r Hr].
      exists "", r. exact Hr.
    + destruct (PyStr.startswith (String a s) needle) eqn:E.
      * intros _. destruct (startswith_inv _ _ E) as [r Hr].
        exists "", r. exact Hr.
      * intros H. destruct (IH H) as (x & y & ->).
        exists (String a x), y. reflexivity.
  - intros (x & y & ->). induction x as [|a x IH].
    + change ("" +:+ needle +:+ y) with (needle +:+ y).
      rewrite str_in_unfold. now rewrite startswith_app.
    + change (String a x +:+ needle +:+ y) with (String a (x +:+ needle +:+ y)).
      cbn [PyStr.str_in]. rewrite IH. now destruct (PyStr.startswith (String a (x +:+ needle +:+ y)) needle).
Qed.




Lemma after_first_unfold (needle s : string) :
  PyStr.after_first needle s
  = if PyStr.startswith s needle then Some (PyStr.drop_bytes (String.length needle) s)
    else match s with
         | EmptyString => None
         | String _ s' => PyStr.after_first needle s'
         end.
Proof. destruct s; reflexivity. Qed.

Lemma after_first_occurs (needle s rest : string) :
  PyStr.after_first needle s = Some rest -> exists before, s = before +:+ needle +:+ rest.
Proof.
  induction s as [|a s IH]; rewrite after_first_unfold.
  - destruct (PyStr.startswith "" needle) eqn:E; [|easy].
    intros [= <-]. exists "". now apply startswith_drop.
  - destruct (PyStr.startswith (String a s) needle) eqn:E.
    + intros [= <-]. exists "". now apply startswith_drop.
    + intros H. destruct (IH H) as [x ->]. exists (String a x). reflexivity.
Qed.

Lemma lower_app (a b : string) : PyStr.lower (a +:+ b) = PyStr.lower a +:+ PyStr.lower b.
Proof. induction a as [|c a IH]; simpl; [reflexivity|]. now rewrite IH. Qed.

Lemma split_nonempty (c : ascii) (s : string) : PyStr.split c s <> [].
Proof.
  induction s as [|a s IH]; cbn [PyStr.split]; [discriminate|].
  destruct (Ascii.eqb a c); [discriminate|].
  destruct (PyStr.split c s); discriminate.
Qed.

(** ** The conflict resolver *)

Example sample_conflict_text :
  sample_conflict
  = "<<<<<<< HEAD" +:+ PyStr.nl +:+ "A" +:+ PyStr.nl +:+ "=======" +:+ PyStr.nl
    +:+ "B" +:+ PyStr.nl +:+ ">>>>>>> x" +:+ PyStr.nl.
Proof. reflexivity. Qed.

Example sample_read_as_it_is : PyStr.universal_newlines sample_conflict = sample_conflict.
Proof. reflexivity. Qed.

Example sample_has_marker : PyStr.str_in start_marker sample_conflict = true.
Proof. reflexivity. Qed.

Example keep_local_sample :
  PyStr.join PyStr.nl (keep_local_lines sample_conflict) = "A" +:+ PyStr.nl.
Proof. vm_compute. reflexivity. Qed.

Example keep_remote_sample :
  PyStr.join PyStr.nl (keep_remote_lines sample_conflict) = "B" +:+ PyStr.nl.
Proof. vm_compute. reflexivity. Qed.

Example keep_both_sample :
  keep_both_lines sample_conflict
  = ["# ============ 合并冲突 ============"; "# 本地版本:"; "A";
     "# 远程版本:"; "B"; "# ================================"; ""].
Proof. vm_compute. reflexivity. Qed.

(** C2.  On the five-line conflict block of the example, [keep_local] writes
    exactly [A] and a line feed, [keep_remote] exactly [B] and a line feed,
    and [keep_both] writes the lines [A] and [B] as they are, with the
    generated comment line of the remote side between them. *)
Theorem sample_conflict_resolved (file_path : string) (w : World) :
  files w !! file_path = Some sample_conflict ->
  writable w file_path = true ->
  _try_resolve_conflict file_path "keep_local" w
  = (Ret true, with_files (<[file_path := "A" +:+ PyStr.nl]> (files w)) w)
  /\ _try_resolve_conflict file_path "keep_remote" w
     = (Ret true, with_files (<[file_path := "B" +:+ PyStr.nl]> (files w)) w)
  /\ _try_resolve_conflict file_path "keep_both" w
     = (Ret true,
        with_files
          (<[file_path :=
               PyStr.join PyStr.nl
                 ["# ============ 合并冲突 ============"; "# 本地版本:"; "A";
                  "# 远程版本:"; "B"; "# ================================"; ""]]>
             (files w)) w).
Proof.
  intros Hfile Hw.
  unfold _try_resolve_conflict, try_except, bind, read_file.
  rewrite Hfile, sample_read_as_it_is, sample_has_marker.
  cbn [negb String.eqb Ascii.eqb Bool.eqb].
  unfold _resolve_keep_local, _resolve_keep_remote, _resolve_keep_both, bind, write_file.
  rewrite Hw, keep_local_sample, keep_remote_sample, keep_both_sample.
  repeat split.
Qed.

Lemma sample_conflict_resolved_witness :
  files sample_world !! "/repo/a.py" = Some sample_conflict
  /\ writable sample_world "/repo/a.py" = true
  /\ _try_resolve_conflict "/repo/a.py" "keep_local" sample_world
     = (Ret true,
        with_files (<["/repo/a.py" := "A" +:+ PyStr.nl]> (files sample_world)) sample_world).
Proof.
  split; [reflexivity|]. split; [reflexivity|].
  apply (sample_conflict_resolved "/repo/a.py" sample_world); reflexivity.
Defined.




(** ** The sync executor *)

Lemma missing_path_result (self : GitService) (repo_path : string)
      (branch : option string) (w : World) :
  exists_on_disk w repo_path = false ->
  pull_repository self repo_path branch w
  = (Ret (PullResult3 false ("仓库路径不存在: " +:+ repo_path) []), w).
Proof.
  intros H. unfold pull_repository, bind, os_path_exists. now rewrite H.
Qed.

(** C5.  For a path that is not on disk [pull_repository] returns at once a
    result with [success = false] and no conflicts; the world is the one
    before the call: no external command was run, no file written, the
    store not touched. *)
Theorem missing_path_fails_at_once (self : GitService) (repo_path : string)
        (branch : option string) (w : World) :
  exists_on_disk w repo_path = false ->
  exists r, pull_repository self repo_path branch w = (Ret r, w)
            /\ success r = false /\ conflicts r = []
            /\ message r = "仓库路径不存在: " +:+ repo_path.
Proof.
  intros H. eexists. split; [exact (missing_path_result self repo_path branch w H)|].
  repeat split.
Qed.

Lemma missing_path_fails_at_once_witness :
  exists_on_disk sample_world "/gone" = false
  /\ exists r, pull_repository service "/gone" (Some "main") sample_world
               = (Ret r, sample_world)
               /\ success r = false /\ conflicts r = []
               /\ message r = "仓库路径不存在: " +:+ "/gone".
Proof.
  split; [reflexivity|].
  apply (missing_path_fails_at_once service "/gone" (Some "main") sample_world).
  reflexivity.
Defined.

(** ** The gate check *)

Lemma monitor_line_occurs (line : string) :
  monitor_line line = true
  <-> occurs "repo-manager" line /\ occurs "monitor" line /\ ~ occurs "grep" line.
Proof.
  unfold monitor_line. rewrite !andb_true_iff, negb_true_iff, !str_in_occurs.
  split.
  - intros [[Hr Hm] Hg]. repeat split; auto.
    intros Hin. apply str_in_occurs in Hin. congruence.
  - intros (Hr & Hm & Hg). repeat split; auto.
    destruct (PyStr.str_in "grep" line) eqn:E; [|reflexivity].
    exfalso. apply Hg. now apply str_in_occurs.
Qed.

(** C9.  The gate check never raises and fails open: it answers idle when
    the dependency is switched off, when the process list cannot be had (the
    query raises or exits with a code other than 0), and it answers busy only
    when the dependency is on and the query exits with 0 and prints a line
    that shows the monitor of the other tool running -- [repo-manager] and
    [monitor] occur in the line, [grep] does not -- and then it does answer
    busy. *)
Theorem gate_check_fails_open (self : SchedulerService) (w : World) :
  let query := run_oracle w (length (invocations w)) (mkInvocation ["ps"; "aux"] None 10) in
  let shows_monitor (p : CompletedProcess) :=
    exists line, In line (PyStr.split PyStr.LF (stdout p))
                 /\ occurs "repo-manager" line
                 /\ occurs "monitor" line
                 /\ ~ occurs "grep" line in
  (exists idle w', _is_repo_manager_idle self w = (Ret idle, w'))
  /\ (repo_manager_dependency (config self) = false ->
      _is_repo_manager_idle self w = (Ret true, w))
  /\ (forall e, query = RunRaises e -> fst (_is_repo_manager_idle self w) = Ret true)
  /\ (forall p, query = Completed p -> returncode p <> 0 ->
                fst (_is_repo_manager_idle self w) = Ret true)
  /\ (fst (_is_repo_manager_idle self w) = Ret false ->
      repo_manager_dependency (config self) = true
      /\ exists p, query = Completed p /\ returncode p = 0 /\ shows_monitor p)
  /\ (forall p, repo_manager_dependency (config self) = true ->
                query = Completed p -> returncode p = 0 -> shows_monitor p ->
                fst (_is_repo_manager_idle self w) = Ret false).
Proof.
  intros query shows_monitor. subst query shows_monitor.
  unfold _is_repo_manager_idle, try_except, bind, subprocess_run.
  destruct (repo_manager_dependency (config self)) eqn:Hdep; cbn [negb].
  2:{ unfold ret. repeat split; eauto; try discriminate. }
  destruct (run_oracle w (length (invocations w)) (mkInvocation ["ps"; "aux"] None 10))
    as [p|e] eqn:Hq.
  - destruct (returncode p =? 0) eqn:Hrc; cbn [negb].
    + destruct (existsb monitor_line (PyStr.split PyStr.LF (stdout p))) eqn:Hex;
        unfold ret; cbn [fst].
      * repeat split; eauto; try discriminate.
        -- intros q [= <-] Hne. apply Z.eqb_eq in Hrc. contradiction.
        -- exists p. repeat split; [now apply Z.eqb_eq|].
           apply existsb_exists in Hex as (line & Hin & Hline).
           exists line. split; [exact Hin|]. now apply monitor_line_occurs.
      * repeat split; eauto; try discriminate.
        intros q _ [= <-] _ (line & Hin & Hline).
        assert (Hyes : existsb monitor_line (PyStr.split PyStr.LF (stdout p)) = true).
        { apply existsb_exists. exists line. split; [exact Hin|].
          now apply monitor_line_occurs. }
        congruence.
    + unfold ret; cbn [fst]. repeat split; eauto; try discriminate.
      intros q _ [= <-] Hzero. apply Z.eqb_neq in Hrc. contradiction.
  - unfold ret; cbn [fst]. repeat split; eauto; try discriminate.
Qed.

Lemma gate_check_fails_open_witness :
  fst (_is_repo_manager_idle scheduler busy_world) = Ret false
  /\ exists p, run_oracle busy_world 0 (mkInvocation ["ps"; "aux"] None 10) = Completed p
               /\ returncode p = 0
               /\ exists line, In line (PyStr.split PyStr.LF (stdout p))
                               /\ occurs "repo-manager" line
                               /\ occurs "monitor" line
                               /\ ~ occurs "grep" line.
Proof.
  split; [reflexivity|].
  apply (gate_check_fails_open scheduler busy_world). reflexivity.
Defined.

(** ** [keep_local] line by line *)

Lemma is_marker_false (line : string) :
  is_marker line = false ->
  PyStr.startswith line start_marker = false
  /\ PyStr.startswith line separator_marker = false
  /\ PyStr.startswith line end_marker = false.
Proof.
  unfold is_marker. intros H.
  apply orb_false_elim in H as [H He]. apply orb_false_elim in H as [Hs Hm]. auto.
Qed.

Lemma separator_is_not_start (line : string) :
  PyStr.startswith line separator_marker = true ->
  PyStr.startswith line start_marker = false.
Proof. intros H. apply startswith_inv in H as [r ->]. reflexivity. Qed.

Lemma end_is_not_start (line : string) :
  PyStr.startswith line end_marker = true ->
  PyStr.startswith line start_marker = false
  /\ PyStr.startswith line separator_marker = false.
Proof. intros H. apply startswith_inv in H as [r ->]. split; reflexivity. Qed.

(** One step keeps what was resolved and adds at most the line it reads,
    and only a line that starts with none of the three markers. *)
Lemma keep_local_step_adds (st : ScanState) (line : string) :
  resolved_lines (keep_local_step st line) = resolved_lines st
  \/ (is_marker line = false
      /\ resolved_lines (keep_local_step st line) = resolved_lines st ++ [line]).
Proof.
  unfold keep_local_step, is_marker.
  destruct (PyStr.startswith line start_marker); [now left|].
  destruct (PyStr.startswith line separator_marker); [now left|].
  destruct (PyStr.startswith line end_marker); [now left|].
  destruct (in_conflict st), (in_remote_section st); cbn; auto.
Qed.

Lemma keep_local_fold_adds (lines : list string) (st : ScanState) :
  exists out,
    resolved_lines (fold_left keep_local_step lines st) = resolved_lines st ++ out
    /\ out `sublist_of` lines
    /\ Forall (fun l => is_marker l = false) out.
Proof.
  revert st. induction lines as [|line rest IH]; intros st; cbn [fold_left].
  - exists []. rewrite app_nil_r. repeat split; constructor.
  - destruct (IH (keep_local_step st line)) as (out & Hres & Hsub & Hall).
    destruct (keep_local_step_adds st line) as [Hsame | [Hline Hadd]].
    + exists out. rewrite Hres, Hsame. repeat split; [|exact Hall].
      now apply sublist_cons.
    + exists (line :: out). rewrite Hres, Hadd, <- app_assoc.
      repeat split; [now apply sublist_skip | now constructor].
Qed.

(** Inside a region, before the separator, plain lines are kept. *)
Lemma keep_local_local_run (ls : list string) (st : ScanState) :
  Forall (fun l => is_marker l = false) ls ->
  in_conflict st = true -> in_remote_section st = false ->
  fold_left keep_local_step ls st
  = mkScanState (resolved_lines st ++ ls) true false (local_lines st) (remote_lines st).
Proof.
  intros Hall. revert st. induction Hall as [|l ls Hl _ IH]; intros st Hc Hr; cbn [fold_left].
  - rewrite app_nil_r. destruct st; cbn in *; now subst.
  - apply is_marker_false in Hl as (H1 & H2 & H3).
    unfold keep_local_step at 2. rewrite H1, H2, H3, Hc, Hr. cbn [negb andb].
    rewrite IH by reflexivity. cbn. now rewrite <- app_assoc.
Qed.

(** After the separator, plain lines are dropped. *)
Lemma keep_local_remote_run (ls : list string) (st : ScanState) :
  Forall (fun l => is_marker l = false) ls ->
  in_conflict st = true -> in_remote_section st = true ->
  fold_left keep_local_step ls st = st.
Proof.
  intros Hall. revert st. induction Hall as [|l ls Hl _ IH]; intros st Hc Hr; cbn [fold_left].
  - reflexivity.
  - apply is_marker_false in Hl as (H1 & H2 & H3).
    unfold keep_local_step at 2. rewrite H1, H2, H3, Hc, Hr. cbn [negb andb].
    now apply IH.
Qed.

Lemma keep_local_segment (seg : segment) (st : ScanState) :
  well_delimited seg ->
  in_conflict st = false -> in_remote_section st = false ->
  fold_left keep_local_step (segment_lines seg) st
  = mkScanState (resolved_lines st ++ local_side seg) false false
                (local_lines st) (remote_lines st).
Proof.
  intros Hwf Hc Hr. destruct seg as [line | s lo m re e]; cbn [segment_lines local_side].
  - cbn in Hwf. apply is_marker_false in Hwf as (H1 & H2 & H3).
    cbn [fold_left]. unfold keep_local_step. rewrite H1, H2, H3, Hc, Hr. reflexivity.
  - destruct Hwf as (Hs & Hlo & Hm & Hre & He).
    cbn [fold_left]. unfold keep_local_step at 2. rewrite Hs.
    rewrite fold_left_app, (keep_local_local_run lo) by (reflexivity || assumption).
    cbn [fold_left]. unfold keep_local_step at 2.
    rewrite (separator_is_not_start m Hm), Hm. cbn [resolved_lines in_conflict local_lines remote_lines].
    rewrite fold_left_app, (keep_local_remote_run re) by (reflexivity || assumption).
    cbn [fold_left]. unfold keep_local_step.
    destruct (end_is_not_start e He) as [E1 E2]. rewrite E1, E2, He. reflexivity.
Qed.

Lemma keep_local_document (segs : list segment) (st : ScanState) :
  Forall well_delimited segs ->
  in_conflict st = false -> in_remote_section st = false ->
  resolved_lines (fold_left keep_local_step (document_lines segs) st)
  = resolved_lines st ++ flat_map local_side segs.
Proof.
  intros Hall. revert st. induction Hall as [|seg segs Hseg _ IH]; intros st Hc Hr.
  - cbn. now rewrite app_nil_r.
  - unfold document_lines. cbn [flat_map]. fold (document_lines segs).
    rewrite fold_left_app, (keep_local_segment seg) by assumption.
    rewrite IH by reflexivity. cbn. now rewrite <- app_assoc.
Qed.

(** The procedure read off the claim keeps the same lines of a document
    whose markers stand only where regions begin, turn and end. *)
Lemma claimed_local_run (lo : list string) (tail : list string) :
  Forall (fun l => is_marker l = false) lo ->
  claimed_keep_local InLocal (lo ++ tail) = lo ++ claimed_keep_local InLocal tail.
Proof.
  induction 1 as [|l lo Hl _ IH]; cbn [app claimed_keep_local]; [reflexivity|].
  apply is_marker_false in Hl as (_ & H2 & _). now rewrite H2, IH.
Qed.

Lemma claimed_remote_run (re : list string) (tail : list string) :
  Forall (fun l => is_marker l = false) re ->
  claimed_keep_local InRemote (re ++ tail) = claimed_keep_local InRemote tail.
Proof.
  induction 1 as [|l re Hl _ IH]; cbn [app claimed_keep_local]; [reflexivity|].
  apply is_marker_false in Hl as (_ & _ & H3). now rewrite H3, IH.
Qed.

Lemma claimed_document (segs : list segment) :
  Forall well_delimited segs ->
  claimed_keep_local Outside (document_lines segs) = flat_map local_side segs.
Proof.
  induction 1 as [|seg segs Hseg _ IH]; [reflexivity|].
  unfold document_lines. cbn [flat_map]. fold (document_lines segs).
  destruct seg as [line | s lo m re e]; cbn [segment_lines local_side app].
  - cbn in Hseg. apply is_marker_false in Hseg as (H1 & _ & _).
    cbn [claimed_keep_local]. now rewrite H1, IH.
  - destruct Hseg as (Hs & Hlo & Hm & Hre & He).
    cbn [claimed_keep_local]. rewrite Hs, <- app_assoc, claimed_local_run by assumption.
    cbn [app claimed_keep_local]. rewrite Hm, <- app_assoc, claimed_remote_run by assumption.
    cbn [app claimed_keep_local]. now rewrite He, IH.
Qed.

(** *** The loop and the place of a line *)

Lemma find_last {A} (f : A -> bool) (before : list A) (x : A) :
  List.find f (List.rev (before ++ [x]))
  = if f x then Some x else List.find f (List.rev before).
Proof. rewrite rev_app_distr. reflexivity. Qed.

Lemma start_is_not_separator (line : string) :
  PyStr.startswith line start_marker = true ->
  PyStr.startswith line separator_marker = false
  /\ PyStr.startswith line end_marker = false.
Proof. intros H. apply startswith_inv in H as [r ->]. split; reflexivity. Qed.

Lemma separator_is_not_end (line : string) :
  PyStr.startswith line separator_marker = true ->
  PyStr.startswith line end_marker = false.
Proof. intros H. apply startswith_inv in H as [r ->]. reflexivity. Qed.

Lemma in_region_last (before : list string) (line : string) :
  in_region (before ++ [line])
  = if opens_or_closes line then PyStr.startswith line start_marker else in_region before.
Proof. unfold in_region. rewrite find_last. now destruct (opens_or_closes line). Qed.

Lemma behind_separator_last (before : list string) (line : string) :
  behind_separator (before ++ [line])
  = if is_marker line then PyStr.startswith line separator_marker
    else behind_separator before.
Proof. unfold behind_separator. rewrite find_last. now destruct (is_marker line). Qed.

(** One step of the loop moves the two flags as the place of the next line
    moves, and adds the line when it is to be kept. *)
Lemma keep_local_step_place (st : ScanState) (before : list string) (line : string) :
  in_conflict st = in_region before ->
  in_remote_section st = behind_separator before ->
  in_conflict (keep_local_step st line) = in_region (before ++ [line])
  /\ in_remote_section (keep_local_step st line) = behind_separator (before ++ [line])
  /\ resolved_lines (keep_local_step st line)
     = resolved_lines st ++ (if kept_by_keep_local before line then [line] else []).
Proof.
  intros Hc Hr.
  rewrite in_region_last, behind_separator_last.
  unfold kept_by_keep_local, in_remote_part. rewrite <- Hc, <- Hr.
  unfold keep_local_step, is_marker, opens_or_closes.
  destruct (PyStr.startswith line start_marker) eqn:E1.
  { destruct (start_is_not_separator line E1) as [E2 E3].
    rewrite ?E2, ?E3. cbn. now rewrite app_nil_r. }
  destruct (PyStr.startswith line separator_marker) eqn:E2.
  { pose proof (separator_is_not_end line E2) as E3.
    rewrite ?E3. cbn. now rewrite app_nil_r. }
  destruct (PyStr.startswith line end_marker) eqn:E3.
  { cbn. now rewrite app_nil_r. }
  cbn [orb negb andb].
  destruct (in_conflict st) eqn:Ec, (in_remote_section st) eqn:Er; cbn;
    rewrite ?Ec, ?Er, ?app_nil_r; auto.
Qed.

(** The loop keeps exactly the lines that are to be kept. *)
Lemma keep_local_fold_place (lines before : list string) (st : ScanState) :
  in_conflict st = in_region before ->
  in_remote_section st = behind_separator before ->
  resolved_lines (fold_left keep_local_step lines st)
  = resolved_lines st ++ lines_kept kept_by_keep_local before lines.
Proof.
  revert before st. induction lines as [|line rest IH]; intros before st Hc Hr;
    cbn [fold_left lines_kept].
  - now rewrite app_nil_r.
  - destruct (keep_local_step_place st before line Hc Hr) as (Hc' & Hr' & Hres).
    rewrite (IH (before ++ [line]) _ Hc' Hr'), Hres. now rewrite <- app_assoc.
Qed.

(** C4, as the code has it.  Whatever the content, the lines [keep_local]
    writes are lines of the input in the order of the input, and none of them
    starts with one of the three markers: nothing is made up, and a line that
    starts with a marker is dropped wherever it stands.  Exactly, for every
    content: a line is written if and only if it starts with none of the
    three markers and does not stand in a remote part, which is where the
    nearest line before it that starts with the start or the end marker
    starts with the start marker, and the nearest line before it that starts
    with any marker starts with the separator.  So a separator outside the
    regions hides nothing but itself.  When the markers stand only at the
    beginning, the turn and the end of regions, the lines written are
    exactly the lines outside the regions and the local lines of each
    region, which is then also what the procedure read off the claim
    yields. *)
Theorem keep_local_selects_lines (content : string) :
  keep_local_lines content `sublist_of` PyStr.split PyStr.LF content
  /\ Forall (fun l => is_marker l = false) (keep_local_lines content)
  /\ keep_local_lines content
     = lines_kept kept_by_keep_local [] (PyStr.split PyStr.LF content)
  /\ forall segs,
      PyStr.split PyStr.LF content = document_lines segs ->
      Forall well_delimited segs ->
      keep_local_lines content = flat_map local_side segs
      /\ keep_local_lines content
         = claimed_keep_local Outside (PyStr.split PyStr.LF content).
Proof.
  split; [|split; [|split]].
  - unfold keep_local_lines.
    destruct (keep_local_fold_adds (PyStr.split PyStr.LF content) initial_state)
      as (out & Hres & Hsub & Hall).
    cbn [resolved_lines initial_state app] in Hres. now rewrite Hres.
  - unfold keep_local_lines.
    destruct (keep_local_fold_adds (PyStr.split PyStr.LF content) initial_state)
      as (out & Hres & Hsub & Hall).
    cbn [resolved_lines initial_state app] in Hres. now rewrite Hres.
  - unfold keep_local_lines.
    now rewrite (keep_local_fold_place _ [] initial_state eq_refl eq_refl).
  - intros segs H Hwd. unfold keep_local_lines. rewrite H. split.
    + now rewrite keep_local_document.
    + rewrite keep_local_document by (reflexivity || assumption).
      now rewrite claimed_document.
Qed.

Lemma keep_local_selects_lines_witness :
  PyStr.split PyStr.LF sample_conflict
  = document_lines [Region "<<<<<<< HEAD" ["A"] "=======" ["B"] ">>>>>>> x"; Plain ""]
  /\ Forall well_delimited [Region "<<<<<<< HEAD" ["A"] "=======" ["B"] ">>>>>>> x"; Plain ""]
  /\ keep_local_lines sample_conflict = ["A"; ""].
Proof.
  assert (Hwf : Forall well_delimited
                  [Region "<<<<<<< HEAD" ["A"] "=======" ["B"] ">>>>>>> x"; Plain ""]).
  { repeat constructor. }
  split; [reflexivity|]. split; [exact Hwf|].
  exact (proj1 (proj2 (proj2 (proj2 (keep_local_selects_lines sample_conflict)))
                     [Region "<<<<<<< HEAD" ["A"] "=======" ["B"] ">>>>>>> x"; Plain ""]
                     eq_refl Hwf)).
Defined.

(** C4 as stated fails: a line outside every region that starts with the
    separator, here the underline of a heading, is dropped by the code and
    kept by the claim. *)
Lemma keep_local_drops_heading_underline :
  claimed_keep_local Outside (PyStr.split PyStr.LF heading_conflict)
  = ["Title"; "======="; "A"; ""]
  /\ keep_local_lines heading_conflict = ["Title"; "A"; ""]
  /\ keep_local_lines heading_conflict
     <> claimed_keep_local Outside (PyStr.split PyStr.LF heading_conflict).
Proof. vm_compute. repeat split. discriminate. Qed.

(** A separator outside the regions is dropped and hides nothing else: the
    text below it is kept, and so is the local side of the region that
    follows. *)
Example stray_separator_hides_itself :
  keep_local_lines
    (PyStr.join PyStr.nl
       ["Title"; "======="; "text"; "<<<<<<< HEAD"; "A"; "======="; "B"; ">>>>>>> x";
        "more"; "======="; "tail"])
  = ["Title"; "text"; "A"; "more"; "tail"].
Proof. vm_compute. reflexivity. Qed.

(** ** Runs of the executor *)

Lemma runs_on_refl (w : World) : runs_on w w.
Proof. unfold runs_on. repeat split. now exists []. Qed.

Lemma runs_on_trans (w1 w2 w3 : World) : runs_on w1 w2 -> runs_on w2 w3 -> runs_on w1 w3.
Proof.
  unfold runs_on.
  intros (E1 & W1 & O1 & N1 & T1 & S1 & F1 & C1 & d1 & I1)
         (E2 & W2 & O2 & N2 & T2 & S2 & F2 & C2 & d2 & I2).
  repeat split; try congruence.
  exists (d2 ++ d1). rewrite I2, I1. now rewrite app_assoc.
Qed.

Lemma runs_on_call (w : World) (inv : Invocation) :
  runs_on w (with_invocations (inv :: invocations w) w).
Proof. unfold runs_on. repeat split. now exists [inv]. Qed.

Lemma runs_on_files (w : World) (f : gmap string string) : runs_on w (with_files f w).
Proof. unfold runs_on. repeat split. now exists []. Qed.

Create HintDb steady.

Lemma steady_ret {A} (a : A) : steady (ret a).
Proof. intros w o w' [= <- <-]. apply runs_on_refl. Qed.

Lemma steady_raise {A} (e : exn) : steady (@raise A e).
Proof. intros w o w' [= <- <-]. apply runs_on_refl. Qed.

Lemma steady_lift {A} (o : outcome A) : steady (lift_outcome o).
Proof. intros w o' w' [= <- <-]. apply runs_on_refl. Qed.

Lemma steady_bind {A B} (m : M A) (k : A -> M B) :
  steady m -> (forall a, steady (k a)) -> steady (bind m k).
Proof.
  intros Hm Hk w o w'. unfold bind.
  destruct (m w) as [[a|e] w1] eqn:E.
  - intros H. eapply runs_on_trans; [eapply Hm, E | eapply Hk, H].
  - intros [= <- <-]. eapply Hm, E.
Qed.

Lemma steady_try {A} (m : M A) (h : exn -> M A) :
  steady m -> (forall e, steady (h e)) -> steady (try_except m h).
Proof.
  intros Hm Hh w o w'. unfold try_except.
  destruct (m w) as [[a|e] w1] eqn:E.
  - intros [= <- <-]. eapply Hm, E.
  - intros H. eapply runs_on_trans; [eapply Hm, E | eapply Hh, H].
Qed.

Lemma steady_exists (path : string) : steady (os_path_exists path).
Proof. intros w o w' [= <- <-]. apply runs_on_refl. Qed.

Lemma steady_run (a : list string) (dir : option string) (t : Z) :
  steady (subprocess_run a dir t).
Proof.
  intros w o w'. unfold subprocess_run.
  destruct (run_oracle _ _ _); intros [= <- <-]; apply runs_on_call.
Qed.

Lemma steady_read (path : string) : steady (read_file path).
Proof.
  intros w o w'. unfold read_file.
  destruct (files w !! path); intros [= <- <-]; apply runs_on_refl.
Qed.

Lemma steady_write (path content : string) : steady (write_file path content).
Proof.
  intros w o w'. unfold write_file.
  destruct (writable w path); [| destruct (write_fault w path)]; intros [= <- <-];
    [apply runs_on_files | apply runs_on_files | apply runs_on_refl].
Qed.

#[local] Hint Resolve steady_ret steady_raise steady_lift steady_exists steady_run
  steady_read steady_write : steady.

(** Breaks a computation into its binds, handlers and branches. *)
Ltac steady_step :=
  match goal with
  | |- steady (bind _ _) => apply steady_bind
  | |- steady (try_except _ _) => apply steady_try
  | |- steady (if ?b then _ else _) => destruct b
  | |- steady (match ?x with _ => _ end) => destruct x
  | |- forall _, _ => intro
  | |- steady _ => solve [auto with steady]
  end.

Lemma steady_sync_status (self : GitService) (repo_path : string) :
  steady (_get_sync_status self repo_path).
Proof. unfold _get_sync_status. repeat steady_step. Qed.

Lemma steady_repo_status (self : GitService) (repo_path : string) :
  steady (get_repo_status self repo_path).
Proof.
  pose proof (steady_sync_status self repo_path).
  unfold get_repo_status. repeat steady_step.
Qed.

Lemma steady_try_resolve (file_path strategy : string) :
  steady (_try_resolve_conflict file_path strategy).
Proof.
  unfold _try_resolve_conflict, _smart_merge_conflict, _resolve_keep_both,
    _resolve_keep_local, _resolve_keep_remote.
  repeat steady_step.
Qed.

Lemma steady_resolve_each (self : GitService) (repo_path : string)
      (conflict_files unresolved : list string) :
  steady (resolve_each self repo_path conflict_files unresolved).
Proof.
  revert unresolved.
  induction conflict_files as [|f rest IH]; intros unresolved; cbn [resolve_each].
  - auto with steady.
  - pose proof (steady_try_resolve (os_path_join repo_path f) (conflict_strategy self)).
    repeat steady_step; apply IH.
Qed.

Lemma steady_resolve_conflicts (self : GitService) (repo_path : string) :
  steady (_resolve_conflicts self repo_path).
Proof.
  unfold _resolve_conflicts.
  repeat steady_step; apply steady_resolve_each.
Qed.

#[local] Hint Resolve steady_sync_status steady_repo_status steady_try_resolve
  steady_resolve_each steady_resolve_conflicts : steady.

Lemma steady_pull_repository (self : GitService) (repo_path : string)
      (branch : option string) :
  steady (pull_repository self repo_path branch).
Proof. unfold pull_repository. repeat steady_step. Qed.

(** *** The calls a computation makes *)

Section CallsOnly.

Variable P : Invocation -> Prop.

Lemma calls_ret {A} (a : A) : calls_only P (ret a).
Proof. intros w o w' [= <- <-]. now exists []. Qed.

Lemma calls_raise {A} (e : exn) : calls_only P (@raise A e).
Proof. intros w o w' [= <- <-]. now exists []. Qed.

Lemma calls_lift {A} (o : outcome A) : calls_only P (lift_outcome o).
Proof. intros w o' w' [= <- <-]. now exists []. Qed.

Lemma calls_read (path : string) : calls_only P (read_file path).
Proof.
  intros w o w'. unfold read_file.
  destruct (files w !! path); intros [= <- <-]; now exists [].
Qed.

Lemma calls_write (path content : string) : calls_only P (write_file path content).
Proof.
  intros w o w'. unfold write_file.
  destruct (writable w path); [| destruct (write_fault w path)];
    intros [= <- <-]; now exists [].
Qed.

Lemma calls_run (a : list string) (dir : option string) (t : Z) :
  P (mkInvocation a dir t) -> calls_only P (subprocess_run a dir t).
Proof.
  intros HP w o w'. unfold subprocess_run.
  destruct (run_oracle _ _ _); intros [= <- <-];
    exists [mkInvocation a dir t]; split; auto.
Qed.

Lemma calls_bind {A B} (m : M A) (k : A -> M B) :
  calls_only P m -> (forall a, calls_only P (k a)) -> calls_only P (bind m k).
Proof.
  intros Hm Hk w o w'. unfold bind.
  destruct (m w) as [[a|e] w1] eqn:E.
  - intros H. destruct (Hm _ _ _ E) as (d1 & I1 & F1).
    destruct (Hk _ _ _ _ H) as (d2 & I2 & F2).
    exists (d2 ++ d1). rewrite I2, I1, app_assoc. split; [reflexivity|].
    apply Forall_app; auto.
  - intros [= <- <-]. eapply Hm, E.
Qed.

Lemma calls_try {A} (m : M A) (h : exn -> M A) :
  calls_only P m -> (forall e, calls_only P (h e)) -> calls_only P (try_except m h).
Proof.
  intros Hm Hh w o w'. unfold try_except.
  destruct (m w) as [[a|e] w1] eqn:E.
  - intros [= <- <-]. eapply Hm, E.
  - intros H. destruct (Hm _ _ _ E) as (d1 & I1 & F1).
    destruct (Hh _ _ _ _ H) as (d2 & I2 & F2).
    exists (d2 ++ d1). rewrite I2, I1, app_assoc. split; [reflexivity|].
    apply Forall_app; auto.
Qed.

End CallsOnly.

Lemma calls_weaken {A} (P Q : Invocation -> Prop) (m : M A) :
  (forall inv, P inv -> Q inv) -> calls_only P m -> calls_only Q m.
Proof.
  intros HPQ Hm w o w' H. destruct (Hm _ _ _ H) as (during & I & F).
  exists during. split; [exact I|]. eapply Forall_impl; eauto.
Qed.

Ltac calls_step :=
  match goal with
  | |- calls_only _ (bind _ _) => apply calls_bind
  | |- calls_only _ (try_except _ _) => apply calls_try
  | |- calls_only _ (if ?b then _ else _) => destruct b
  | |- calls_only _ (ret _) => apply calls_ret
  | |- calls_only _ (raise _) => apply calls_raise
  | |- calls_only _ (lift_outcome _) => apply calls_lift
  | |- calls_only _ (match ?x with _ => _ end) => destruct x
  | |- calls_only _ (read_file _) => apply calls_read
  | |- calls_only _ (write_file _ _) => apply calls_write
  | |- calls_only _ (subprocess_run _ _ _) => apply calls_run; try reflexivity
  | |- forall _, _ => intro
  end.

(** Resolving a file runs no external command. *)
Lemma try_resolve_quiet (P : Invocation -> Prop) (file_path strategy : string) :
  calls_only P (_try_resolve_conflict file_path strategy).
Proof.
  unfold _try_resolve_conflict, _smart_merge_conflict, _resolve_keep_both,
    _resolve_keep_local, _resolve_keep_remote.
  repeat calls_step.
Qed.

(** The loop over the conflicted files runs [git add] and nothing else. *)
Lemma resolve_each_adds (self : GitService) (repo_path : string)
      (conflict_files unresolved : list string) :
  calls_only (fun inv => git_verb inv = "add")
             (resolve_each self repo_path conflict_files unresolved).
Proof.
  revert unresolved.
  induction conflict_files as [|f rest IH]; intros unresolved; cbn [resolve_each].
  - apply calls_ret.
  - destruct (String.eqb f ""); [apply IH|].
    apply calls_bind; [apply try_resolve_quiet|].
    intros [|]; [|apply IH].
    apply calls_bind; [now apply calls_run | intros _; apply IH].
Qed.

(** A handler that returns makes the whole never raise. *)
Lemma try_returns {A} (m : M A) (h : exn -> A) (w : World) :
  exists a w', try_except m (fun e => ret (h e)) w = (Ret a, w').
Proof.
  unfold try_except. destruct (m w) as [[a|e] w1]; unfold ret; eauto.
Qed.

Lemma sync_status_returns (self : GitService) (repo_path : string) (w : World) :
  exists counts w', _get_sync_status self repo_path w = (Ret counts, w').
Proof. unfold _get_sync_status. apply (try_returns _ (fun _ => (0, 0))). Qed.

(** [_resolve_conflicts] always returns a list, and the last call it made is
    the listing of the conflicted files or a [git add]. *)
Lemma resolve_conflicts_returns (self : GitService) (repo_path : string) (w : World) :
  exists unresolved w' inv rest,
    _resolve_conflicts self repo_path w = (Ret unresolved, w')
    /\ invocations w' = inv :: rest
    /\ (git_verb inv = "diff" \/ git_verb inv = "add").
Proof.
  unfold _resolve_conflicts, bind, try_except at 1, subprocess_run.
  destruct (run_oracle w _ _) as [p|e]; cbn [ret].
  2:{ unfold ret. do 4 eexists. split; [reflexivity|]. split; [reflexivity|]. now left. }
  set (w1 := with_invocations _ w).
  set (fs := if String.eqb _ "" then [] else _).
  unfold try_except.
  assert (Hlast : forall w2 adds,
             invocations w2 = adds ++ invocations w1 ->
             Forall (fun inv => git_verb inv = "add") adds ->
             exists inv rest, invocations w2 = inv :: rest
                              /\ (git_verb inv = "diff" \/ git_verb inv = "add")).
  { intros w2 [|a adds] I F; cbn [app] in I; rewrite I.
    - do 2 eexists. split; [reflexivity|]. now left.
    - do 2 eexists. split; [reflexivity|]. right. now inversion F. }
  destruct (resolve_each self repo_path fs [] w1) as [[u|e] w2] eqn:E;
    destruct (resolve_each_adds _ _ _ _ _ _ _ E) as (adds & I & F);
    destruct (Hlast w2 adds I F) as (inv & rest & Hinv & Hverb); unfold ret.
  - exists u, w2, inv, rest. auto.
  - exists fs, w2, inv, rest. auto.
Qed.

(** *** Calls that completed or were swallowed *)

Lemma sync_status_calls (self : GitService) (repo_path : string) :
  calls_only (fun inv => swallowed inv = true) (_get_sync_status self repo_path).
Proof. unfold _get_sync_status. repeat calls_step. Qed.

Lemma resolve_conflicts_calls (self : GitService) (repo_path : string) :
  calls_only (fun inv => git_verb inv = "diff" \/ git_verb inv = "add")
             (_resolve_conflicts self repo_path).
Proof.
  unfold _resolve_conflicts.
  repeat calls_step; try (now left);
    (eapply calls_weaken; [|apply resolve_each_adds]);
    intros inv Hverb; now right.
Qed.

Lemma survived_swallowed (w : World) (base log during : list Invocation) :
  survived w base log ->
  Forall (fun inv => swallowed inv = true) during ->
  survived w base (during ++ log).
Proof.
  intros Hs. induction 1 as [|inv during Hinv _ IH]; cbn [app]; [exact Hs|].
  apply survived_call; auto.
Qed.

Lemma survived_trans (w : World) (a b c : list Invocation) :
  survived w a b -> survived w b c -> survived w a c.
Proof. intros Hab. induction 1; [exact Hab | now apply survived_call]. Qed.

(** When the loop over the conflicted files returns, every [git add] it ran
    completed. *)
Lemma resolve_each_survived (self : GitService) (repo_path : string)
      (conflict_files unresolved found : list string) (base : list Invocation)
      (w0 w w' : World) :
  runs_on w0 w ->
  survived w0 base (invocations w) ->
  resolve_each self repo_path conflict_files unresolved w = (Ret found, w') ->
  survived w0 base (invocations w').
Proof.
  revert unresolved w. induction conflict_files as [|f rest IH]; intros unresolved w Hrun Hs;
    cbn [resolve_each].
  - now intros [= _ <-].
  - destruct (String.eqb f ""); [now apply IH|].
    unfold bind at 1.
    destruct (_try_resolve_conflict _ _ w) as [[b|e] w1] eqn:Htry; [|discriminate].
    pose proof (steady_try_resolve _ _ _ _ _ Htry) as R1.
    destruct (try_resolve_quiet (fun _ => False) _ _ _ _ _ Htry) as (d & Hd & Fd).
    assert (Hinv : invocations w1 = invocations w).
    { destruct d as [|x d]; [exact Hd | now inversion Fd]. }
    assert (R01 : runs_on w0 w1) by (eapply runs_on_trans; eauto).
    destruct b.
    + unfold bind at 1, subprocess_run at 1.
      destruct (run_oracle w1 _ _) as [p|e] eqn:Hadd; [|discriminate].
      apply IH.
      * eapply runs_on_trans; [exact R01 | apply runs_on_call].
      * cbn [with_invocations invocations]. apply survived_call; [now rewrite Hinv|].
        right. exists p. destruct R01 as (_ & _ & <- & _). exact Hadd.
    + apply IH; [exact R01 | now rewrite Hinv].
Qed.

(** When [_resolve_conflicts] reports nothing unresolved, the listing was
    swallowed or completed and every [git add] completed. *)
Lemma resolve_conflicts_survived (self : GitService) (repo_path : string)
      (base : list Invocation) (w0 w w' : World) :
  runs_on w0 w ->
  survived w0 base (invocations w) ->
  _resolve_conflicts self repo_path w = (Ret [], w') ->
  survived w0 base (invocations w').
Proof.
  intros Hrun Hs.
  unfold _resolve_conflicts, bind at 1, try_except at 1, bind at 1, subprocess_run at 1.
  assert (Hlisted : forall w1 : World,
             invocations w1
             = mkInvocation ["git"; "diff"; "--name-only"; "--diff-filter=U"]
                            (Some repo_path) (git_timeout self) :: invocations w ->
             survived w0 base (invocations w1)).
  { intros w1 ->. apply survived_call; [exact Hs | now left]. }
  destruct (run_oracle w _ _) as [p|e]; unfold ret at 1.
  2:{ unfold ret. intros [= <-]. now apply Hlisted. }
  set (w1 := with_invocations _ w).
  assert (R1 : runs_on w0 w1) by (eapply runs_on_trans; [exact Hrun | apply runs_on_call]).
  destruct (String.eqb (PyStr.strip (stdout p)) "").
  { cbn [resolve_each]. unfold try_except, ret. intros [= <-]. now apply Hlisted. }
  unfold try_except.
  destruct (resolve_each _ _ _ _ w1) as [[found|e] w2] eqn:Hloop.
  - intros [= -> <-]. eapply resolve_each_survived; [exact R1 | | exact Hloop].
    now apply Hlisted.
  - unfold ret. intros [= Hsplit _]. exfalso.
    now apply (split_nonempty PyStr.LF (PyStr.strip (stdout p))).
Qed.

(** When [get_repo_status] returns, its calls completed or were swallowed. *)
Lemma repo_status_survived (self : GitService) (repo_path : string) (w w1 : World)
      (status : GitStatus) :
  get_repo_status self repo_path w = (Ret status, w1) ->
  survived w (invocations w) (invocations w1).
Proof.
  unfold get_repo_status, bind at 1, os_path_exists.
  destruct (exists_on_disk w repo_path); cbn [negb]; [|discriminate].
  unfold try_except, bind at 1, subprocess_run at 1.
  destruct (run_oracle w _ _) as [p|e1] eqn:H0.
  2:{ destruct (is_TimeoutExpired e1); discriminate. }
  destruct (returncode p =? 0); cbn [negb]; [|discriminate].
  unfold bind at 1, subprocess_run at 1.
  cbn [with_invocations run_oracle invocations].
  destruct (run_oracle w (length (_ :: invocations w)) _) as [q|e2] eqn:H1.
  2:{ destruct (is_TimeoutExpired e2); discriminate. }
  unfold bind at 1.
  match goal with
  | |- context [_get_sync_status self repo_path ?w0] =>
      destruct (_get_sync_status self repo_path w0) as [[c|e] w2] eqn:Hsync
  end.
  2:{ destruct (is_TimeoutExpired e); discriminate. }
  unfold ret. intros [= _ <-].
  destruct (sync_status_calls _ _ _ _ _ Hsync) as (during & -> & Hsw).
  apply survived_swallowed; [|exact Hsw].
  cbn [with_invocations invocations].
  apply survived_call; [apply survived_call; [apply survived_base|]|]; right; eauto.
Qed.

(** *** How a run of the executor ends *)

Lemma repo_status_raises (self : GitService) (repo_path : string) (w w1 : World) (e : exn) :
  exists_on_disk w repo_path = true ->
  get_repo_status self repo_path w = (Raise e, w1) ->
  is_TimeoutExpired e = false
  /\ exists inv rest, invocations w1 = inv :: rest
                      /\ (git_verb inv = "rev-parse" \/ git_verb inv = "status").
Proof.
  intros Hex. unfold get_repo_status, bind at 1, os_path_exists. rewrite Hex. cbn [negb].
  unfold try_except, bind at 1, subprocess_run at 1.
  destruct (run_oracle w _ _) as [p|e1].
  - destruct (returncode p =? 0); cbn [negb].
    + unfold bind at 1, subprocess_run at 1.
      destruct (run_oracle _ _ _) as [q|e2]; cbn [with_invocations run_oracle invocations].
      * unfold bind at 1.
        match goal with
        | |- context [_get_sync_status self repo_path ?w0] =>
            destruct (sync_status_returns self repo_path w0) as (c & w2 & ->)
        end.
        unfold ret. discriminate.
      * destruct (is_TimeoutExpired e2) eqn:T; unfold raise; intros [= <- <-];
          (split; [now rewrite ?T|]); do 2 eexists; (split; [reflexivity|]); now right.
    + unfold raise. cbn [is_TimeoutExpired]. intros [= <- <-].
      split; [reflexivity|]. do 2 eexists. split; [reflexivity|]. now left.
  - destruct (is_TimeoutExpired e1) eqn:T; unfold raise; intros [= <- <-];
      (split; [now rewrite ?T|]); do 2 eexists; (split; [reflexivity|]); now left.
Qed.

Lemma pull_verb (branch : option string) : nth 1 (pull_cmd branch) "" = "pull".
Proof. destruct branch as [b|]; [|reflexivity]. unfold pull_cmd. now destruct (String.eqb b ""). Qed.

(** From the pull on, with the stash made or not. *)
Lemma pull_onwards (self : GitService) (repo_path : string) (branch : option string)
      (stashed : bool) (w wk : World) :
  runs_on w wk ->
  survived w (invocations w) (invocations wk) ->
  forall o w',
    (let* pull_result :=
       subprocess_run (pull_cmd branch) (Some repo_path) (git_timeout self) in
     if returncode pull_result =? 0 then
       let message := PyStr.strip (stdout pull_result) in
       (if (stashed : bool) then
          subprocess_run ["git"; "stash"; "pop"] (Some repo_path) (git_timeout self) >>
          ret tt
        else ret tt) >>
       ret (PullResult3 true message [])
     else if PyStr.str_in "conflict" (PyStr.lower (stderr pull_result)) then
       ret (PullResult3 false ("Pull冲突: " +:+ stderr pull_result)
                        (_parse_conflicts (stderr pull_result)))
     else ret (PullResult3 false ("Pull失败: " +:+ stderr pull_result) [])) wk = (o, w') ->
    stage_run self repo_path branch w o w'.
Proof.
  intros (_ & _ & Hor & _ & _ & _ & _ & _ & during & Hinv) Hsurv o w'.
  unfold bind at 1, subprocess_run at 1.
  fold (pull_call self repo_path branch).
  rewrite Hor. rewrite Hinv in *.
  destruct (run_oracle w _ _) as [p|e] eqn:Hrun.
  2:{ intros [= <- <-]. eapply stage_pull_raised; eauto. }
  assert (Hpulled : survived w (invocations w)
                      (pull_call self repo_path branch :: during ++ invocations w)).
  { apply survived_call; [exact Hsurv|]. right. eauto. }
  destruct (returncode p =? 0) eqn:Hrc.
  - apply Z.eqb_eq in Hrc. destruct stashed.
    + unfold bind, subprocess_run, ret.
      cbn [with_invocations run_oracle invocations]. rewrite Hor.
      destruct (run_oracle w (length (_ :: _)) _) as [q|e] eqn:Hpop;
        cbv beta iota; intros [= <- <-].
      * eapply stage_pull_succeeded with (post := [pop_call self repo_path]); eauto.
        cbn [with_invocations invocations].
        apply survived_call; [exact Hpulled|]. right. eauto.
      * eapply stage_stash_raised; eauto.
    + unfold bind, ret. intros [= <- <-].
      eapply stage_pull_succeeded with (post := []); eauto.
  - apply Z.eqb_neq in Hrc.
    match goal with
    | |- ?run = _ -> _ =>
        assert (Hres : run = (o, w') ->
                       o = Ret (pull_failure p)
                       /\ w' = with_invocations
                                (pull_call self repo_path branch :: during ++ invocations w) wk)
    end.
    { unfold pull_failure.
      destruct (PyStr.str_in "conflict" _); unfold ret; now intros [= <- <-]. }
    intros H. destruct (Hres H) as [-> ->].
    eapply stage_pull_failed; eauto.
Qed.

Lemma stage_shape (self : GitService) (repo_path : string) (branch : option string)
      (status : GitStatus) (w wk : World) :
  runs_on w wk ->
  survived w (invocations w) (invocations wk) ->
  forall o w',
    stash_and_pull self repo_path branch status wk = (o, w') ->
    stage_run self repo_path branch w o w'.
Proof.
  intros Hrun Hsurv o w'. unfold stash_and_pull, bind at 1.
  destruct (negb (is_clean status)).
  - unfold bind at 1.
    destruct (subprocess_run _ _ _ wk) as [[q|e] wk1] eqn:Hstash.
    + unfold ret at 1.
      apply (pull_onwards self repo_path branch (returncode q =? 0) w wk1).
      * eapply runs_on_trans; [exact Hrun | eapply steady_run, Hstash].
      * destruct Hrun as (_ & _ & Hor & _). unfold subprocess_run in Hstash.
        rewrite Hor in Hstash.
        destruct (run_oracle w _ _) eqn:Hq; inversion Hstash; subst.
        cbn [with_invocations invocations].
        apply survived_call; [exact Hsurv|]. right. eauto.
    + intros [= <- <-]. unfold subprocess_run in Hstash.
      destruct (run_oracle _ _ _); inversion Hstash; subst.
      eapply stage_stash_raised; eauto.
  - unfold ret at 1. exact (pull_onwards self repo_path branch false w wk Hrun Hsurv o w').
Qed.

Lemma labelled_by (label detail : string) :
  In label failure_labels -> labelled (label +:+ detail).
Proof. intros H. now exists label, detail. Qed.

Lemma pull_failure_labelled (p : CompletedProcess) :
  success (pull_failure p) = false /\ labelled (message (pull_failure p)).
Proof.
  unfold pull_failure. destruct (PyStr.str_in _ _); cbn [success message PullResult3];
    (split; [reflexivity|]); apply labelled_by; cbn; auto 10.
Qed.

(** The stage under the handlers of [pull_repository]. *)
Lemma handled_stage (self : GitService) (repo_path : string) (branch : option string)
      (status : GitStatus) (w wk : World) :
  runs_on w wk ->
  survived w (invocations w) (invocations wk) ->
  exists r w',
    try_except (stash_and_pull self repo_path branch status)
      (fun e =>
         if is_TimeoutExpired e
         then ret (PullResult3 false ("Pull操作超时: " +:+ repo_path) [])
         else ret (PullResult3 false ("Pull操作异常: " +:+ str_exn e) [])) wk
    = (Ret r, w')
    /\ pull_run self repo_path branch w r w'
    /\ (success r = false -> labelled (message r)).
Proof.
  intros Hrun Hsurv. unfold try_except.
  destruct (stash_and_pull self repo_path branch status wk) as [o w1] eqn:Hstage.
  destruct (stage_shape _ _ _ _ _ _ Hrun Hsurv _ _ Hstage)
    as [e inv rest -> Hinv Hverb | e during -> Hinv Hor
        | post during p -> Hinv Hpost Hor Hrc Hall | during p -> Hinv Hor Hrc].
  - destruct (is_TimeoutExpired e); unfold ret; do 2 eexists;
      (split; [reflexivity|]); (split; [|intros _; apply labelled_by; cbn; auto 10]);
      eapply stopped_short; eauto; rewrite Hverb; discriminate.
  - exists (raised_result repo_path e), w1. split.
    + unfold raised_result. now destruct (is_TimeoutExpired e).
    + split; [eapply pull_raised; eauto|].
      intros _. unfold raised_result.
      destruct (is_TimeoutExpired e); apply labelled_by; cbn; auto 10.
  - do 2 eexists. split; [reflexivity|]. split; [|discriminate].
    eapply pull_succeeded; eauto.
  - do 2 eexists. split; [reflexivity|]. split.
    + eapply pull_failed; eauto.
    + intros _. apply pull_failure_labelled.
Qed.

(** Every run of [pull_repository] on an existing path returns a result, in
    one of the four ways, and a failure carries a labelled message. *)
Lemma pull_repository_run (self : GitService) (repo_path : string)
      (branch : option string) (w : World) :
  exists_on_disk w repo_path = true ->
  exists r w',
    pull_repository self repo_path branch w = (Ret r, w')
    /\ pull_run self repo_path branch w r w'
    /\ (success r = false -> labelled (message r)).
Proof.
  intros Hex. unfold pull_repository, bind at 1, os_path_exists. rewrite Hex. cbn [negb].
  unfold try_except at 1, bind at 1.
  destruct (get_repo_status self repo_path w) as [[status|e] w1] eqn:Hst.
  2:{ destruct (repo_status_raises _ _ _ _ _ Hex Hst) as (T & inv & rest & Hinv & Hverb).
      rewrite T. unfold ret. do 2 eexists. split; [reflexivity|]. split.
      - eapply stopped_short; eauto. destruct Hverb as [-> | ->]; discriminate.
      - intros _. apply labelled_by; cbn; auto 10. }
  pose proof (steady_repo_status _ _ _ _ _ Hst) as R1.
  pose proof (repo_status_survived _ _ _ _ _ Hst) as S1.
  unfold bind at 1.
  destruct (has_conflicts status).
  - unfold bind at 1.
    destruct (resolve_conflicts_returns self repo_path w1)
      as (u & w2 & inv & rest & Hrc & Hinv & Hverb).
    rewrite Hrc.
    pose proof (steady_resolve_conflicts _ _ _ _ _ Hrc) as R2.
    destruct u as [|c cs]; unfold ret at 1.
    + apply (handled_stage self repo_path branch status w w2).
      * eapply runs_on_trans; eauto.
      * eapply resolve_conflicts_survived; eauto.
    + unfold ret. do 2 eexists. split; [reflexivity|]. split.
      * eapply stopped_short; eauto. destruct Hverb as [-> | ->]; discriminate.
      * intros _. apply labelled_by; cbn; auto 10.
  - unfold ret at 1. apply (handled_stage self repo_path branch status w w1 R1 S1).
Qed.

(** A path that is not a repository: [rev-parse] exits with a code other
    than 0. *)
Lemma not_a_repository (self : GitService) (repo_path : string)
      (branch : option string) (w : World) (p : CompletedProcess) :
  exists_on_disk w repo_path = true ->
  answer w 0 ["git"; "rev-parse"; "--is-inside-work-tree"] repo_path (git_timeout self)
  = Completed p ->
  returncode p <> 0 ->
  fst (pull_repository self repo_path branch w)
  = Ret (PullResult3 false ("Pull操作异常: " +:+ "不是Git仓库: " +:+ repo_path) []).
Proof.
  intros Hex Hrun Hrc. apply Z.eqb_neq in Hrc. unfold answer in Hrun. cbn [Nat.add] in Hrun.
  unfold pull_repository, bind at 1, os_path_exists. rewrite Hex. cbn [negb].
  unfold try_except at 1, bind at 1.
  unfold get_repo_status, bind at 1, os_path_exists. rewrite Hex. cbn [negb].
  unfold try_except at 1, bind at 1, subprocess_run at 1.
  rewrite Hrun, Hrc. reflexivity.
Qed.

(** Conflicts that [_resolve_conflicts] leaves unresolved end the run: the
    result is the failure that lists them, and neither stash nor pull is
    run. *)
Lemma unresolved_conflicts_result (self : GitService) (repo_path : string)
      (branch : option string) (w w1 w2 : World) (status : GitStatus)
      (unresolved : list string) :
  exists_on_disk w repo_path = true ->
  get_repo_status self repo_path w = (Ret status, w1) ->
  has_conflicts status = true ->
  _resolve_conflicts self repo_path w1 = (Ret unresolved, w2) ->
  unresolved <> [] ->
  pull_repository self repo_path branch w
  = (Ret (PullResult3 false
            ("存在无法自动解决的冲突: " +:+ PyStr.join ", " unresolved) unresolved), w2).
Proof.
  intros Hex Hst Hc Hrc Hne.
  unfold pull_repository, bind at 1, os_path_exists. rewrite Hex. cbn [negb].
  unfold try_except at 1, bind at 1. rewrite Hst.
  unfold bind at 1. rewrite Hc. unfold bind at 1. rewrite Hrc.
  destruct unresolved as [|c cs]; [congruence|]. reflexivity.
Qed.

(** In a log of calls that completed or were swallowed, a call that raised
    is one of the swallowed kind. *)
Lemma survived_call_raised (w : World) (base log : list Invocation) :
  survived w base log ->
  forall later inv earlier (e : exn),
    log = later ++ inv :: earlier ->
    (length base <= length earlier)%nat ->
    run_oracle w (length earlier) inv = RunRaises e ->
    swallowed inv = true.
Proof.
  induction 1 as [|inv0 log Hs IH Hinv0]; intros later inv earlier e Hlog Hlen Hrun.
  - exfalso. apply (f_equal (@length _)) in Hlog.
    rewrite length_app in Hlog. cbn [length] in Hlog. lia.
  - destruct later as [|x later]; cbn [app] in Hlog.
    + injection Hlog as -> ->. destruct Hinv0 as [Hsw | [p Hp]]; [exact Hsw | congruence].
    + injection Hlog as _ ->. now apply (IH later inv earlier e).
Qed.

(** C6, as the code has it.  [pull_repository] returns a result on every
    input and for every behaviour of the external commands, it never raises.
    A result that is not a success carries a message that starts with one of
    the failure labels.  On an existing path the run ends in one of four
    ways: short of the pull or on the restoring of the stash, on a pull that
    raised (a timeout yields the message of the timeout), on a pull that
    exited with another code than 0 -- all three failures -- or on a pull
    that exited with 0, the only success.  A success means that the pull ran
    and exited with 0 and that every call made completed or was one of the
    swallowed kind: a timeout or another exception of the fetch, of the
    count of commits or of the listing of conflicted files does not by
    itself make the result a failure; one of any other call does, that of
    [git add] included, after which [_resolve_conflicts] reports the listed
    files as unresolved.  A path that is no repository yields the failure
    that says so.  When the status shows conflicts and [_resolve_conflicts]
    leaves some unresolved, the run ends there: the result is the failure
    that lists them, its message joins them with commas, and the world is
    the one [_resolve_conflicts] left, with neither stash nor pull run. *)
Theorem pull_repository_total (self : GitService) (repo_path : string)
        (branch : option string) (w : World) :
  exists r w',
    pull_repository self repo_path branch w = (Ret r, w')
    /\ (success r = false -> labelled (message r))
    /\ (exists_on_disk w repo_path = true -> pull_run self repo_path branch w r w')
    /\ (success r = true ->
        survived w (invocations w) (invocations w')
        /\ exists post during p,
            invocations w' = post ++ pull_call self repo_path branch :: during ++ invocations w
            /\ run_oracle w (length (during ++ invocations w))
                          (pull_call self repo_path branch)
               = Completed p
            /\ returncode p = 0)
    /\ (forall p,
          exists_on_disk w repo_path = true ->
          answer w 0 ["git"; "rev-parse"; "--is-inside-work-tree"] repo_path
                 (git_timeout self) = Completed p ->
          returncode p <> 0 ->
          r = PullResult3 false ("Pull操作异常: " +:+ "不是Git仓库: " +:+ repo_path) [])
    /\ (forall status w1 unresolved w2,
          exists_on_disk w repo_path = true ->
          get_repo_status self repo_path w = (Ret status, w1) ->
          has_conflicts status = true ->
          _resolve_conflicts self repo_path w1 = (Ret unresolved, w2) ->
          unresolved <> [] ->
          r = PullResult3 false
                ("存在无法自动解决的冲突: " +:+ PyStr.join ", " unresolved) unresolved
          /\ w' = w2)
    /\ (forall later inv earlier (e : exn),
          invocations w' = later ++ inv :: earlier ->
          (length (invocations w) <= length earlier)%nat ->
          run_oracle w (length earlier) inv = RunRaises e ->
          swallowed inv = false ->
          success r = false).
Proof.
  destruct (exists_on_disk w repo_path) eqn:Hex.
  - destruct (pull_repository_run self repo_path branch w Hex) as (r & w' & Heq & Hrun & Hlab).
    assert (Hsucc : success r = true -> survived w (invocations w) (invocations w')).
    { intros H.
      destruct Hrun as [inv rest _ _ Hs | e during _ _ Hr
                        | post during p Hinv _ Hor Hrc Hall _ | during p _ _ _ Hr].
      * congruence.
      * subst r. unfold raised_result in H. now destruct (is_TimeoutExpired e).
      * exact Hall.
      * subst r. destruct (pull_failure_labelled p). congruence. }
    exists r, w'. split; [exact Heq|]. split; [exact Hlab|]. split; [intros _; exact Hrun|].
    split; [|split; [|split]].
    + intros H. split; [now apply Hsucc|].
      destruct Hrun as [inv rest _ _ Hs | e during _ _ Hr
                        | post during p Hinv _ Hor Hrc Hall _ | during p _ _ _ Hr].
      * congruence.
      * subst r. unfold raised_result in H. now destruct (is_TimeoutExpired e).
      * eauto 10.
      * subst r. destruct (pull_failure_labelled p). congruence.
    + intros p _ Hans Hrc.
      pose proof (not_a_repository self repo_path branch w p Hex Hans Hrc) as Hnr.
      rewrite Heq in Hnr. cbn [fst] in Hnr. congruence.
    + intros status w1 unresolved w2 _ Hst Hc Hrc Hne.
      pose proof (unresolved_conflicts_result self repo_path branch w w1 w2 status
                    unresolved Hex Hst Hc Hrc Hne) as Hres.
      rewrite Heq in Hres. now injection Hres as -> ->.
    + intros later inv earlier e Hlog Hlen Hraise Hsw.
      destruct (success r) eqn:Hs; [|reflexivity].
      pose proof (survived_call_raised _ _ _ (Hsucc eq_refl) later inv earlier e
                    Hlog Hlen Hraise) as Hsw'.
      congruence.
  - do 2 eexists. split; [exact (missing_path_result self repo_path branch w Hex)|].
    repeat split; try discriminate; try congruence.
    intros _. apply labelled_by; cbn; auto 10.
Qed.

Lemma pull_repository_total_witness :
  exists r w',
    pull_repository service "/repo" (Some "main") fetch_timeout_world = (Ret r, w')
    /\ pull_run service "/repo" (Some "main") fetch_timeout_world r w'.
Proof.
  destruct (pull_repository_total service "/repo" (Some "main") fetch_timeout_world)
    as (r & w' & Heq & _ & Hrun & _).
  exists r, w'. split; [exact Heq|]. apply Hrun. reflexivity.
Defined.

(** C6 as stated fails: the fetch times out, the timeout is swallowed with
    the count of commits, and the pull that follows makes the result a
    success. *)
Lemma fetch_timeout_goes_unreported :
  exists r w' later earlier msg,
    pull_repository service "/repo" (Some "main") fetch_timeout_world = (Ret r, w')
    /\ invocations w' = later ++ fetch_call :: earlier
    /\ run_oracle fetch_timeout_world (length earlier) fetch_call
       = RunRaises (TimeoutExpired msg)
    /\ success r = true.
Proof.
  eexists _, _,
    [mkInvocation ["git"; "pull"; "origin"; "main"] (Some "/repo") 30],
    [mkInvocation ["git"; "status"; "--porcelain"] (Some "/repo") 30;
     mkInvocation ["git"; "rev-parse"; "--is-inside-work-tree"] (Some "/repo") 30],
    _.
  split; [vm_compute; reflexivity|].
  repeat split.
Qed.

(** A [git add] that times out is not passed over: the file is rewritten,
    the timeout is caught in [_resolve_conflicts], which reports the listed
    file as unresolved, and the run ends in a failure before stash and
    pull. *)
Example add_timeout_is_reported :
  let run := pull_repository service "/repo" (Some "main") add_timeout_world in
  fst run = Ret (PullResult3 false "存在无法自动解决的冲突: a.py" ["a.py"])
  /\ map args (invocations (snd run))
     = [["git"; "add"; "a.py"];
        ["git"; "diff"; "--name-only"; "--diff-filter=U"];
        ["git"; "rev-list"; "--count"; "--left-right"; "HEAD...@{u}"];
        ["git"; "fetch"; "--quiet"];
        ["git"; "status"; "--porcelain"];
        ["git"; "rev-parse"; "--is-inside-work-tree"]].
Proof. vm_compute. repeat split. Qed.

(** ** A healthy repository *)

Lemma run_completed (a : list string) (dir : option string) (t : Z) (w : World)
      (p : CompletedProcess) :
  run_oracle w (length (invocations w)) (mkInvocation a dir t) = Completed p ->
  subprocess_run a dir t w
  = (Ret p, with_invocations (mkInvocation a dir t :: invocations w) w).
Proof. intros H. unfold subprocess_run. now rewrite H. Qed.

(** Runs the next external call of the goal with the outcome [H] gives. *)
Ltac run_step H :=
  match goal with
  | |- context [subprocess_run ?a ?d ?t ?w0] =>
      rewrite (run_completed a d t w0 _ H)
  end.

(** When the fetch and the count complete, [_get_sync_status] makes these
    two calls and returns, whatever the count printed. *)
Lemma sync_status_completes (self : GitService) (repo_path : string) (w : World)
      (p q : CompletedProcess) :
  answer w 0 ["git"; "fetch"; "--quiet"] repo_path (git_timeout self) = Completed p ->
  answer w 1 ["git"; "rev-list"; "--count"; "--left-right"; "HEAD...@{u}"] repo_path
         (git_timeout self) = Completed q ->
  exists counts,
    _get_sync_status self repo_path w
    = (Ret counts,
       with_invocations
         (mkInvocation ["git"; "rev-list"; "--count"; "--left-right"; "HEAD...@{u}"]
                       (Some repo_path) (git_timeout self)
          :: mkInvocation ["git"; "fetch"; "--quiet"] (Some repo_path) (git_timeout self)
          :: invocations w) w).
Proof.
  unfold answer. cbn [Nat.add]. intros Hf Hr.
  unfold _get_sync_status, try_except, bind at 1.
  run_step Hf.
  unfold bind at 1. run_step Hr.
  cbn [with_invocations invocations].
  destruct (returncode q =? 0); [|unfold ret; eauto].
  destruct (PyStr.split PyStr.TAB (PyStr.strip (stdout q))) as [|a [|b [|c l]]];
    try (unfold ret; eauto; fail).
  unfold bind, lift_outcome, ret.
  destruct (PyInt.int a); [|eauto]. destruct (PyInt.int b); eauto.
Qed.

(** One sync of a healthy repository. *)
Lemma healthy_sync (self : GitService) (repo_path : string) (branch : option string)
      (out : string) (w : World) :
  healthy self repo_path branch out w ->
  pull_repository self repo_path branch w
  = (Ret (PullResult3 true (PyStr.strip out) []),
     with_invocations (healthy_calls self repo_path branch ++ invocations w) w).
Proof.
  intros (Hex & (p0 & H0 & Hrc0) & (p1 & H1 & Hu & Hm & Hc) & (p2 & H2) & (p3 & H3)
          & (p4 & H4 & Hrc4 & Hout)).
  unfold answer in H0, H1, H4. cbn [Nat.add] in H0, H1, H4.
  unfold pull_repository, bind at 1, os_path_exists. rewrite Hex. cbn [negb].
  unfold try_except at 1, bind at 1.
  unfold get_repo_status, bind at 1, os_path_exists. rewrite Hex. cbn [negb].
  unfold try_except at 1, bind at 1.
  run_step H0. rewrite Hrc0. cbn [Z.eqb negb].
  unfold bind at 1. run_step H1.
  unfold bind at 1.
  match goal with
  | |- context [_get_sync_status self repo_path ?w0] =>
      destruct (sync_status_completes self repo_path w0 p2 p3 H2 H3) as [counts Hsync]
  end.
  rewrite Hsync. unfold ret at 1.
  rewrite Hu, Hm, Hc. cbn [length Nat.eqb andb is_clean has_conflicts negb].
  unfold bind at 1, ret at 1. unfold bind at 1, ret at 1.
  unfold bind at 1. run_step H4. rewrite Hrc4, Hout.
  reflexivity.
Qed.

(** C8.  On a healthy repository -- the tree clean and free of conflicts,
    the fetch and the count of commits completing, whatever they report and
    so also when the repository is up to date, the pull exiting with 0 -- a
    sync succeeds with no conflicts; it writes no file, leaves the store
    alone and runs only the five calls of a plain sync, no stash and no
    [git add].  Under the same conditions a second sync returns the same
    result, again without writing. *)
Theorem healthy_sync_repeats (self : GitService) (repo_path : string)
        (branch : option string) (out : string) (w : World) :
  healthy self repo_path branch out w ->
  exists r w1,
    pull_repository self repo_path branch w = (Ret r, w1)
    /\ success r = true /\ conflicts r = [] /\ message r = PyStr.strip out
    /\ files w1 = files w /\ store w1 = store w
    /\ invocations w1 = healthy_calls self repo_path branch ++ invocations w
    /\ (healthy self repo_path branch out w1 ->
        exists w2,
          pull_repository self repo_path branch w1 = (Ret r, w2)
          /\ files w2 = files w /\ store w2 = store w
          /\ invocations w2
             = healthy_calls self repo_path branch
               ++ healthy_calls self repo_path branch ++ invocations w).
Proof.
  intros H. do 2 eexists. split; [exact (healthy_sync _ _ _ _ _ H)|].
  repeat split.
  intros H1. eexists. split; [exact (healthy_sync _ _ _ _ _ H1)|].
  repeat split.
Qed.

Example healthy_world_is_healthy :
  healthy service "/repo" (Some "main") ("Already up to date." +:+ PyStr.nl) healthy_world.
Proof.
  unfold healthy. split; [reflexivity|].
  repeat split; eexists; repeat split; vm_compute; reflexivity.
Qed.

Lemma healthy_sync_repeats_witness :
  healthy service "/repo" (Some "main") ("Already up to date." +:+ PyStr.nl) healthy_world
  /\ exists r w1,
      pull_repository service "/repo" (Some "main") healthy_world = (Ret r, w1)
      /\ success r = true /\ conflicts r = [] /\ message r = "Already up to date.".
Proof.
  split; [exact healthy_world_is_healthy|].
  destruct (healthy_sync_repeats service "/repo" (Some "main")
              ("Already up to date." +:+ PyStr.nl) healthy_world healthy_world_is_healthy)
    as (r & w1 & Heq & Hs & Hc & Hm & _).
  exists r, w1. repeat split; assumption.
Defined.

(** ** The store *)

Lemma run_statements_all (fault : option nat) (stmts : list (Store -> Store))
      (working committed : Store) :
  run_statements fault stmts working = Ret committed ->
  committed = fold_left (fun s stmt => stmt s) stmts working.
Proof.
  revert fault working. induction stmts as [|stmt rest IH]; intros fault working.
  - destruct fault as [[|k]|]; cbn; congruence.
  - destruct fault as [[|k]|]; cbn [run_statements fold_left]; try discriminate; apply IH.
Qed.

Lemma run_statements_none (stmts : list (Store -> Store)) (working : Store) :
  run_statements None stmts working = Ret (fold_left (fun s stmt => stmt s) stmts working).
Proof. revert working. induction stmts as [|stmt rest IH]; intros working; cbn; auto. Qed.

(** A transaction raises when the fault falls on one of its steps or on
    the end of the block, and runs all its statements otherwise. *)
Lemma run_statements_cases (fault : option nat) (stmts : list (Store -> Store))
      (working : Store) :
  run_statements fault stmts working
  = match fault with
    | Some k =>
        if (k <=? length stmts)%nat
        then Raise (DatabaseError "sqlite3.OperationalError")
        else Ret (fold_left (fun s stmt => stmt s) stmts working)
    | None => Ret (fold_left (fun s stmt => stmt s) stmts working)
    end.
Proof.
  destruct fault as [k|]; [|apply run_statements_none].
  revert k working. induction stmts as [|stmt rest IH]; intros k working.
  - destruct k; reflexivity.
  - destruct k as [|k]; [reflexivity|].
    cbn [run_statements fmap option_fmap option_map Nat.pred length fold_left].
    rewrite IH. reflexivity.
Qed.

(** The update is all or nothing: it returns with the row updated and the
    log entry appended, or it raises and the store is as before. *)
Lemma update_pull_status_atomic (mapping_id : option Z) (status : string)
      (msg : option string) (w w' : World) (o : outcome unit) :
  update_pull_status mapping_id status msg w = (o, w') ->
  (o = Ret tt
   /\ store w' = status_stored mapping_id status msg (current_timestamp w) (store w))
  \/ (exists e, o = Raise e /\ store w' = store w).
Proof.
  unfold update_pull_status, transaction.
  destruct (run_statements _ _ _) as [committed|e] eqn:E; intros [= <- <-].
  - left. split; [reflexivity|]. apply run_statements_all in E. now subst committed.
  - right. eauto.
Qed.

Lemma update_pull_status_commits (mapping_id : option Z) (status : string)
      (msg : option string) (w : World) :
  store_oracle w (transactions w) = None ->
  update_pull_status mapping_id status msg w
  = (Ret tt,
     with_store (status_stored mapping_id status msg (current_timestamp w) (store w))
                (S (transactions w)) w).
Proof.
  intros H. unfold update_pull_status, transaction. rewrite H, run_statements_none.
  reflexivity.
Qed.

(** The update commits unless its transaction fails. *)
Lemma update_pull_status_cases (mapping_id : option Z) (status : string)
      (msg : option string) (w : World) :
  update_pull_status mapping_id status msg w
  = if store_fails w (transactions w) 4
    then (Raise (DatabaseError "sqlite3.OperationalError"),
          with_store (store w) (S (transactions w)) w)
    else (Ret tt,
          with_store (status_stored mapping_id status msg (current_timestamp w) (store w))
                     (S (transactions w)) w).
Proof.
  unfold update_pull_status, transaction, store_fails. rewrite run_statements_cases.
  cbn [length app].
  destruct (store_oracle w (transactions w)) as [k|]; [|reflexivity].
  now destruct (k <=? 4)%nat.
Qed.

Lemma set_pull_status_matched (mapping_id : option Z) (status ts : string)
      (row : FolderRepoMapping) :
  id_matches mapping_id (set_pull_status mapping_id status ts row) = true ->
  pull_status (set_pull_status mapping_id status ts row) = status
  /\ last_pull_at (set_pull_status mapping_id status ts row) = Some ts.
Proof.
  unfold set_pull_status. destruct (id_matches mapping_id row) eqn:E.
  - intros _. split; reflexivity.
  - congruence.
Qed.

(** ** The pull task of the scheduler *)

Lemma status_of_failure (r : PullResult) :
  success r = false -> failure_status r = status_of_result r.
Proof.
  intros H. unfold failure_status, status_of_result. rewrite H.
  destruct (conflicts r); reflexivity.
Qed.

Lemma thread_stores (self : SchedulerService) (m : FolderRepoMapping)
      (w w1 : World) (r : PullResult) :
  pull_repository (git_service self) (repo_path m) (Some (branch m)) w = (Ret r, w1) ->
  store_oracle w1 (transactions w1) = None ->
  _pull_repository_thread self m w
  = (Ret tt,
     with_store
       (status_stored (id m) (status_of_result r) (Some (message r))
                      (current_timestamp w1) (store w1))
       (S (transactions w1)) w1).
Proof.
  intros Hpull Hstore.
  unfold _pull_repository_thread, try_except, bind at 1, os_path_exists.
  destruct (exists_on_disk w (repo_path m)) eqn:Hex; cbn [negb].
  - unfold bind. rewrite Hpull.
    destruct (success r) eqn:Hs.
    + rewrite update_pull_status_commits by assumption.
      unfold status_of_result. now rewrite Hs.
    + rewrite update_pull_status_commits by assumption.
      now rewrite status_of_failure.
  - rewrite (missing_path_result _ _ _ _ Hex) in Hpull. injection Hpull as <- <-.
    now rewrite update_pull_status_commits by assumption.
Qed.

(** The rows and the log once the pull task has stored the outcome. *)
Lemma thread_stores_rows (self : SchedulerService) (m : FolderRepoMapping)
      (w w1 : World) (r : PullResult) :
  pull_repository (git_service self) (repo_path m) (Some (branch m)) w = (Ret r, w1) ->
  store_oracle w1 (transactions w1) = None ->
  exists w2,
    _pull_repository_thread self m w = (Ret tt, w2)
    /\ folder_repo_mappings (store w2)
       = map (set_pull_status (id m) (status_of_result r) (current_timestamp w))
             (folder_repo_mappings (store w))
    /\ pull_logs (store w2)
       = pull_logs (store w)
         ++ [mkPullLog (id m) "pull" (status_of_result r) (Some (message r))
                       (current_timestamp w)].
Proof.
  intros Hpull Hstore.
  destruct (steady_pull_repository _ _ _ _ _ _ Hpull)
    as (_ & _ & _ & _ & Hts & Hst & _ & _ & _).
  eexists. split; [exact (thread_stores self m w w1 r Hpull Hstore)|].
  cbn [store with_store status_stored insert_pull_log update_mapping_row
       folder_repo_mappings pull_logs].
  rewrite Hts, Hst. split; reflexivity.
Qed.

(** The task after the sync: one write of the outcome, and a second write
    in its handler. *)
Lemma thread_after_sync (self : SchedulerService) (m : FolderRepoMapping)
      (w w1 : World) (r : PullResult) :
  pull_repository (git_service self) (repo_path m) (Some (branch m)) w = (Ret r, w1) ->
  _pull_repository_thread self m w
  = try_except
      (update_pull_status (id m) (status_of_result r) (Some (message r)))
      (fun e => update_pull_status (id m) "failed" (Some ("Pull线程异常: " +:+ str_exn e)))
      w1.
Proof.
  intros Hpull.
  unfold _pull_repository_thread, try_except at 1, bind at 1, os_path_exists.
  destruct (exists_on_disk w (repo_path m)) eqn:Hex; cbn [negb].
  - unfold bind at 1. rewrite Hpull. destruct (success r) eqn:Hs.
    + unfold status_of_result. rewrite Hs. reflexivity.
    + rewrite (status_of_failure r Hs). reflexivity.
  - rewrite (missing_path_result _ _ _ _ Hex) in Hpull. injection Hpull as <- <-.
    reflexivity.
Qed.

(** What the task leaves in the store, by the faults of the store: the
    outcome of the sync; or [failed] with the text of the exception of the
    store; or nothing, the exception leaving the task. *)
Lemma thread_outcomes (self : SchedulerService) (m : FolderRepoMapping)
      (w w1 : World) (r : PullResult) :
  pull_repository (git_service self) (repo_path m) (Some (branch m)) w = (Ret r, w1) ->
  exists w2 o,
    _pull_repository_thread self m w = (o, w2)
    /\ (if store_fails w (transactions w) 4 then
          if store_fails w (S (transactions w)) 4 then
            o = Raise (DatabaseError "sqlite3.OperationalError") /\ store w2 = store w
          else
            o = Ret tt
            /\ store w2
               = status_stored (id m) "failed"
                   (Some "Pull线程异常: sqlite3.OperationalError")
                   (current_timestamp w) (store w)
        else
          o = Ret tt
          /\ store w2
             = status_stored (id m) (status_of_result r) (Some (message r))
                             (current_timestamp w) (store w)).
Proof.
  intros Hpull. rewrite (thread_after_sync self m w w1 r Hpull).
  destruct (steady_pull_repository _ _ _ _ _ _ Hpull)
    as (_ & _ & _ & _ & Hts & Hstore & Hor & Htr & _).
  unfold try_except. rewrite update_pull_status_cases.
  assert (F1 : store_fails w1 (transactions w1) 4 = store_fails w (transactions w) 4)
    by (unfold store_fails; now rewrite Hor, Htr).
  rewrite F1.
  destruct (store_fails w (transactions w) 4).
  - rewrite update_pull_status_cases.
    assert (F2 : store_fails (with_store (store w1) (S (transactions w1)) w1)
                             (transactions (with_store (store w1) (S (transactions w1)) w1)) 4
                 = store_fails w (S (transactions w)) 4)
      by (unfold store_fails; cbn [with_store store_oracle transactions]; now rewrite Hor, Htr).
    rewrite F2.
    destruct (store_fails w (S (transactions w)) 4).
    + do 2 eexists. split; [reflexivity|]. split; [reflexivity|].
      cbn [with_store store]. exact Hstore.
    + do 2 eexists. split; [reflexivity|]. split; [reflexivity|].
      cbn [with_store store current_timestamp str_exn]. now rewrite Hstore, Hts.
  - do 2 eexists. split; [reflexivity|]. split; [reflexivity|].
    cbn [with_store store]. now rewrite Hstore, Hts.
Qed.

(** C7, as the code has it.  Once the sync of a mapping has returned its
    result, what the pull task stores goes by the store.  When the store
    takes the write, the task stores [success] for a success, and for a
    failure [conflict] when conflicts are listed and [failed] when none is
    (a path that is missing included, for which the task stores the very
    failure [pull_repository] returns); every row of the mapping gets that
    status and the current timestamp as its last pull, and exactly one log
    entry with the same status, message and timestamp is appended.  When the
    write raises, the handler of the task writes instead: if that second
    write commits, the rows get [failed] and the log entry [failed] with the
    text of the exception of the store, whatever the sync had achieved, a
    success included; if it raises as well, the exception leaves the task
    and the store is as it was.  The update is one transaction: on any store
    it either commits both the row and the log entry or raises and leaves
    the store as it was. *)
Theorem sync_outcome_persisted (self : SchedulerService) (m : FolderRepoMapping)
        (w w1 : World) (r : PullResult) :
  pull_repository (git_service self) (repo_path m) (Some (branch m)) w = (Ret r, w1) ->
  let status := status_of_result r in
  let ts := current_timestamp w in
  let n := transactions w in
  (store_fails w n 4 = false ->
   exists w2,
     _pull_repository_thread self m w = (Ret tt, w2)
     /\ folder_repo_mappings (store w2)
        = map (set_pull_status (id m) status ts) (folder_repo_mappings (store w))
     /\ pull_logs (store w2)
        = pull_logs (store w) ++ [mkPullLog (id m) "pull" status (Some (message r)) ts]
     /\ (forall row, In row (folder_repo_mappings (store w2)) ->
                     id_matches (id m) row = true ->
                     pull_status row = status /\ last_pull_at row = Some ts))
  /\ (store_fails w n 4 = true -> store_fails w (S n) 4 = false ->
      exists w2,
        _pull_repository_thread self m w = (Ret tt, w2)
        /\ folder_repo_mappings (store w2)
           = map (set_pull_status (id m) "failed" ts) (folder_repo_mappings (store w))
        /\ pull_logs (store w2)
           = pull_logs (store w)
             ++ [mkPullLog (id m) "pull" "failed"
                           (Some "Pull线程异常: sqlite3.OperationalError") ts])
  /\ (store_fails w n 4 = true -> store_fails w (S n) 4 = true ->
      exists w2,
        _pull_repository_thread self m w
        = (Raise (DatabaseError "sqlite3.OperationalError"), w2)
        /\ store w2 = store w)
  /\ (forall w0 o w0',
        update_pull_status (id m) status (Some (message r)) w0 = (o, w0') ->
        (o = Ret tt
         /\ store w0' = status_stored (id m) status (Some (message r))
                                      (current_timestamp w0) (store w0))
        \/ (exists e, o = Raise e /\ store w0' = store w0)).
Proof.
  intros Hpull status ts n.
  destruct (thread_outcomes self m w w1 r Hpull) as (w2 & o & Heq & Hcase).
  fold n in Hcase. split; [|split; [|split]].
  - intros F1. rewrite F1 in Hcase. destruct Hcase as [-> Hst].
    assert (Hrows : folder_repo_mappings (store w2)
                    = map (set_pull_status (id m) status ts) (folder_repo_mappings (store w)))
      by now rewrite Hst.
    exists w2. split; [exact Heq|]. split; [exact Hrows|]. split; [now rewrite Hst|].
    intros row Hin Hid. rewrite Hrows in Hin. apply in_map_iff in Hin as (row0 & <- & _).
    apply (set_pull_status_matched _ _ _ _ Hid).
  - intros F1 F2. rewrite F1, F2 in Hcase. destruct Hcase as [-> Hst].
    exists w2. split; [exact Heq|]. now rewrite Hst.
  - intros F1 F2. rewrite F1, F2 in Hcase. destruct Hcase as [-> Hst].
    exists w2. split; [exact Heq | exact Hst].
  - intros w0 o0 w0'. apply update_pull_status_atomic.
Qed.

Lemma sync_outcome_persisted_witness :
  store_fails healthy_world 0 4 = false
  /\ exists w2,
      _pull_repository_thread scheduler sample_mapping healthy_world = (Ret tt, w2)
      /\ map pull_status (folder_repo_mappings (store w2)) = ["success"]
      /\ map last_pull_at (folder_repo_mappings (store w2)) = [Some "2024-03-01 10:15:00"]
      /\ map log_status (pull_logs (store w2)) = ["success"].
Proof.
  split; [reflexivity|].
  destruct (sync_outcome_persisted scheduler sample_mapping healthy_world _ _
              (healthy_sync _ _ _ _ _ healthy_world_is_healthy))
    as (Hgood & _).
  destruct (Hgood eq_refl) as (w2 & Heq & Hrows & Hlogs & _).
  exists w2. split; [exact Heq|]. rewrite Hrows, Hlogs. repeat split.
Defined.

(** C7 as stated fails: the sync succeeds, the write of [success] raises,
    the handler of the task writes again, and [failed] is what the store
    holds for a sync that succeeded. *)
Lemma store_fault_then_failed :
  exists r w1 w2,
    pull_repository (git_service scheduler) (repo_path sample_mapping)
                    (Some (branch sample_mapping)) flaky_store_world = (Ret r, w1)
    /\ success r = true
    /\ _pull_repository_thread scheduler sample_mapping flaky_store_world = (Ret tt, w2)
    /\ map pull_status (folder_repo_mappings (store w2)) = ["failed"]
    /\ map log_status (pull_logs (store w2)) = ["failed"]
    /\ map log_message (pull_logs (store w2))
       = [Some "Pull线程异常: sqlite3.OperationalError"].
Proof.
  do 3 eexists. split; [vm_compute; reflexivity|]. split; [reflexivity|].
  split; [vm_compute; reflexivity|]. repeat split.
Qed.

(** ** A pull that fails on conflicts it does not name *)

Lemma contains_conflict_word (s : string) :
  occurs_ignoring_case "conflict" s ->
  PyStr.str_in "conflict" (PyStr.lower s) = true.
Proof.
  intros (before & found & after & -> & Hlow).
  apply str_in_occurs. exists (PyStr.lower before), (PyStr.lower after).
  now rewrite !lower_app, Hlow.
Qed.

Lemma search_names_path (line path : string) :
  search_conflict_path line = Some path -> names_conflict_path line.
Proof.
  unfold search_conflict_path.
  destruct (PyStr.after_first "CONFLICT" line) as [rest|] eqn:E1; [|discriminate].
  destruct (PyStr.after_first "in " rest) as [found|] eqn:E2; [|discriminate].
  destruct (String.eqb found "") eqn:E3; [discriminate|].
  intros [= <-].
  apply after_first_occurs in E1 as [before ->].
  apply after_first_occurs in E2 as [between ->].
  exists before, between, found. split; [reflexivity|].
  now apply String.eqb_neq.
Qed.

Lemma parse_lines_none (lines found : list string) :
  (forall line, In line lines -> ~ names_conflict_path line) ->
  fold_left parse_line lines found = found.
Proof.
  revert found. induction lines as [|line rest IH]; intros found H; cbn [fold_left].
  - reflexivity.
  - rewrite IH by (intros l Hl; apply H; now right).
    unfold parse_line. destruct (PyStr.str_in "CONFLICT" line); [|reflexivity].
    destruct (search_conflict_path line) as [path|] eqn:E; [|reflexivity].
    exfalso. apply (H line); [now left|]. eapply search_names_path, E.
Qed.

Lemma pull_failure_without_paths (p : CompletedProcess) :
  occurs_ignoring_case "conflict" (stderr p) ->
  (forall line, In line (PyStr.split PyStr.LF (stderr p)) -> ~ names_conflict_path line) ->
  pull_failure p = PullResult3 false ("Pull冲突: " +:+ stderr p) [].
Proof.
  intros Hword Hlines. unfold pull_failure, _parse_conflicts.
  now rewrite contains_conflict_word, parse_lines_none.
Qed.

Lemma cons_app_longer {A} (x : A) (l1 l2 : list A) : l2 <> x :: l1 ++ l2.
Proof.
  intros H. apply (f_equal (@length A)) in H. cbn in H. rewrite length_app in H. lia.
Qed.

Lemma pull_call_verb (self : GitService) (repo_path : string) (branch : option string) :
  git_verb (pull_call self repo_path branch) = "pull".
Proof. apply pull_verb. Qed.

(** When the last call of a run is a pull that exited with another code
    than 0, the result is the one made from its error text. *)
Lemma failed_pull_result (self : GitService) (repo_path : string)
      (branch : option string) (w w' : World) (r : PullResult)
      (during : list Invocation) (p : CompletedProcess) :
  pull_repository self repo_path branch w = (Ret r, w') ->
  invocations w' = pull_call self repo_path branch :: during ++ invocations w ->
  run_oracle w (length (during ++ invocations w)) (pull_call self repo_path branch)
  = Completed p ->
  returncode p <> 0 ->
  exists_on_disk w repo_path = true /\ r = pull_failure p.
Proof.
  intros Hpull Hinv Hor Hrc.
  destruct (exists_on_disk w repo_path) eqn:Hex.
  2:{ rewrite (missing_path_result self repo_path branch w Hex) in Hpull.
      injection Hpull as _ <-.
      exfalso. eapply cons_app_longer, Hinv. }
  split; [reflexivity|].
  destruct (pull_repository_run self repo_path branch w Hex) as (r0 & w0 & Heq & Hrun & _).
  rewrite Heq in Hpull. injection Hpull as <- <-.
  destruct Hrun as [inv rest Hi Hverb _ | e d Hi Hor' _
                    | post d q Hi Hpost Hor' Hrc' _ | d q Hi Hor' _ Hr].
  - rewrite Hi in Hinv. injection Hinv as -> _.
    now rewrite pull_call_verb in Hverb.
  - rewrite Hi in Hinv. injection Hinv as Hd. rewrite Hd in Hor'. congruence.
  - destruct Hpost as [-> | ->]; cbn [app] in Hi; rewrite Hi in Hinv.
    + injection Hinv as Hd. rewrite Hd in Hor'. congruence.
    + injection Hinv as Hpop _.
      apply (f_equal (fun a => nth 1 a "")) in Hpop. rewrite pull_verb in Hpop.
      discriminate.
  - rewrite Hi in Hinv. injection Hinv as Hd. rewrite Hd in Hor'. congruence.
Qed.

(** C10.  The pull of a mapping fails -- it is the last call of the sync and
    exits with another code than 0 -- and its error text contains the word
    conflict in some mix of cases while none of its lines has [CONFLICT]
    followed by [in ] and a path: then [pull_repository] returns a failure
    whose conflicts list is empty, and the pull task, the store taking the
    write, stores [failed] for the mapping, not [conflict]. *)
Theorem unnamed_conflict_stored_as_failed (self : SchedulerService)
        (m : FolderRepoMapping) (w w1 : World) (r : PullResult)
        (during : list Invocation) (p : CompletedProcess) :
  pull_repository (git_service self) (repo_path m) (Some (branch m)) w = (Ret r, w1) ->
  invocations w1
  = pull_call (git_service self) (repo_path m) (Some (branch m)) :: during ++ invocations w ->
  run_oracle w (length (during ++ invocations w))
             (pull_call (git_service self) (repo_path m) (Some (branch m)))
  = Completed p ->
  returncode p <> 0 ->
  occurs_ignoring_case "conflict" (stderr p) ->
  (forall line, In line (PyStr.split PyStr.LF (stderr p)) -> ~ names_conflict_path line) ->
  store_oracle w1 (transactions w1) = None ->
  r = PullResult3 false ("Pull冲突: " +:+ stderr p) []
  /\ exists w2,
      _pull_repository_thread self m w = (Ret tt, w2)
      /\ folder_repo_mappings (store w2)
         = map (set_pull_status (id m) "failed" (current_timestamp w))
               (folder_repo_mappings (store w))
      /\ pull_logs (store w2)
         = pull_logs (store w)
           ++ [mkPullLog (id m) "pull" "failed" (Some ("Pull冲突: " +:+ stderr p))
                         (current_timestamp w)].
Proof.
  intros Hpull Hinv Hor Hrc Hword Hlines Hstore.
  destruct (failed_pull_result _ _ _ _ _ _ _ _ Hpull Hinv Hor Hrc) as [Hex Hr].
  rewrite (pull_failure_without_paths p Hword Hlines) in Hr.
  split; [exact Hr|].
  destruct (thread_stores_rows self m w w1 r Hpull Hstore) as (w2 & Heq & Hrows & Hlogs).
  exists w2. split; [exact Heq|]. rewrite Hrows, Hlogs. subst r. split; reflexivity.
Qed.

Lemma names_path_has_keyword (line : string) :
  names_conflict_path line -> PyStr.str_in "CONFLICT" line = true.
Proof.
  intros (before & between & path & -> & _).
  apply str_in_occurs. now exists before, (between +:+ "in " +:+ path).
Qed.

Example rebase_has_conflict_word : occurs_ignoring_case "conflict" rebase_stderr.
Proof.
  exists (String.substring 0 59 rebase_stderr), "conflict",
         (String.substring 67 34 rebase_stderr).
  split; reflexivity.
Qed.

Example rebase_names_no_path (line : string) :
  In line (PyStr.split PyStr.LF rebase_stderr) -> ~ names_conflict_path line.
Proof.
  intros Hin Hname. apply names_path_has_keyword in Hname.
  vm_compute in Hin. destruct Hin as [<- | [<- | [<- | []]]]; discriminate Hname.
Qed.

Lemma unnamed_conflict_stored_as_failed_witness :
  occurs_ignoring_case "conflict" rebase_stderr
  /\ (forall line, In line (PyStr.split PyStr.LF rebase_stderr) -> ~ names_conflict_path line)
  /\ exists w2,
      _pull_repository_thread scheduler sample_mapping rebase_world = (Ret tt, w2)
      /\ map pull_status (folder_repo_mappings (store w2)) = ["failed"]
      /\ map log_status (pull_logs (store w2)) = ["failed"].
Proof.
  split; [exact rebase_has_conflict_word|]. split; [exact rebase_names_no_path|].
  destruct (unnamed_conflict_stored_as_failed scheduler sample_mapping rebase_world
               (snd (pull_repository service "/repo" (Some "main") rebase_world))
               (PullResult3 false ("Pull冲突: " +:+ rebase_stderr) [])
               (map (fun a => mkInvocation a (Some "/repo") 30)
                    [["git"; "rev-list"; "--count"; "--left-right"; "HEAD...@{u}"];
                     ["git"; "fetch"; "--quiet"];
                     ["git"; "status"; "--porcelain"];
                     ["git"; "rev-parse"; "--is-inside-work-tree"]])
               (mkCompleted 1 "" rebase_stderr))
    as [_ (w2 & Heq & Hrows & Hlogs)].
  - vm_compute. reflexivity.
  - reflexivity.
  - reflexivity.
  - discriminate.
  - exact rebase_has_conflict_word.
  - exact rebase_names_no_path.
  - reflexivity.
  - exists w2. split; [exact Heq|]. rewrite Hrows, Hlogs. repeat split.
Defined.

(** ** Candidate selection *)

Lemma str_mem_failed_conflict (status : string) :
  str_mem status ["failed"; "conflict"] = true
  <-> status = "failed" \/ status = "conflict".
Proof.
  unfold str_mem. cbn [existsb]. rewrite !orb_true_iff, !String.eqb_eq.
  intuition discriminate.
Qed.

Lemma timedelta_in_range (minutes : Z) :
  interval_in_range minutes -> timedelta_minutes minutes = Ret (minutes * 60000000).
Proof.
  unfold interval_in_range, timedelta_minutes. intros [H1 H2].
  apply Z.leb_le in H1, H2. now rewrite H1, H2.
Qed.

Lemma timedelta_out_of_range (minutes : Z) :
  ~ interval_in_range minutes -> exists e, timedelta_minutes minutes = Raise e.
Proof.
  unfold interval_in_range, timedelta_minutes. intros H.
  destruct (-999999999 <=? minutes / 1440) eqn:E1;
    destruct (minutes / 1440 <=? 999999999) eqn:E2; cbn [andb]; eauto.
  apply Z.leb_le in E1, E2. now contradiction H.
Qed.

Lemma read_succeeds (w : World) :
  store_oracle w (transactions w) = None ->
  get_auto_pull_mappings w
  = (Ret (select_auto_pull (store w)), with_store (store w) (S (transactions w)) w).
Proof. intros H. unfold get_auto_pull_mappings. now rewrite H. Qed.

Lemma read_goes_through (w : World) :
  store_fails w (transactions w) 2 = false ->
  get_auto_pull_mappings w
  = (Ret (select_auto_pull (store w)), with_store (store w) (S (transactions w)) w).
Proof.
  unfold store_fails, get_auto_pull_mappings. intros H. rewrite run_statements_cases.
  cbn [length]. destruct (store_oracle w (transactions w)); [rewrite H|]; reflexivity.
Qed.

Lemma select_auto_pull_rows (s : Store) (m : FolderRepoMapping) :
  In m (select_auto_pull s)
  <-> In m (folder_repo_mappings s) /\ auto_pull_enabled m = true.
Proof.
  unfold select_auto_pull. rewrite <- filter_In.
  split; apply Permutation_in; [|symmetry]; apply merge_sort_Permutation.
Qed.

Lemma filter_is_sublist {A} (f : A -> bool) (l : list A) : List.filter f l `sublist_of` l.
Proof.
  induction l as [|x l IH]; cbn [List.filter]; [constructor|].
  destruct (f x); [now apply sublist_skip | now apply sublist_cons].
Qed.

Section Selection.

Variable fromisoformat : string -> outcome Z.

Lemma should_pull_due (now_ pi ri : Z) (m : FolderRepoMapping) :
  (forall text, last_pull_at m = Some text -> exists t, fromisoformat text = Ret t) ->
  should_pull fromisoformat now_ pi ri m = Ret (due_now fromisoformat now_ pi ri m).
Proof.
  intros Hread. unfold should_pull, due_now.
  destruct (last_pull_at m) as [text|]; [|reflexivity].
  destruct (Hread text eq_refl) as [t ->].
  destruct (String.eqb (pull_status m) "success") eqn:E; [|now destruct (str_mem _ _)].
  apply String.eqb_eq in E. now rewrite E.
Qed.

(** With readable timestamps the loop is a filter. *)
Lemma select_pending_filter (now_ pi ri : Z) (all pending : list FolderRepoMapping) :
  (forall m text, In m all -> auto_pull_enabled m = true ->
                  last_pull_at m = Some text -> exists t, fromisoformat text = Ret t) ->
  select_pending fromisoformat now_ pi ri all pending
  = Ret (pending
         ++ List.filter (fun m => auto_pull_enabled m && due_now fromisoformat now_ pi ri m)
                        all).
Proof.
  revert pending. induction all as [|m rest IH]; intros pending Hread;
    cbn [select_pending List.filter].
  - now rewrite app_nil_r.
  - assert (Hrest : forall m' text, In m' rest -> auto_pull_enabled m' = true ->
                      last_pull_at m' = Some text -> exists t, fromisoformat text = Ret t).
    { intros m' text Hin. apply Hread. now right. }
    destruct (auto_pull_enabled m) eqn:En; cbn [negb andb].
    + rewrite should_pull_due by (intros text; apply Hread; [now left | exact En]).
      destruct (due_now fromisoformat now_ pi ri m).
      * rewrite IH by exact Hrest. now rewrite <- app_assoc.
      * now apply IH.
    + now apply IH.
Qed.

Lemma due_now_is_due (cfg : SchedulerConfig) (now_ : Z) (m : FolderRepoMapping) :
  (forall text, last_pull_at m = Some text -> exists t, fromisoformat text = Ret t) ->
  due_now fromisoformat now_ (pull_interval_minutes cfg * 60000000)
          (retry_failed_after_minutes cfg * 60000000) m = true
  <-> is_due fromisoformat cfg now_ m.
Proof.
  intros Hread. unfold due_now, is_due.
  destruct (last_pull_at m) as [text|]; [|intuition].
  destruct (Hread text eq_refl) as [t Ht]. rewrite Ht.
  destruct (str_mem (pull_status m) ["failed"; "conflict"]) eqn:E.
  - apply str_mem_failed_conflict in E. rewrite Z.leb_le. split.
    + intros H. right. exists text, t. repeat split; auto. right. split; [exact E|lia].
    + intros [Hn | (text' & t' & [= <-] & Ht' & [(N1 & N2 & _) | (_ & H)])];
        [discriminate | destruct E; contradiction |].
      rewrite Ht in Ht'. injection Ht' as <-. lia.
  - assert (N : pull_status m <> "failed" /\ pull_status m <> "conflict").
    { split; intros Hs; assert (T : str_mem (pull_status m) ["failed"; "conflict"] = true)
        by (apply str_mem_failed_conflict; auto); congruence. }
    rewrite Z.leb_le. split.
    + intros H. right. exists text, t. repeat split; auto. left.
      destruct N. repeat split; auto. lia.
    + intros [Hn | (text' & t' & [= <-] & Ht' & [(_ & _ & H) | ([F | F] & _)])];
        [discriminate | | destruct N; contradiction | destruct N; contradiction].
      rewrite Ht in Ht'. injection Ht' as <-. lia.
Qed.

(** Whatever the parser does, the loop returns only enabled rows. *)
Lemma select_pending_enabled (now_ pi ri : Z) (all pending selected : list FolderRepoMapping) :
  select_pending fromisoformat now_ pi ri all pending = Ret selected ->
  forall m, In m selected -> In m pending \/ (In m all /\ auto_pull_enabled m = true).
Proof.
  revert pending. induction all as [|row rest IH]; intros pending; cbn [select_pending].
  - intros [= <-] m Hin. now left.
  - destruct (auto_pull_enabled row) eqn:En; cbn [negb].
    + destruct (should_pull fromisoformat now_ pi ri row) as [[|]|e]; [| |discriminate];
        intros H m Hin; destruct (IH _ H m Hin) as [Hp | [Hr He]].
      * apply in_app_or in Hp as [Hp | [<- | []]]; [now left|].
        right. split; [now left | exact En].
      * right. split; [now right | exact He].
      * now left.
      * right. split; [now right | exact He].
    + intros H m Hin. destruct (IH _ H m Hin) as [Hp | [Hr He]]; [now left|].
      right. split; [now right | exact He].
Qed.

(** The loop stops at the first enabled row whose timestamp cannot be
    read. *)
Lemma select_pending_raises (now_ pi ri : Z) (all pending : list FolderRepoMapping)
      (m : FolderRepoMapping) (text : string) (e : exn) :
  In m all -> auto_pull_enabled m = true ->
  last_pull_at m = Some text -> fromisoformat text = Raise e ->
  exists e', select_pending fromisoformat now_ pi ri all pending = Raise e'.
Proof.
  intros Hin Hen Hlast Hbad. revert pending.
  induction all as [|r rest IH]; intros pending; [contradiction|].
  cbn [select_pending].
  destruct (auto_pull_enabled r) eqn:Hr; cbn [negb].
  - destruct (should_pull fromisoformat now_ pi ri r) as [[|]|e'] eqn:Hs; eauto.
    + destruct Hin as [-> | Hin]; [|now apply IH].
      unfold should_pull in Hs. rewrite Hlast, Hbad in Hs. discriminate.
    + destruct Hin as [-> | Hin]; [|now apply IH].
      unfold should_pull in Hs. rewrite Hlast, Hbad in Hs. discriminate.
  - destruct Hin as [-> | Hin]; [congruence | now apply IH].
Qed.

(** One cause is enough for the selection to come out empty. *)
Lemma selection_comes_out_empty (self : SchedulerService) (w : World) :
  store_fails w (transactions w) 2 = true
  \/ ~ interval_in_range (pull_interval_minutes (config self))
  \/ ~ interval_in_range (retry_failed_after_minutes (config self))
  \/ (exists m text e,
        In m (folder_repo_mappings (store w)) /\ auto_pull_enabled m = true
        /\ last_pull_at m = Some text /\ fromisoformat text = Raise e) ->
  _get_pending_mappings fromisoformat self w
  = (Ret [], with_store (store w) (S (transactions w)) w).
Proof.
  intros Hcause.
  unfold _get_pending_mappings, try_except, bind at 1, get_auto_pull_mappings.
  rewrite run_statements_cases. cbn [length fold_left].
  assert (Hread :
    ~ interval_in_range (pull_interval_minutes (config self))
    \/ ~ interval_in_range (retry_failed_after_minutes (config self))
    \/ (exists m text e,
          In m (folder_repo_mappings (store w)) /\ auto_pull_enabled m = true
          /\ last_pull_at m = Some text /\ fromisoformat text = Raise e)
    -> (let (o, w') :=
          (let* now_ := datetime_now in
           let* pull_interval :=
             lift_outcome (timedelta_minutes (pull_interval_minutes (config self))) in
           let* retry_interval :=
             lift_outcome (timedelta_minutes (retry_failed_after_minutes (config self))) in
           lift_outcome (select_pending fromisoformat now_ pull_interval retry_interval
                           (select_auto_pull (store w)) []))
            (with_store (store w) (S (transactions w)) w) in
        match o with
        | Ret a => (Ret a, w')
        | Raise _ => ret [] w'
        end)
       = (Ret [], with_store (store w) (S (transactions w)) w)).
  { intros Hc. unfold bind at 1, datetime_now. unfold bind at 1, lift_outcome at 1.
    destruct (timedelta_minutes (pull_interval_minutes (config self))) as [pi|e1] eqn:E1;
      [|reflexivity].
    unfold bind at 1, lift_outcome at 1.
    destruct (timedelta_minutes (retry_failed_after_minutes (config self))) as [ri|e2] eqn:E2;
      [|reflexivity].
    unfold lift_outcome.
    destruct Hc as [H | [H | (m & text & e & Hin & Hen & Hlast & Hbad)]].
    - apply timedelta_out_of_range in H as [e He]. congruence.
    - apply timedelta_out_of_range in H as [e He]. congruence.
    - destruct (select_pending_raises (now (with_store (store w) (S (transactions w)) w))
                  pi ri (select_auto_pull (store w)) [] m text e) as [e' ->]; auto.
      apply select_auto_pull_rows. now split. }
  unfold store_fails in Hcause.
  destruct (store_oracle w (transactions w)) as [k|].
  - destruct (k <=? 2)%nat; [reflexivity|].
    apply Hread. destruct Hcause as [H | H]; [discriminate | exact H].
  - apply Hread. destruct Hcause as [H | H]; [discriminate | exact H].
Qed.

(** The selection always returns, having read the store and written
    nothing. *)
Lemma pending_returns (self : SchedulerService) (w : World) :
  exists pending,
    _get_pending_mappings fromisoformat self w
    = (Ret pending, with_store (store w) (S (transactions w)) w)
    /\ forall m, In m pending ->
                 In m (folder_repo_mappings (store w)) /\ auto_pull_enabled m = true.
Proof.
  unfold _get_pending_mappings, try_except, bind at 1, get_auto_pull_mappings.
  destruct (run_statements _ _ _) as [s|e] eqn:Hread.
  2:{ exists []. split; [reflexivity|]. intros m []. }
  unfold bind at 1, datetime_now. unfold bind at 1, lift_outcome at 1.
  destruct (timedelta_minutes (pull_interval_minutes (config self))) as [pi|e].
  2:{ exists []. split; [reflexivity|]. intros m []. }
  unfold bind at 1, lift_outcome at 1.
  destruct (timedelta_minutes (retry_failed_after_minutes (config self))) as [ri|e].
  2:{ exists []. split; [reflexivity|]. intros m []. }
  unfold lift_outcome.
  destruct (select_pending _ _ _ _ _ _) as [selected|e] eqn:Hsel.
  2:{ exists []. split; [reflexivity|]. intros m []. }
  exists selected. split; [reflexivity|].
  intros m Hin. destruct (select_pending_enabled _ _ _ _ _ _ Hsel m Hin) as [[] | [Hrow _]].
  apply run_statements_all in Hread. cbn in Hread. subst s.
  now apply select_auto_pull_rows.
Qed.

(** C1, as the code has it.  [_get_pending_mappings] always returns a list,
    of rows of the store that are enabled: a row that is switched off is
    never selected.  When the store answers the read, the two intervals are
    spans a [timedelta] holds, and the last-pull texts of the enabled rows
    are timestamps the parser reads, the list is, in the order of the query,
    exactly the rows that are enabled and due -- never pulled, or pulled at
    least [pull_interval_minutes] ago (the bound included) when the status is
    neither [failed] nor [conflict], or at least [retry_failed_after_minutes]
    ago when it is one of them.  In every other case -- the store cannot be
    read, an interval is out of the range of [timedelta], or one enabled row
    has a last-pull text the parser refuses -- the list is empty: no row is
    selected, the never pulled ones included.  The selection writes nothing
    to the store. *)
Theorem pending_are_the_due (self : SchedulerService) (w : World) :
  exists pending w',
    _get_pending_mappings fromisoformat self w = (Ret pending, w')
    /\ store w' = store w
    /\ (forall m, In m pending ->
                  In m (folder_repo_mappings (store w)) /\ auto_pull_enabled m = true)
    /\ (store_fails w (transactions w) 2 = false ->
        interval_in_range (pull_interval_minutes (config self)) ->
        interval_in_range (retry_failed_after_minutes (config self)) ->
        timestamps_readable fromisoformat (store w) ->
        pending `sublist_of` select_auto_pull (store w)
        /\ (forall m,
              In m pending
              <-> In m (folder_repo_mappings (store w))
                  /\ auto_pull_enabled m = true
                  /\ is_due fromisoformat (config self) (now w) m)
        /\ (forall m, last_pull_at m = None ->
                      In m (folder_repo_mappings (store w)) ->
                      auto_pull_enabled m = true -> In m pending))
    /\ (store_fails w (transactions w) 2 = true
        \/ ~ interval_in_range (pull_interval_minutes (config self))
        \/ ~ interval_in_range (retry_failed_after_minutes (config self))
        \/ (exists m text e,
              In m (folder_repo_mappings (store w)) /\ auto_pull_enabled m = true
              /\ last_pull_at m = Some text /\ fromisoformat text = Raise e) ->
        pending = []).
Proof.
  destruct (pending_returns self w) as (pending & Heq & Hen).
  exists pending, (with_store (store w) (S (transactions w)) w).
  split; [exact Heq|]. split; [reflexivity|]. split; [exact Hen|].
  split.
  2:{ intros Hcause. rewrite (selection_comes_out_empty self w Hcause) in Heq.
      now injection Heq as <-. }
  intros Hstore Hpi Hri Hread.
  assert (Hread' : forall m text, In m (select_auto_pull (store w)) ->
                     auto_pull_enabled m = true -> last_pull_at m = Some text ->
                     exists t, fromisoformat text = Ret t).
  { intros m text Hin. apply select_auto_pull_rows in Hin as [Hin _]. now apply Hread. }
  assert (Hmem : forall m,
             In m (List.filter
                     (fun m => auto_pull_enabled m
                               && due_now fromisoformat (now w)
                                    (pull_interval_minutes (config self) * 60000000)
                                    (retry_failed_after_minutes (config self) * 60000000) m)
                     (select_auto_pull (store w)))
             <-> In m (folder_repo_mappings (store w))
                 /\ auto_pull_enabled m = true
                 /\ is_due fromisoformat (config self) (now w) m).
  { intros m. rewrite filter_In, select_auto_pull_rows, andb_true_iff. split.
    - intros ((Hin & En) & _ & Hdue). repeat split; auto.
      apply due_now_is_due; auto. intros text. now apply Hread.
    - intros (Hin & En & Hdue). repeat split; auto.
      apply due_now_is_due; auto. intros text. now apply Hread. }
  assert (Hsel : pending
                 = List.filter
                     (fun m => auto_pull_enabled m
                               && due_now fromisoformat (now w)
                                    (pull_interval_minutes (config self) * 60000000)
                                    (retry_failed_after_minutes (config self) * 60000000) m)
                     (select_auto_pull (store w))).
  { revert Heq.
    unfold _get_pending_mappings, try_except, bind at 1.
    rewrite (read_goes_through w Hstore).
    unfold bind at 1, datetime_now. unfold bind at 1, lift_outcome at 1.
    rewrite (timedelta_in_range _ Hpi).
    unfold bind at 1, lift_outcome at 1. rewrite (timedelta_in_range _ Hri).
    unfold lift_outcome. cbn [now with_store].
    rewrite (select_pending_filter _ _ _ _ _ Hread'). cbn [app]. congruence. }
  rewrite Hsel.
  split; [apply filter_is_sublist|]. split; [exact Hmem|].
  intros m Hnone Hin En. apply Hmem. repeat split; auto. now left.
Qed.

End Selection.

Example due_rows_readable : timestamps_readable Iso.fromisoformat (store due_world).
Proof.
  intros m text Hin _ Htext. cbn in Hin.
  destruct Hin as [<- | [<- | [<- | [<- | [<- | []]]]]]; cbn in Htext;
    try discriminate; injection Htext as <-; eexists; vm_compute; reflexivity.
Qed.

Lemma pending_are_the_due_witness :
  store_fails due_world (transactions due_world) 2 = false
  /\ interval_in_range (pull_interval_minutes (config scheduler))
  /\ interval_in_range (retry_failed_after_minutes (config scheduler))
  /\ timestamps_readable Iso.fromisoformat (store due_world)
  /\ exists pending w',
      _get_pending_mappings Iso.fromisoformat scheduler due_world = (Ret pending, w')
      /\ In (row 2 None "pending" true) pending
      /\ ~ In (row 5 None "pending" false) pending
      /\ map id pending = [Some 2; Some 3].
Proof.
  assert (Hpi : interval_in_range (pull_interval_minutes (config scheduler)))
    by (unfold interval_in_range; split; apply Z.leb_le; reflexivity).
  assert (Hri : interval_in_range (retry_failed_after_minutes (config scheduler)))
    by (unfold interval_in_range; split; apply Z.leb_le; reflexivity).
  split; [reflexivity|]. split; [exact Hpi|]. split; [exact Hri|].
  split; [exact due_rows_readable|].
  destruct (pending_are_the_due Iso.fromisoformat scheduler due_world)
    as (pending & w' & Heq & _ & Hen & Hdue & _).
  destruct (Hdue eq_refl Hpi Hri due_rows_readable) as (_ & _ & Hnever).
  exists pending, w'. split; [exact Heq|]. split.
  { apply Hnever; [reflexivity | cbn; auto | reflexivity]. }
  split.
  { intros Hin. apply Hen in Hin as [_ Hon]. discriminate Hon. }
  assert (Hc : fst (_get_pending_mappings Iso.fromisoformat scheduler due_world)
               = Ret [row 2 None "pending" true;
                      row 3 (Some "2024-03-01 10:00:00") "success" true])
    by (vm_compute; reflexivity).
  rewrite Heq in Hc. cbn [fst] in Hc. injection Hc as ->. reflexivity.
Defined.

(** C1 as stated fails: a row that was never pulled is to be selected
    whatever the intervals are, but with an interval of more than 999999999
    days [timedelta] raises and the handler returns the empty list; and so
    it does when another enabled row has a last-pull text that is no
    timestamp.  In both runs the row is in the store, enabled and without a
    last pull. *)
Lemma never_pulled_row_passed_over :
  In (row 2 None "pending" true) (folder_repo_mappings (store due_world))
  /\ In (row 2 None "pending" true) (folder_repo_mappings (store unreadable_world))
  /\ auto_pull_enabled (row 2 None "pending" true) = true
  /\ last_pull_at (row 2 None "pending" true) = None
  /\ fst (_get_pending_mappings Iso.fromisoformat endless_scheduler due_world) = Ret []
  /\ fst (_get_pending_mappings Iso.fromisoformat scheduler unreadable_world) = Ret [].
Proof.
  split; [cbn; auto|]. split; [cbn; auto|]. split; [reflexivity|]. split; [reflexivity|].
  split; vm_compute; reflexivity.
Qed.

(** What the conditions of the selection exclude: one last-pull text the
    parser refuses, or an interval no [timedelta] holds, and the handler
    returns the empty list, whatever is due. *)
Example unreadable_timestamp_selects_none :
  fst (_get_pending_mappings Iso.fromisoformat scheduler unreadable_world) = Ret [].
Proof. vm_compute. reflexivity. Qed.

Example endless_interval_selects_none :
  fst (_get_pending_mappings Iso.fromisoformat endless_scheduler due_world) = Ret [].
Proof. vm_compute. reflexivity. Qed.

(** * More of the code *)

(** ** Splitting and joining lines *)

Lemma join_cons (sep x : string) (l : list string) :
  l <> [] -> PyStr.join sep (x :: l) = x +:+ sep +:+ PyStr.join sep l.
Proof. destruct l; [congruence | reflexivity]. Qed.

(** Joining the lines of a text gives the text back. *)
Lemma join_split (s : string) : PyStr.join PyStr.nl (PyStr.split PyStr.LF s) = s.
Proof.
  induction s as [|a s IH]; [reflexivity|].
  cbn [PyStr.split]. pose proof (split_nonempty PyStr.LF s) as Hne.
  destruct (Ascii.eqb a PyStr.LF) eqn:E.
  - apply Ascii.eqb_eq in E. subst a. rewrite join_cons by exact Hne. now rewrite IH.
  - destruct (PyStr.split PyStr.LF s) as [|h t]; [congruence|].
    destruct t as [|y l].
    + cbn in IH |- *. now rewrite IH.
    + rewrite join_cons by discriminate. rewrite join_cons in IH by discriminate.
      rewrite <- IH. reflexivity.
Qed.

Lemma split_plain (c : ascii) (a : string) :
  has_char c a = false -> PyStr.split c a = [a].
Proof.
  induction a as [|x a IH]; [reflexivity|].
  cbn [has_char PyStr.split]. intros H. apply orb_false_elim in H as [Hx Ha].
  now rewrite Hx, IH.
Qed.

Lemma append_nil (s : string) : "" +:+ s = s.
Proof. reflexivity. Qed.

Lemma append_cons (a : ascii) (x y : string) : String a x +:+ y = String a (x +:+ y).
Proof. reflexivity. Qed.

Lemma split_at (c : ascii) (a b : string) :
  has_char c a = false -> PyStr.split c (a +:+ String c b) = a :: PyStr.split c b.
Proof.
  induction a as [|x a IH]; rewrite ?append_nil, ?append_cons; cbn [has_char PyStr.split].
  - intros _. now rewrite Ascii.eqb_refl.
  - intros H. apply orb_false_elim in H as [Hx Ha]. now rewrite Hx, IH.
Qed.

Lemma split_fields_plain (c : ascii) (s : string) :
  Forall (fun l => has_char c l = false) (PyStr.split c s).
Proof.
  induction s as [|a s IH]; cbn [PyStr.split]; [repeat constructor|].
  destruct (Ascii.eqb a c) eqn:E; [now constructor|].
  destruct (PyStr.split c s) as [|h t]; [repeat constructor; cbn; now rewrite E|].
  inversion IH; subst. constructor; [|assumption]. cbn. now rewrite E.
Qed.

(** Splitting the join of lines that hold no line feed gives the lines
    back, when there is at least one. *)
Lemma split_join (ls : list string) :
  ls <> [] -> Forall (fun l => has_char PyStr.LF l = false) ls ->
  PyStr.split PyStr.LF (PyStr.join PyStr.nl ls) = ls.
Proof.
  induction ls as [|x ls IH]; [congruence|].
  intros _ Hall. inversion Hall as [|? ? Hx Hls]; subst.
  destruct ls as [|y l].
  - cbn. now apply split_plain.
  - rewrite join_cons by discriminate. unfold PyStr.nl at 1.
    rewrite append_cons, append_nil, split_at by exact Hx. now rewrite IH.
Qed.

(** ** The line loops of [keep_remote] and [keep_both] *)

Lemma keep_remote_step_adds (st : ScanState) (line : string) :
  resolved_lines (keep_remote_step st line) = resolved_lines st
  \/ (is_marker line = false
      /\ resolved_lines (keep_remote_step st line) = resolved_lines st ++ [line]).
Proof.
  unfold keep_remote_step, is_marker.
  destruct (PyStr.startswith line start_marker); [now left|].
  destruct (PyStr.startswith line separator_marker); [now left|].
  destruct (PyStr.startswith line end_marker); [now left|].
  destruct (in_conflict st), (in_remote_section st); cbn; auto.
Qed.

Lemma keep_remote_fold_adds (lines : list string) (st : ScanState) :
  exists out,
    resolved_lines (fold_left keep_remote_step lines st) = resolved_lines st ++ out
    /\ out `sublist_of` lines
    /\ Forall (fun l => is_marker l = false) out.
Proof.
  revert st. induction lines as [|line rest IH]; intros st; cbn [fold_left].
  - exists []. rewrite app_nil_r. repeat split; constructor.
  - destruct (IH (keep_remote_step st line)) as (out & Hres & Hsub & Hall).
    destruct (keep_remote_step_adds st line) as [Hsame | [Hline Hadd]].
    + exists out. rewrite Hres, Hsame. repeat split; [|exact Hall].
      now apply sublist_cons.
    + exists (line :: out). rewrite Hres, Hadd, <- app_assoc.
      repeat split; [now apply sublist_skip | now constructor].
Qed.

(** Before the separator, [keep_remote] drops the plain lines of a region. *)
Lemma keep_remote_local_run (ls : list string) (st : ScanState) :
  Forall (fun l => is_marker l = false) ls ->
  in_conflict st = true -> in_remote_section st = false ->
  fold_left keep_remote_step ls st = st.
Proof.
  intros Hall. revert st. induction Hall as [|l ls Hl _ IH]; intros st Hc Hr; cbn [fold_left].
  - reflexivity.
  - apply is_marker_false in Hl as (H1 & H2 & H3).
    unfold keep_remote_step at 2. rewrite H1, H2, H3, Hc, Hr. cbn [negb andb].
    now apply IH.
Qed.

(** After the separator it keeps them. *)
Lemma keep_remote_remote_run (ls : list string) (st : ScanState) :
  Forall (fun l => is_marker l = false) ls ->
  in_conflict st = true -> in_remote_section st = true ->
  fold_left keep_remote_step ls st
  = mkScanState (resolved_lines st ++ ls) true true (local_lines st) (remote_lines st).
Proof.
  intros Hall. revert st. induction Hall as [|l ls Hl _ IH]; intros st Hc Hr; cbn [fold_left].
  - rewrite app_nil_r. destruct st; cbn in *; now subst.
  - apply is_marker_false in Hl as (H1 & H2 & H3).
    unfold keep_remote_step at 2. rewrite H1, H2, H3, Hc, Hr. cbn [negb andb].
    rewrite IH by reflexivity. cbn. now rewrite <- app_assoc.
Qed.

Lemma keep_remote_segment (seg : segment) (st : ScanState) :
  well_delimited seg ->
  in_conflict st = false -> in_remote_section st = false ->
  fold_left keep_remote_step (segment_lines seg) st
  = mkScanState (resolved_lines st ++ remote_side seg) false false
                (local_lines st) (remote_lines st).
Proof.
  intros Hwf Hc Hr. destruct seg as [line | s lo m re e]; cbn [segment_lines remote_side].
  - cbn in Hwf. apply is_marker_false in Hwf as (H1 & H2 & H3).
    cbn [fold_left]. unfold keep_remote_step. rewrite H1, H2, H3, Hc, Hr. reflexivity.
  - destruct Hwf as (Hs & Hlo & Hm & Hre & He).
    cbn [fold_left]. unfold keep_remote_step at 2. rewrite Hs.
    rewrite fold_left_app, (keep_remote_local_run lo) by (reflexivity || assumption).
    cbn [fold_left]. unfold keep_remote_step at 2.
    rewrite (separator_is_not_start m Hm), Hm. cbn [resolved_lines in_conflict local_lines remote_lines].
    rewrite fold_left_app, (keep_remote_remote_run re) by (reflexivity || assumption).
    cbn [fold_left]. unfold keep_remote_step.
    destruct (end_is_not_start e He) as [E1 E2]. rewrite E1, E2, He. reflexivity.
Qed.

Lemma keep_remote_document (segs : list segment) (st : ScanState) :
  Forall well_delimited segs ->
  in_conflict st = false -> in_remote_section st = false ->
  resolved_lines (fold_left keep_remote_step (document_lines segs) st)
  = resolved_lines st ++ flat_map remote_side segs.
Proof.
  intros Hall. revert st. induction Hall as [|seg segs Hseg _ IH]; intros st Hc Hr.
  - cbn. now rewrite app_nil_r.
  - unfold document_lines. cbn [flat_map]. fold (document_lines segs).
    rewrite fold_left_app, (keep_remote_segment seg) by assumption.
    rewrite IH by reflexivity. cbn. now rewrite <- app_assoc.
Qed.

(** X1.  Whatever the content, the lines [_resolve_keep_remote] writes are
    lines of the input in the order of the input, none of which starts with
    one of the three markers; when the markers stand only at the beginning,
    the turn and the end of regions, they are exactly the lines outside the
    regions and the remote lines of each region. *)
Theorem keep_remote_selects_lines (content : string) :
  keep_remote_lines content `sublist_of` PyStr.split PyStr.LF content
  /\ Forall (fun l => is_marker l = false) (keep_remote_lines content)
  /\ forall segs,
      PyStr.split PyStr.LF content = document_lines segs ->
      Forall well_delimited segs ->
      keep_remote_lines content = flat_map remote_side segs.
Proof.
  unfold keep_remote_lines.
  destruct (keep_remote_fold_adds (PyStr.split PyStr.LF content) initial_state)
    as (out & Hres & Hsub & Hall).
  cbn [resolved_lines initial_state app] in Hres. rewrite Hres.
  split; [exact Hsub|]. split; [exact Hall|].
  intros segs Hdoc Hwf. rewrite <- Hres, Hdoc. now rewrite keep_remote_document.
Qed.

Lemma keep_remote_selects_lines_witness :
  PyStr.split PyStr.LF sample_conflict
  = document_lines [Region "<<<<<<< HEAD" ["A"] "=======" ["B"] ">>>>>>> x"; Plain ""]
  /\ keep_remote_lines sample_conflict = ["B"; ""].
Proof.
  assert (Hwf : Forall well_delimited
                  [Region "<<<<<<< HEAD" ["A"] "=======" ["B"] ">>>>>>> x"; Plain ""]).
  { repeat constructor. }
  split; [reflexivity|].
  exact (proj2 (proj2 (keep_remote_selects_lines sample_conflict))
               [Region "<<<<<<< HEAD" ["A"] "=======" ["B"] ">>>>>>> x"; Plain ""]
               eq_refl Hwf).
Defined.

(** Inside a region [keep_both] collects the plain lines, before the
    separator as local and after it as remote. *)
Lemma keep_both_local_run (ls : list string) (st : ScanState) :
  Forall (fun l => is_marker l = false) ls ->
  in_conflict st = true -> in_remote_section st = false ->
  fold_left keep_both_step ls st
  = mkScanState (resolved_lines st) true false (local_lines st ++ ls) (remote_lines st).
Proof.
  intros Hall. revert st. induction Hall as [|l ls Hl _ IH]; intros st Hc Hr; cbn [fold_left].
  - rewrite app_nil_r. destruct st; cbn in *; now subst.
  - apply is_marker_false in Hl as (H1 & H2 & H3).
    unfold keep_both_step at 2. rewrite H1, H2, H3, Hc, Hr. cbn [negb andb].
    rewrite IH by reflexivity. cbn. now rewrite <- app_assoc.
Qed.

Lemma keep_both_remote_run (ls : list string) (st : ScanState) :
  Forall (fun l => is_marker l = false) ls ->
  in_conflict st = true -> in_remote_section st = true ->
  fold_left keep_both_step ls st
  = mkScanState (resolved_lines st) true true (local_lines st) (remote_lines st ++ ls).
Proof.
  intros Hall. revert st. induction Hall as [|l ls Hl _ IH]; intros st Hc Hr; cbn [fold_left].
  - rewrite app_nil_r. destruct st; cbn in *; now subst.
  - apply is_marker_false in Hl as (H1 & H2 & H3).
    unfold keep_both_step at 2. rewrite H1, H2, H3, Hc, Hr. cbn [negb andb].
    rewrite IH by reflexivity. cbn. now rewrite <- app_assoc.
Qed.

Lemma keep_both_segment (seg : segment) (st : ScanState) :
  well_delimited seg -> in_conflict st = false ->
  resolved_lines (fold_left keep_both_step (segment_lines seg) st)
  = resolved_lines st ++ both_sides seg
  /\ in_conflict (fold_left keep_both_step (segment_lines seg) st) = false.
Proof.
  intros Hwf Hc. destruct seg as [line | s lo m re e]; cbn [segment_lines both_sides].
  - cbn in Hwf. apply is_marker_false in Hwf as (H1 & H2 & H3).
    cbn [fold_left]. unfold keep_both_step. rewrite H1, H2, H3, Hc. split; reflexivity.
  - destruct Hwf as (Hs & Hlo & Hm & Hre & He).
    cbn [fold_left]. unfold keep_both_step at 2 4. rewrite Hs.
    rewrite !fold_left_app, (keep_both_local_run lo) by (reflexivity || assumption).
    cbn [fold_left]. unfold keep_both_step at 2 4.
    rewrite (separator_is_not_start m Hm), Hm.
    cbn [resolved_lines in_conflict local_lines remote_lines in_remote_section].
    rewrite !fold_left_app, (keep_both_remote_run re) by (reflexivity || assumption).
    cbn [fold_left]. unfold keep_both_step.
    destruct (end_is_not_start e He) as [E1 E2]. rewrite E1, E2, He.
    cbn [resolved_lines in_conflict local_lines remote_lines in_remote_section].
    split; [|reflexivity]. rewrite <- !app_assoc. reflexivity.
Qed.

Lemma keep_both_document (segs : list segment) (st : ScanState) :
  Forall well_delimited segs -> in_conflict st = false ->
  resolved_lines (fold_left keep_both_step (document_lines segs) st)
  = resolved_lines st ++ flat_map both_sides segs.
Proof.
  intros Hall. revert st. induction Hall as [|seg segs Hseg _ IH]; intros st Hc.
  - cbn. now rewrite app_nil_r.
  - unfold document_lines. cbn [flat_map]. fold (document_lines segs).
    rewrite fold_left_app.
    destruct (keep_both_segment seg st Hseg Hc) as [Hres Hin].
    rewrite IH by exact Hin. rewrite Hres. now rewrite <- app_assoc.
Qed.

(** What [keep_both] holds at any time is made of its own four comment lines
    and of lines of the input that start with no marker. *)
Lemma keep_both_fold_lines (all lines : list string) (st : ScanState) :
  let P := fun l => In l generated_lines \/ (In l all /\ is_marker l = false) in
  (forall l, In l lines -> In l all) ->
  Forall P (resolved_lines st) -> Forall P (local_lines st) -> Forall P (remote_lines st) ->
  Forall P (resolved_lines (fold_left keep_both_step lines st)).
Proof.
  intros P. revert st. induction lines as [|line rest IH]; intros st Hin Hres Hlo Hre.
  - exact Hres.
  - cbn [fold_left].
    assert (Hrest : forall l, In l rest -> In l all) by (intros l Hl; apply Hin; now right).
    assert (Hline : In line all) by (apply Hin; now left).
    assert (Hgen : forall l, In l generated_lines -> P l) by (intros l Hl; now left).
    unfold keep_both_step.
    destruct (PyStr.startswith line start_marker) eqn:E1.
    { apply IH; cbn; try assumption; try constructor.
      apply Forall_app; split; [assumption|].
      repeat constructor; apply Hgen; cbn; auto. }
    destruct (PyStr.startswith line separator_marker) eqn:E2.
    { apply IH; cbn; try assumption.
      repeat (apply Forall_app; split); try assumption.
      repeat constructor; apply Hgen; cbn; auto. }
    destruct (PyStr.startswith line end_marker) eqn:E3.
    { apply IH; cbn; try assumption.
      repeat (apply Forall_app; split); try assumption.
      repeat constructor; apply Hgen; cbn; auto 10. }
    assert (Pl : P line).
    { right. split; [assumption|]. unfold is_marker. now rewrite E1, E2, E3. }
    destruct (in_conflict st), (in_remote_section st); cbn [negb andb];
      apply IH; cbn; try assumption;
      apply Forall_app; split; try assumption; (constructor; [exact Pl | constructor]).
Qed.

(** X2.  Every line [_resolve_keep_both] writes is one of its four comment
    lines or a line of the input that starts with no marker; when the
    markers stand only at the beginning, the turn and the end of regions,
    each region is replaced by the heading, the local lines, the second
    heading, the remote lines and the closing line, in this order, and the
    lines outside the regions are kept. *)
Theorem keep_both_brackets_regions (content : string) :
  Forall (fun l => In l generated_lines
                   \/ (In l (PyStr.split PyStr.LF content) /\ is_marker l = false))
         (keep_both_lines content)
  /\ forall segs,
      PyStr.split PyStr.LF content = document_lines segs ->
      Forall well_delimited segs ->
      keep_both_lines content = flat_map both_sides segs.
Proof.
  unfold keep_both_lines. split.
  - apply (keep_both_fold_lines (PyStr.split PyStr.LF content)); auto; constructor.
  - intros segs Hdoc Hwf. rewrite Hdoc. now rewrite keep_both_document.
Qed.

Lemma keep_both_brackets_regions_witness :
  PyStr.split PyStr.LF sample_conflict
  = document_lines [Region "<<<<<<< HEAD" ["A"] "=======" ["B"] ">>>>>>> x"; Plain ""]
  /\ keep_both_lines sample_conflict
     = ["# ============ 合并冲突 ============"; "# 本地版本:"; "A";
        "# 远程版本:"; "B"; "# ================================"; ""].
Proof.
  assert (Hwf : Forall well_delimited
                  [Region "<<<<<<< HEAD" ["A"] "=======" ["B"] ">>>>>>> x"; Plain ""]).
  { repeat constructor. }
  split; [reflexivity|].
  exact (proj2 (keep_both_brackets_regions sample_conflict)
               [Region "<<<<<<< HEAD" ["A"] "=======" ["B"] ">>>>>>> x"; Plain ""]
               eq_refl Hwf).
Defined.

(** ** Resolving what was resolved *)

Lemma Forall_of_sublist {A} (P : A -> Prop) (l1 l2 : list A) :
  l1 `sublist_of` l2 -> Forall P l2 -> Forall P l1.
Proof.
  induction 1 as [|x l1 l2 _ IH|x l1 l2 _ IH]; intros Hall.
  - constructor.
  - inversion Hall; subst. constructor; auto.
  - inversion Hall; subst. auto.
Qed.

Section PlainRun.
Variable step : ScanState -> string -> ScanState.
Hypothesis step_plain : forall st line,
  is_marker line = false -> in_conflict st = false ->
  resolved_lines (step st line) = resolved_lines st ++ [line]
  /\ in_conflict (step st line) = false.

(** Outside a region a loop keeps the lines that start with no marker. *)
Lemma plain_run (ls : list string) (st : ScanState) :
  Forall (fun l => is_marker l = false) ls -> in_conflict st = false ->
  resolved_lines (fold_left step ls st) = resolved_lines st ++ ls.
Proof.
  intros Hall. revert st. induction Hall as [|l ls Hl _ IH]; intros st Hc; cbn [fold_left].
  - now rewrite app_nil_r.
  - destruct (step_plain st l Hl Hc) as [Hres Hc']. rewrite IH by exact Hc'.
    rewrite Hres. now rewrite <- app_assoc.
Qed.
End PlainRun.

Lemma keep_local_step_plain (st : ScanState) (line : string) :
  is_marker line = false -> in_conflict st = false ->
  resolved_lines (keep_local_step st line) = resolved_lines st ++ [line]
  /\ in_conflict (keep_local_step st line) = false.
Proof.
  intros Hl Hc. apply is_marker_false in Hl as (H1 & H2 & H3).
  unfold keep_local_step. rewrite H1, H2, H3, Hc. split; reflexivity.
Qed.

Lemma keep_remote_step_plain (st : ScanState) (line : string) :
  is_marker line = false -> in_conflict st = false ->
  resolved_lines (keep_remote_step st line) = resolved_lines st ++ [line]
  /\ in_conflict (keep_remote_step st line) = false.
Proof.
  intros Hl Hc. apply is_marker_false in Hl as (H1 & H2 & H3).
  unfold keep_remote_step. rewrite H1, H2, H3, Hc. split; reflexivity.
Qed.

Lemma keep_both_step_plain (st : ScanState) (line : string) :
  is_marker line = false -> in_conflict st = false ->
  resolved_lines (keep_both_step st line) = resolved_lines st ++ [line]
  /\ in_conflict (keep_both_step st line) = false.
Proof.
  intros Hl Hc. apply is_marker_false in Hl as (H1 & H2 & H3).
  unfold keep_both_step. rewrite H1, H2, H3, Hc. split; reflexivity.
Qed.

Lemma generated_lines_plain :
  Forall (fun l => is_marker l = false /\ has_char PyStr.LF l = false) generated_lines.
Proof. repeat constructor. Qed.

(** The lines a strategy keeps start with no marker and hold no line feed. *)
Lemma strategy_lines_plain (file_path strategy content : string) :
  Forall (fun l => is_marker l = false) (strategy_lines file_path strategy content)
  /\ Forall (fun l => has_char PyStr.LF l = false) (strategy_lines file_path strategy content).
Proof.
  assert (Hlocal : Forall (fun l => is_marker l = false) (keep_local_lines content)
                   /\ Forall (fun l => has_char PyStr.LF l = false) (keep_local_lines content)).
  { unfold keep_local_lines.
    destruct (keep_local_fold_adds (PyStr.split PyStr.LF content) initial_state)
      as (out & Hres & Hsub & Hall).
    cbn [resolved_lines initial_state app] in Hres. rewrite Hres. split; [exact Hall|].
    exact (Forall_of_sublist _ _ _ Hsub (split_fields_plain PyStr.LF content)). }
  assert (Hremote : Forall (fun l => is_marker l = false) (keep_remote_lines content)
                   /\ Forall (fun l => has_char PyStr.LF l = false) (keep_remote_lines content)).
  { unfold keep_remote_lines.
    destruct (keep_remote_fold_adds (PyStr.split PyStr.LF content) initial_state)
      as (out & Hres & Hsub & Hall).
    cbn [resolved_lines initial_state app] in Hres. rewrite Hres. split; [exact Hall|].
    exact (Forall_of_sublist _ _ _ Hsub (split_fields_plain PyStr.LF content)). }
  assert (Hboth : Forall (fun l => is_marker l = false) (keep_both_lines content)
                   /\ Forall (fun l => has_char PyStr.LF l = false) (keep_both_lines content)).
  { pose proof (keep_both_fold_lines (PyStr.split PyStr.LF content)
                  (PyStr.split PyStr.LF content) initial_state) as H.
    cbv zeta in H. specialize (H (fun _ Hl => Hl)).
    cbn [resolved_lines local_lines remote_lines initial_state] in H.
    specialize (H ltac:(constructor) ltac:(constructor) ltac:(constructor)).
    fold (keep_both_lines content) in H.
    pose proof (split_fields_plain PyStr.LF content) as Hlf.
    rewrite List.Forall_forall in Hlf.
    pose proof generated_lines_plain as Hgen. rewrite List.Forall_forall in Hgen.
    split; eapply Forall_impl; try exact H; cbv beta.
    - intros l [Hg | [_ Hm]]; [|exact Hm]. now apply Hgen.
    - intros l [Hg | [Hl _]]; [|now apply Hlf]. now apply Hgen. }
  unfold strategy_lines.
  destruct (String.eqb strategy "smart_merge").
  - destruct (str_mem _ config_files); assumption.
  - destruct (String.eqb strategy "keep_local"); [assumption|].
    destruct (String.eqb strategy "keep_remote"); assumption.
Qed.

(** On lines that start with no marker every strategy is the identity. *)
Lemma strategy_lines_of_plain (file_path strategy : string) (ls : list string) :
  Forall (fun l => is_marker l = false) ls ->
  resolved_lines (fold_left keep_local_step ls initial_state) = ls
  /\ resolved_lines (fold_left keep_remote_step ls initial_state) = ls
  /\ resolved_lines (fold_left keep_both_step ls initial_state) = ls.
Proof.
  intros Hall.
  rewrite (plain_run _ keep_local_step_plain), (plain_run _ keep_remote_step_plain),
    (plain_run _ keep_both_step_plain) by (assumption || reflexivity).
  repeat split.
Qed.

Lemma written_text_settled (file_path strategy content again_path again : string) :
  let written := PyStr.join PyStr.nl (strategy_lines file_path strategy content) in
  Forall (fun l => is_marker l = false) (PyStr.split PyStr.LF written)
  /\ PyStr.join PyStr.nl (strategy_lines again_path again written) = written.
Proof.
  intros written.
  destruct (strategy_lines_plain file_path strategy content) as [Hm Hlf].
  assert (Hlines : Forall (fun l => is_marker l = false) (PyStr.split PyStr.LF written)
                   /\ PyStr.join PyStr.nl (PyStr.split PyStr.LF written) = written).
  { split; [|apply join_split].
    subst written. destruct (strategy_lines file_path strategy content) as [|l ls] eqn:E.
    - repeat constructor.
    - rewrite split_join by (assumption || discriminate). exact Hm. }
  destruct Hlines as [Hplain Hjoin]. split; [exact Hplain|].
  destruct (strategy_lines_of_plain file_path strategy _ Hplain) as (Hl & Hr & Hb).
  rewrite <- Hjoin at 2. f_equal.
  unfold strategy_lines, keep_local_lines, keep_remote_lines, keep_both_lines.
  rewrite Hl, Hr, Hb.
  destruct (String.eqb again "smart_merge").
  - now destruct (str_mem _ config_files).
  - destruct (String.eqb again "keep_local"); [reflexivity|].
    now destruct (String.eqb again "keep_remote").
Qed.

(** X3.  What a strategy writes has no line that starts with a marker, and
    any strategy applied to it, the same or another, writes the same text
    again: resolving is idempotent on the content of a file. *)
Theorem strategy_settles (file_path strategy content again_path again : string) :
  let written := PyStr.join PyStr.nl (strategy_lines file_path strategy content) in
  Forall (fun l => is_marker l = false) (PyStr.split PyStr.LF written)
  /\ PyStr.join PyStr.nl (strategy_lines again_path again written) = written.
Proof. exact (written_text_settled file_path strategy content again_path again). Qed.

(** ** Text read and written *)

Lemma has_char_app (c : ascii) (a b : string) :
  has_char c (a +:+ b) = has_char c a || has_char c b.
Proof.
  induction a as [|x a IH]; rewrite ?append_nil, ?append_cons; cbn [has_char]; [reflexivity|].
  now rewrite IH, orb_assoc.
Qed.

(** Text that was read in text mode holds no carriage return. *)
Lemma universal_no_cr (s : string) :
  has_char PyStr.CR (PyStr.universal_newlines s) = false.
Proof.
  remember (String.length s) as n eqn:Hn.
  assert (Hle : (String.length s <= n)%nat) by lia. clear Hn.
  revert s Hle. induction n as [|n IH]; intros s Hle.
  { destruct s; [reflexivity | cbn in Hle; lia]. }
  destruct s as [|a s]; [reflexivity|].
  cbn [String.length] in Hle. cbn [PyStr.universal_newlines].
  destruct (Ascii.eqb a PyStr.CR) eqn:Ea.
  - destruct s as [|a' s]; [reflexivity|]. cbn [String.length] in Hle.
    destruct (Ascii.eqb a' PyStr.LF); cbn [has_char]; rewrite IH by (cbn [String.length]; lia);
      reflexivity.
  - cbn [has_char]. rewrite Ea. apply IH. lia.
Qed.

(** Text without a carriage return is read as it is. *)
Lemma universal_plain (s : string) :
  has_char PyStr.CR s = false -> PyStr.universal_newlines s = s.
Proof.
  induction s as [|a s IH]; [reflexivity|].
  cbn [has_char PyStr.universal_newlines]. intros H.
  apply orb_false_iff in H as [Ha Hs]. now rewrite Ha, IH.
Qed.

Lemma split_fields_free (c d : ascii) (s : string) :
  has_char c s = false -> Forall (fun l => has_char c l = false) (PyStr.split d s).
Proof.
  induction s as [|a s IH]; cbn [PyStr.split has_char]; [repeat constructor|].
  intros H. apply orb_false_iff in H as [Ha Hs]. specialize (IH Hs).
  destruct (Ascii.eqb a d); [now constructor|].
  destruct (PyStr.split d s) as [|h t]; [repeat constructor; cbn; now rewrite Ha|].
  inversion IH; subst. constructor; [|assumption]. cbn. now rewrite Ha.
Qed.

Lemma join_free (c : ascii) (sep : string) (ls : list string) :
  has_char c sep = false -> Forall (fun l => has_char c l = false) ls ->
  has_char c (PyStr.join sep ls) = false.
Proof.
  intros Hsep. induction 1 as [|x ls Hx Hls IH]; [reflexivity|].
  destruct ls as [|y l]; [exact Hx|].
  rewrite join_cons by discriminate. now rewrite !has_char_app, Hx, Hsep, IH.
Qed.

(** Every line a strategy keeps is a line of the content or one of the four
    generated lines. *)
Lemma strategy_lines_from (Q : string -> Prop) (file_path strategy content : string) :
  Forall Q generated_lines -> Forall Q (PyStr.split PyStr.LF content) ->
  Forall Q (strategy_lines file_path strategy content).
Proof.
  intros Hgen Hall.
  assert (Hlocal : Forall Q (keep_local_lines content)).
  { unfold keep_local_lines.
    destruct (keep_local_fold_adds (PyStr.split PyStr.LF content) initial_state)
      as (out & Hres & Hsub & _).
    cbn [resolved_lines initial_state app] in Hres. rewrite Hres.
    exact (Forall_of_sublist _ _ _ Hsub Hall). }
  assert (Hremote : Forall Q (keep_remote_lines content)).
  { unfold keep_remote_lines.
    destruct (keep_remote_fold_adds (PyStr.split PyStr.LF content) initial_state)
      as (out & Hres & Hsub & _).
    cbn [resolved_lines initial_state app] in Hres. rewrite Hres.
    exact (Forall_of_sublist _ _ _ Hsub Hall). }
  assert (Hboth : Forall Q (keep_both_lines content)).
  { pose proof (keep_both_fold_lines (PyStr.split PyStr.LF content)
                  (PyStr.split PyStr.LF content) initial_state) as H.
    cbv zeta in H. specialize (H (fun _ Hl => Hl)).
    cbn [resolved_lines local_lines remote_lines initial_state] in H.
    specialize (H ltac:(constructor) ltac:(constructor) ltac:(constructor)).
    fold (keep_both_lines content) in H.
    rewrite List.Forall_forall in Hgen, Hall.
    eapply Forall_impl; [exact H|]. cbv beta.
    intros l [Hg | [Hl _]]; [now apply Hgen | now apply Hall]. }
  unfold strategy_lines.
  destruct (String.eqb strategy "smart_merge").
  - destruct (str_mem _ config_files); assumption.
  - destruct (String.eqb strategy "keep_local"); [assumption|].
    destruct (String.eqb strategy "keep_remote"); assumption.
Qed.

(** What a strategy writes of a text that was read is read back as it was
    written. *)
Lemma written_text_read_back (file_path strategy raw : string) :
  let written := PyStr.join PyStr.nl
                   (strategy_lines file_path strategy (PyStr.universal_newlines raw)) in
  PyStr.universal_newlines written = written.
Proof.
  intros written. apply universal_plain. subst written.
  apply join_free; [reflexivity|].
  apply strategy_lines_from; [repeat constructor|].
  apply split_fields_free, universal_no_cr.
Qed.

(** [_try_resolve_conflict] case by case: the file cannot be read; it holds
    no start marker; it is rewritten; the writing fails at the opening, or
    after it. *)
Lemma try_resolve_cases (file_path strategy : string) (w : World) :
  _try_resolve_conflict file_path strategy w
  = match files w !! file_path with
    | None => (Ret false, w)
    | Some raw =>
        let content := PyStr.universal_newlines raw in
        let text := PyStr.join PyStr.nl (strategy_lines file_path strategy content) in
        if negb (PyStr.str_in start_marker content) then (Ret true, w)
        else if writable w file_path then
          (Ret true, with_files (<[file_path := text]> (files w)) w)
        else
          match write_fault w file_path with
          | Some n => (Ret false, with_files (broken_off file_path n text (files w)) w)
          | None => (Ret false, w)
          end
    end.
Proof.
  assert (Hwrite : forall text,
            (let (o, w') := (write_file file_path text >> ret true) w in
             match o with Ret a => (Ret a, w') | Raise _ => ret false w' end)
            = if writable w file_path then
                (Ret true, with_files (<[file_path := text]> (files w)) w)
              else
                match write_fault w file_path with
                | Some n => (Ret false, with_files (broken_off file_path n text (files w)) w)
                | None => (Ret false, w)
                end).
  { intros text. unfold bind, write_file.
    destruct (writable w file_path); [reflexivity|].
    now destruct (write_fault w file_path). }
  unfold _try_resolve_conflict, try_except, bind at 1, read_file.
  destruct (files w !! file_path) as [raw|]; [|reflexivity].
  cbv zeta.
  destruct (negb (PyStr.str_in start_marker (PyStr.universal_newlines raw))); [reflexivity|].
  unfold strategy_lines, _smart_merge_conflict.
  destruct (String.eqb_spec strategy "smart_merge") as [->|_].
  { destruct (str_mem _ config_files).
    - apply Hwrite.
    - assert (H : (if str_mem (PyStr.lower (splitext_ext file_path)) doc_files
                   then _resolve_keep_both file_path (PyStr.universal_newlines raw)
                   else _resolve_keep_both file_path (PyStr.universal_newlines raw))
                  = _resolve_keep_both file_path (PyStr.universal_newlines raw))
        by now destruct (str_mem _ doc_files).
      rewrite H. apply Hwrite. }
  destruct (String.eqb_spec strategy "keep_both") as [->|_].
  { cbn [String.eqb Ascii.eqb Bool.eqb]. apply Hwrite. }
  destruct (String.eqb strategy "keep_local"); [apply Hwrite|].
  destruct (String.eqb strategy "keep_remote"); apply Hwrite.
Qed.

Lemma try_resolve_conflict_total (file_path strategy : string) (w : World) :
  exists (resolved : bool) (w' : World),
    _try_resolve_conflict file_path strategy w = (Ret resolved, w').
Proof.
  rewrite try_resolve_cases.
  destruct (files w !! file_path) as [raw|]; [|now exists false, w].
  cbv zeta.
  destruct (negb (PyStr.str_in start_marker _)); [now exists true, w|].
  destruct (writable w file_path); [now eexists true, _|].
  destruct (write_fault w file_path); [now eexists false, _ | now exists false, w].
Qed.

(** X4.  [_try_resolve_conflict] never raises.  It answers [True] for a
    file that, read in text mode, holds no start marker, and leaves
    everything as it was; and for a file with the marker that it has
    rewritten, which then holds the lines the strategy keeps of the text
    read, joined by line feeds.  It answers [False] for a file it cannot
    read, and then nothing was changed, and for a file it cannot rewrite:
    if the file could not be opened nothing was changed, but if the writing
    broke off after the opening, the old content is lost and the file holds
    the part of the new text that was stored, or can no longer be read.  In
    every case no other file is written, no program is called and the store
    is not touched. *)
Theorem try_resolve_conflict_contained (file_path strategy : string) (w : World) :
  exists (resolved : bool) (w' : World),
    _try_resolve_conflict file_path strategy w = (Ret resolved, w')
    /\ (resolved = true ->
        exists raw, files w !! file_path = Some raw
          /\ let content := PyStr.universal_newlines raw in
             if PyStr.str_in start_marker content
             then writable w file_path = true
                  /\ files w' !! file_path
                     = Some (PyStr.join PyStr.nl (strategy_lines file_path strategy content))
             else w' = w)
    /\ (resolved = false ->
        match files w !! file_path with
        | None => w' = w
        | Some raw =>
            let content := PyStr.universal_newlines raw in
            let text := PyStr.join PyStr.nl (strategy_lines file_path strategy content) in
            PyStr.str_in start_marker content = true
            /\ writable w file_path = false
            /\ match write_fault w file_path with
               | None => w' = w
               | Some n =>
                   let part := String.substring 0 n text in
                   files w' !! file_path
                   = (if PyStr.decodable part then Some part else None)
               end
        end)
    /\ (forall other, other <> file_path -> files w' !! other = files w !! other)
    /\ invocations w' = invocations w
    /\ store w' = store w.
Proof.
  rewrite try_resolve_cases.
  destruct (files w !! file_path) as [raw|] eqn:Hfile.
  2:{ exists false, w. split; [reflexivity|]. split; [discriminate|]. now repeat split. }
  cbv zeta.
  destruct (PyStr.str_in start_marker (PyStr.universal_newlines raw)) eqn:Hmark; cbn [negb].
  2:{ exists true, w. split; [reflexivity|]. split; [|now repeat split].
      intros _. exists raw. split; [reflexivity|]. now rewrite Hmark. }
  destruct (writable w file_path) eqn:Hw.
  { eexists true, _. split; [reflexivity|].
    split; [|split; [discriminate|split; [|split; reflexivity]]].
    - intros _. exists raw. split; [reflexivity|]. rewrite Hmark. split; [reflexivity|].
      cbn [files with_files]. now rewrite lookup_insert_eq.
    - intros other Hne. cbn [files with_files]. now rewrite lookup_insert_ne. }
  destruct (write_fault w file_path) as [n|] eqn:Hfault.
  2:{ exists false, w. split; [reflexivity|]. split; [discriminate|].
      split; [|now repeat split]. intros _. now repeat split. }
  eexists false, _. split; [reflexivity|]. split; [discriminate|].
  split; [|split; [|split; reflexivity]].
  - intros _. repeat split.
    cbn [files with_files]. unfold broken_off.
    destruct (PyStr.decodable _); [now rewrite lookup_insert_eq | now rewrite lookup_delete_eq].
  - intros other Hne. cbn [files with_files]. unfold broken_off.
    destruct (PyStr.decodable _); [now rewrite lookup_insert_ne | now rewrite lookup_delete_ne].
Qed.

(** X5.  A file that [_try_resolve_conflict] resolved is left as it is by a
    second run, which again answers [True]. *)
Theorem resolved_file_stays (file_path strategy : string) (w w1 : World) :
  _try_resolve_conflict file_path strategy w = (Ret true, w1) ->
  _try_resolve_conflict file_path strategy w1 = (Ret true, w1).
Proof.
  rewrite !try_resolve_cases.
  destruct (files w !! file_path) as [raw|] eqn:Hfile; [|discriminate].
  cbv zeta.
  destruct (negb (PyStr.str_in start_marker (PyStr.universal_newlines raw))) eqn:Hmark.
  { intros [= <-]. now rewrite Hfile, Hmark. }
  destruct (writable w file_path) eqn:Hw; [|destruct (write_fault w file_path); discriminate].
  intros [= <-]. cbn [files with_files writable]. rewrite lookup_insert_eq, Hw.
  rewrite written_text_read_back.
  destruct (negb (PyStr.str_in start_marker (PyStr.join _ _))); [reflexivity|].
  destruct (written_text_settled file_path strategy (PyStr.universal_newlines raw)
              file_path strategy) as [_ Hsame].
  cbv zeta in Hsame. rewrite Hsame, insert_insert_eq. reflexivity.
Qed.

Lemma resolved_file_stays_witness :
  _try_resolve_conflict "/repo/a.py" "keep_local"
    (with_files (<["/repo/a.py" := "A" +:+ PyStr.nl]> (files sample_world)) sample_world)
  = (Ret true,
     with_files (<["/repo/a.py" := "A" +:+ PyStr.nl]> (files sample_world)) sample_world).
Proof.
  apply (resolved_file_stays "/repo/a.py" "keep_local" sample_world).
  rewrite try_resolve_cases. reflexivity.
Defined.

Lemma try_resolve_conflict_contained_witness :
  exists w',
    _try_resolve_conflict "/repo/a.py" "keep_local" sample_world = (Ret true, w')
    /\ files w' !! "/repo/a.py" = Some ("A" +:+ PyStr.nl)
    /\ files w' !! "/repo/notes.txt" = files sample_world !! "/repo/notes.txt".
Proof.
  destruct (try_resolve_conflict_contained "/repo/a.py" "keep_local" sample_world)
    as (resolved & w' & Hrun & Htrue & _ & Hother & _).
  exists w'. rewrite try_resolve_cases in Hrun.
  assert (Hres : resolved = true) by (injection Hrun as <- _; reflexivity).
  subst resolved. split; [exact Hrun|]. split.
  - destruct (Htrue eq_refl) as (raw & Hraw & H). injection Hraw as <-. exact (proj2 H).
  - apply Hother. discriminate.
Defined.

(** A file with the line ends of Windows: the text read has line feeds
    only, and so has the text written. *)
Example crlf_file_resolved :
  let crlf := String PyStr.CR PyStr.nl in
  let raw := "<<<<<<< HEAD" +:+ crlf +:+ "A" +:+ crlf +:+ "=======" +:+ crlf
             +:+ "B" +:+ crlf +:+ ">>>>>>> x" +:+ crlf in
  let w := world_of ["/repo"] {[ "/repo/a.py" := raw ]} [] (mkStore [] []) in
  PyStr.universal_newlines raw = sample_conflict
  /\ _try_resolve_conflict "/repo/a.py" "keep_local" w
     = (Ret true, with_files {[ "/repo/a.py" := "A" +:+ PyStr.nl ]} w).
Proof. split; vm_compute; reflexivity. Qed.

(** A writing that breaks off after the opening: the answer is [False] and
    the file has lost its content, here all of it. *)
Example broken_write_loses_content :
  let w := mkWorld (fun _ => true) {[ "/repo/a.py" := sample_conflict ]} (fun _ => false)
                   (scripted []) [] 0 "" (mkStore [] []) (fun _ => None) 0
                   (fun _ => Some 0%nat) in
  fst (_try_resolve_conflict "/repo/a.py" "keep_local" w) = Ret false
  /\ files (snd (_try_resolve_conflict "/repo/a.py" "keep_local" w)) !! "/repo/a.py"
     = Some "".
Proof. split; vm_compute; reflexivity. Qed.

(** ** The extension [smart_merge] goes by *)

Lemma last_app_nonempty {A} (l1 l2 : list A) (d : A) :
  l2 <> [] -> List.last (l1 ++ l2) d = List.last l2 d.
Proof.
  intros Hne. induction l1 as [|x l1 IH]; [reflexivity|].
  cbn [app]. destruct (l1 ++ l2) eqn:E.
  - destruct l1, l2; try discriminate; congruence.
  - rewrite <- IH. reflexivity.
Qed.

(** The fields after a separator are the fields of what follows it. *)
Lemma split_behind (c : ascii) (d b : string) :
  exists f fs, PyStr.split c (d +:+ String c b) = (f :: fs) ++ PyStr.split c b.
Proof.
  induction d as [|a d (f & fs & IH)]; rewrite ?append_nil, ?append_cons; cbn [PyStr.split].
  - rewrite Ascii.eqb_refl. now exists "", [].
  - rewrite IH. destruct (Ascii.eqb a c); [now exists "", (f :: fs)|].
    now exists (String a f), fs.
Qed.

Lemma basename_behind (dir name : string) :
  has_char "/" name = false ->
  List.last (PyStr.split "/" (dir +:+ String "/" name)) "" = name.
Proof.
  intros Hname. destruct (split_behind "/" dir name) as (f & fs & ->).
  rewrite last_app_nonempty by apply split_nonempty.
  now rewrite split_plain.
Qed.

Lemma strip_leading_dots_cons (a : ascii) (s : string) :
  Ascii.eqb a "." = false -> strip_leading_dots (String a s) = String a s.
Proof.
  destruct a as [[] [] [] [] [] [] [] []]; try reflexivity; discriminate.
Qed.

Lemma strip_leading_dots_dot (s : string) :
  strip_leading_dots (String "." s) = strip_leading_dots s.
Proof. reflexivity. Qed.

(** The extension of a name with one dot, which is not its first character. *)
Lemma splitext_of_name (stem ext : string) :
  stem <> "" -> has_char "." stem = false -> has_char "/" stem = false ->
  has_char "." ext = false -> has_char "/" ext = false ->
  has_char "/" (stem +:+ String "." ext) = false
  /\ (let name := stem +:+ String "." ext in
      match PyStr.split "." (strip_leading_dots name) with
      | [] | [_] => ""
      | fields => "." +:+ List.last fields ""
      end = String "." ext).
Proof.
  intros Hne Hdot Hslash Hedot Heslash. split.
  - clear Hne Hdot. induction stem as [|a stem IH]; rewrite ?append_nil, ?append_cons.
    + exact Heslash.
    + cbn [has_char] in *. apply orb_false_elim in Hslash as [Ha Hs].
      now rewrite Ha, IH.
  - cbv zeta. destruct stem as [|a stem]; [congruence|].
    cbn [has_char] in Hdot. apply orb_false_elim in Hdot as [Ha Hs].
    rewrite append_cons, strip_leading_dots_cons by exact Ha.
    rewrite <- append_cons, split_at by (cbn [has_char]; now rewrite Ha, Hs).
    rewrite split_plain by exact Hedot. reflexivity.
Qed.

(** The extension of a name that is a dot and then text without a dot. *)
Lemma splitext_of_hidden (ext : string) :
  has_char "." ext = false ->
  match PyStr.split "." (strip_leading_dots (String "." ext)) with
  | [] | [_] => ""
  | fields => "." +:+ List.last fields ""
  end = "".
Proof.
  intros Hdot. rewrite strip_leading_dots_dot.
  destruct ext as [|a ext]; [reflexivity|].
  cbn [has_char] in Hdot. apply orb_false_elim in Hdot as [Ha Hs].
  rewrite strip_leading_dots_cons by exact Ha.
  rewrite split_plain by (cbn [has_char]; now rewrite Ha, Hs). reflexivity.
Qed.

Lemma splitext_in_directory (dir stem ext : string) :
  stem <> "" -> has_char "." stem = false -> has_char "/" stem = false ->
  has_char "." ext = false -> has_char "/" ext = false ->
  splitext_ext (dir +:+ "/" +:+ stem +:+ "." +:+ ext) = "." +:+ ext
  /\ splitext_ext (dir +:+ "/." +:+ ext) = "".
Proof.
  intros Hne Hdot Hslash Hedot Heslash.
  destruct (splitext_of_name stem ext Hne Hdot Hslash Hedot Heslash) as [Hname Hext].
  unfold splitext_ext. split.
  - change (dir +:+ "/" +:+ stem +:+ "." +:+ ext)
      with (dir +:+ String "/" (stem +:+ String "." ext)).
    rewrite basename_behind by exact Hname. exact Hext.
  - change (dir +:+ "/." +:+ ext) with (dir +:+ String "/" (String "." ext)).
    rewrite basename_behind by (cbn [has_char]; now rewrite Heslash).
    now apply splitext_of_hidden.
Qed.

(** X6.  [_smart_merge_conflict] goes by the text after the last dot of the
    file name, whatever its case: a name with one dot that is not its first
    character is resolved with [keep_local] when that extension is one of
    the six configuration extensions and with [keep_both] otherwise; a name
    that begins with its only dot has no extension and gets [keep_both],
    also when it reads [.json] or [.yaml]. *)
Theorem smart_merge_by_extension (dir stem ext content : string) :
  stem <> "" -> has_char "." stem = false -> has_char "/" stem = false ->
  has_char "." ext = false -> has_char "/" ext = false ->
  _smart_merge_conflict (dir +:+ "/" +:+ stem +:+ "." +:+ ext) content
  = (if str_mem (PyStr.lower ("." +:+ ext)) config_files
     then _resolve_keep_local (dir +:+ "/" +:+ stem +:+ "." +:+ ext) content
     else _resolve_keep_both (dir +:+ "/" +:+ stem +:+ "." +:+ ext) content)
  /\ _smart_merge_conflict (dir +:+ "/." +:+ ext) content
     = _resolve_keep_both (dir +:+ "/." +:+ ext) content.
Proof.
  intros Hne Hdot Hslash Hedot Heslash.
  destruct (splitext_in_directory dir stem ext Hne Hdot Hslash Hedot Heslash) as [Hext Hhid].
  unfold _smart_merge_conflict. rewrite Hext, Hhid. split.
  - destruct (str_mem _ config_files); [reflexivity|].
    now destruct (str_mem _ doc_files).
  - reflexivity.
Qed.

Lemma smart_merge_by_extension_witness :
  _smart_merge_conflict "/repo/settings.JSON" sample_conflict
  = _resolve_keep_local "/repo/settings.JSON" sample_conflict
  /\ _smart_merge_conflict "/repo/.JSON" sample_conflict
     = _resolve_keep_both "/repo/.JSON" sample_conflict.
Proof.
  apply (smart_merge_by_extension "/repo" "settings" "JSON" sample_conflict);
    (reflexivity || discriminate).
Defined.

(** ** The paths [_parse_conflicts] reads *)

Lemma append_assoc (a b c : string) : (a +:+ b) +:+ c = a +:+ b +:+ c.
Proof. induction a as [|x a IH]; [reflexivity|]. rewrite !append_cons. now rewrite IH. Qed.

Lemma append_length (a b : string) :
  String.length (a +:+ b) = (String.length a + String.length b)%nat.
Proof. induction a as [|x a IH]; [reflexivity|]. rewrite append_cons. cbn. now rewrite IH. Qed.

Lemma common_tail (x y r after : string) :
  x +:+ r = y +:+ after -> (String.length x <= String.length y)%nat ->
  exists pre, r = pre +:+ after.
Proof.
  revert y. induction x as [|c x IH]; intros y Heq Hlen.
  - exists y. exact Heq.
  - destruct y as [|c' y]; [cbn in Hlen; lia|].
    rewrite !append_cons in Heq. injection Heq as _ Heq.
    apply (IH y Heq). cbn in Hlen. lia.
Qed.

(** What follows the first occurrence ends with what follows any other. *)
Lemma after_first_leftmost (needle before after : string) :
  exists rest pre,
    PyStr.after_first needle (before +:+ needle +:+ after) = Some rest
    /\ rest = pre +:+ after.
Proof.
  induction before as [|a before (rest & pre & IH & Hrest)];
    rewrite after_first_unfold, ?append_nil, ?append_cons.
  - rewrite startswith_app, drop_bytes_app. now exists after, "".
  - destruct (PyStr.startswith (String a (before +:+ needle +:+ after)) needle) eqn:E.
    + pose proof (startswith_drop _ _ E) as Hs.
      set (r := PyStr.drop_bytes (String.length needle)
                  (String a (before +:+ needle +:+ after))) in *.
      assert (H : needle +:+ r = (String a before +:+ needle) +:+ after).
      { rewrite <- Hs. now rewrite append_assoc, append_cons. }
      apply common_tail in H as [pre0 Hpre]; [|rewrite append_length; lia].
      now exists r, pre0.
    + exists rest, pre. split; [exact IH | exact Hrest].
Qed.

Lemma search_of_named (line : string) :
  names_conflict_path line -> exists path, search_conflict_path line = Some path.
Proof.
  intros (before & between & path & -> & Hne).
  destruct (after_first_leftmost "CONFLICT" before (between +:+ "in " +:+ path))
    as (rest & pre & H1 & ->).
  unfold search_conflict_path. rewrite H1, <- append_assoc.
  destruct (after_first_leftmost "in " (pre +:+ between) path) as (found & pre2 & H2 & ->).
  rewrite H2. destruct (String.eqb_spec (pre2 +:+ path) "") as [E|_]; [|eauto].
  destruct pre2; [|discriminate]. rewrite append_nil in E. contradiction.
Qed.

Lemma search_needs_keyword (line : string) :
  PyStr.str_in "CONFLICT" line = false -> search_conflict_path line = None.
Proof.
  intros H. unfold search_conflict_path.
  destruct (PyStr.after_first "CONFLICT" line) as [rest|] eqn:E; [|reflexivity].
  apply after_first_occurs in E as [before ->].
  assert (Hocc : PyStr.str_in "CONFLICT" (before +:+ "CONFLICT" +:+ rest) = true)
    by (apply str_in_occurs; now exists before, rest).
  congruence.
Qed.

Lemma parse_lines_omap (lines found : list string) :
  fold_left parse_line lines found = found ++ omap search_conflict_path lines.
Proof.
  revert found. induction lines as [|line rest IH]; intros found; cbn [fold_left].
  - cbn. now rewrite app_nil_r.
  - rewrite IH. unfold parse_line. cbn [omap list_omap]. fold (omap search_conflict_path rest).
    destruct (PyStr.str_in "CONFLICT" line) eqn:E.
    + destruct (search_conflict_path line); [now rewrite <- app_assoc | reflexivity].
    + now rewrite search_needs_keyword.
Qed.

(** X7.  [_parse_conflicts] goes through the message line by line and
    reports, in the order of the lines, one path for each line that names a
    conflicted file the way git prints it, [CONFLICT], any text, [in ] and a
    path that is not empty; every other line adds nothing.  The path
    reported is not empty and is the rest of the line behind the first [in ]
    that follows the first [CONFLICT]. *)
Theorem parse_conflicts_reads_paths (error_message : string) :
  _parse_conflicts error_message
  = omap search_conflict_path (PyStr.split PyStr.LF error_message)
  /\ (forall line, is_Some (search_conflict_path line) <-> names_conflict_path line)
  /\ (forall line path,
        search_conflict_path line = Some path ->
        path <> ""
        /\ exists rest, PyStr.after_first "CONFLICT" line = Some rest
                        /\ PyStr.after_first "in " rest = Some path).
Proof.
  split; [|split].
  - unfold _parse_conflicts. now rewrite parse_lines_omap.
  - intros line. split.
    + intros [path H]. eapply search_names_path, H.
    + intros H. destruct (search_of_named line H) as [path ->]. now exists path.
  - intros line path. unfold search_conflict_path.
    destruct (PyStr.after_first "CONFLICT" line) as [rest|]; [|discriminate].
    destruct (PyStr.after_first "in " rest) as [found|] eqn:E; [|discriminate].
    destruct (String.eqb_spec found ""); [discriminate|].
    intros [= <-]. split; [assumption|]. now exists rest.
Qed.

(** ** Listing and resolving, once more *)

Lemma resolve_each_sublist (self : GitService) (repo_path : string)
      (conflict_files unresolved : list string) (w w' : World) (found : list string) :
  resolve_each self repo_path conflict_files unresolved w = (Ret found, w') ->
  exists out, found = unresolved ++ out /\ out `sublist_of` conflict_files.
Proof.
  revert unresolved w. induction conflict_files as [|f rest IH]; intros unresolved w;
    cbn [resolve_each].
  - intros [= <- <-]. exists []. rewrite app_nil_r. split; [reflexivity | constructor].
  - destruct (String.eqb f "").
    { intros H. destruct (IH _ _ H) as (out & -> & Hsub).
      exists out. split; [reflexivity | now apply sublist_cons]. }
    unfold bind at 1.
    destruct (try_resolve_conflict_total (os_path_join repo_path f) (conflict_strategy self) w)
      as (b & w1 & ->).
    destruct b.
    + unfold bind at 1. destruct (subprocess_run _ _ _ w1) as [[p|e] w2]; [|discriminate].
      intros H. destruct (IH _ _ H) as (out & -> & Hsub).
      exists out. split; [reflexivity | now apply sublist_cons].
    + intros H. destruct (IH _ _ H) as (out & -> & Hsub).
      exists (f :: out). rewrite <- app_assoc. split; [reflexivity | now apply sublist_skip].
Qed.

(** X8.  [_resolve_conflicts] never raises, and what it reports as
    unresolved is taken, in order, from the paths the listing printed.  When
    the listing cannot be run, or prints nothing but white space, it reports
    no path and writes no file. *)
Theorem resolve_conflicts_reports_listed (self : GitService) (repo_path : string)
        (w : World) :
  exists unresolved w',
    _resolve_conflicts self repo_path w = (Ret unresolved, w')
    /\ match answer w 0 ["git"; "diff"; "--name-only"; "--diff-filter=U"] repo_path
                    (git_timeout self) with
       | RunRaises _ => unresolved = [] /\ files w' = files w
       | Completed result =>
           unresolved `sublist_of` PyStr.split PyStr.LF (PyStr.strip (stdout result))
           /\ (PyStr.strip (stdout result) = "" -> unresolved = [] /\ files w' = files w)
       end.
Proof.
  unfold _resolve_conflicts, answer, bind at 1, try_except at 1, bind at 1, subprocess_run.
  cbn [Nat.add].
  destruct (run_oracle w _ _) as [result|e]; unfold ret at 1.
  2:{ unfold ret. do 2 eexists. split; [reflexivity|]. now split. }
  destruct (String.eqb_spec (PyStr.strip (stdout result)) "") as [Hempty|Hlisted].
  - cbn [resolve_each]. unfold try_except, ret. do 2 eexists. split; [reflexivity|].
    split; [apply sublist_nil_l|]. intros _. now split.
  - unfold try_except.
    destruct (resolve_each _ _ _ _ _) as [[found|e] w2] eqn:Hloop.
    + do 2 eexists. split; [reflexivity|].
      destruct (resolve_each_sublist _ _ _ _ _ _ _ Hloop) as (out & -> & Hsub).
      split; [exact Hsub | contradiction].
    + unfold ret. do 2 eexists. split; [reflexivity|]. split; [reflexivity | contradiction].
Qed.

(** ** The status of a repository *)

(** A conflict found by the scan is also a modified file. *)
Lemma scan_line_conflicts (acc : StatusScan) (line : string) :
  (scan_conflicts acc = true -> scan_modified acc <> []) ->
  scan_conflicts (scan_line acc line) = true -> scan_modified (scan_line acc line) <> [].
Proof.
  intros Hacc. unfold scan_line.
  destruct (PyStr.startswith line "??"); [exact Hacc|].
  destruct (PyStr.startswith line " M").
  { cbn. intros _ H. now apply app_eq_nil in H as [_ H]. }
  destruct (PyStr.startswith line "M "); [exact Hacc|].
  destruct (PyStr.startswith line "UU" || PyStr.startswith line "AA"); [|exact Hacc].
  cbn. intros _ H. now apply app_eq_nil in H as [_ H].
Qed.

Lemma scan_fold_conflicts (lines : list string) (acc : StatusScan) :
  (scan_conflicts acc = true -> scan_modified acc <> []) ->
  scan_conflicts (fold_left scan_line lines acc) = true ->
  scan_modified (fold_left scan_line lines acc) <> [].
Proof.
  revert acc. induction lines as [|line rest IH]; intros acc Hacc; cbn [fold_left].
  - exact Hacc.
  - apply IH. now apply scan_line_conflicts.
Qed.

(** What [get_repo_status] returns is read off the answer of the status
    call. *)
Lemma repo_status_value (self : GitService) (repo_path : string) (w w' : World)
      (status : GitStatus) :
  get_repo_status self repo_path w = (Ret status, w') ->
  exists q sync,
    answer w 1 ["git"; "status"; "--porcelain"] repo_path (git_timeout self) = Completed q
    /\ status
       = let scan := scan_status (stdout q) in
         mkGitStatus
           ((length (scan_untracked scan) =? 0)%nat && (length (scan_modified scan) =? 0)%nat)
           (scan_conflicts scan) (fst sync) (snd sync)
           (scan_untracked scan) (scan_modified scan) (scan_staged scan).
Proof.
  unfold get_repo_status, answer, bind at 1, os_path_exists.
  destruct (exists_on_disk w repo_path); cbn [negb]; [|discriminate].
  unfold try_except, bind at 1, subprocess_run at 1.
  destruct (run_oracle w _ _) as [p|e1].
  2:{ destruct (is_TimeoutExpired e1); discriminate. }
  destruct (returncode p =? 0); cbn [negb]; [|discriminate].
  unfold bind at 1, subprocess_run at 1.
  cbn [with_invocations run_oracle invocations length Nat.add].
  destruct (run_oracle w (S (length (invocations w))) _) as [q|e2].
  2:{ destruct (is_TimeoutExpired e2); discriminate. }
  unfold bind at 1.
  match goal with |- context [_get_sync_status self repo_path ?w0] =>
    destruct (sync_status_returns self repo_path w0) as (sync & w2 & ->) end.
  unfold ret. intros [= <- <-]. now exists q, sync.
Qed.

(** X9.  A status that reports conflicts is never clean: the conflicted
    files are counted as modified.  A tree is clean exactly when no file is
    untracked and none modified; files that are only staged do not count. *)
Theorem status_conflicts_not_clean (self : GitService) (repo_path : string)
        (w w' : World) (status : GitStatus) :
  get_repo_status self repo_path w = (Ret status, w') ->
  (has_conflicts status = true -> is_clean status = false /\ modified_files status <> [])
  /\ (is_clean status = true
      <-> untracked_files status = [] /\ modified_files status = []).
Proof.
  intros H. destruct (repo_status_value _ _ _ _ _ H) as (q & sync & _ & ->).
  cbv zeta. cbn [has_conflicts is_clean modified_files untracked_files]. split.
  - intros Hc. apply scan_fold_conflicts in Hc; [|discriminate].
    fold (scan_status (stdout q)) in Hc. split; [|exact Hc].
    destruct (scan_modified (scan_status (stdout q))); [congruence|].
    cbn. apply andb_false_r.
  - destruct (scan_untracked (scan_status (stdout q))),
             (scan_modified (scan_status (stdout q))); cbn; split;
      (intros [? ?] || intros ?); (discriminate || auto).
Qed.

Example conflicted_status :
  get_repo_status service "/repo" conflicted_world
  = (Ret (mkGitStatus false true 2 1 [] ["a.py"] []),
     with_invocations
       (map (fun a => mkInvocation a (Some "/repo") 30)
            [["git"; "rev-list"; "--count"; "--left-right"; "HEAD...@{u}"];
             ["git"; "fetch"; "--quiet"];
             ["git"; "status"; "--porcelain"];
             ["git"; "rev-parse"; "--is-inside-work-tree"]])
       conflicted_world).
Proof. vm_compute. reflexivity. Qed.

Lemma status_conflicts_not_clean_witness :
  exists status w',
    get_repo_status service "/repo" conflicted_world = (Ret status, w')
    /\ has_conflicts status = true
    /\ is_clean status = false.
Proof.
  eexists _, _. split; [exact conflicted_status|]. split; [reflexivity|].
  exact (proj1 (proj1 (status_conflicts_not_clean service "/repo" conflicted_world _ _
                         conflicted_status) eq_refl)).
Defined.

(** X10.  How [get_repo_status] fails.  A missing path raises [ValueError]
    before any call.  A path that is no repository raises [ValueError]
    after the one call that found it out.  A timeout of a call, of
    [rev-parse] or of the status call, is raised as [TimeoutError]: the
    exception of [subprocess] itself never leaves the function.  Once [rev-parse] has exited with 0 and the status call has
    completed the function returns, whatever the fetch and the count of
    commits do. *)
Theorem repo_status_errors (self : GitService) (repo_path : string) (w : World) :
  let rev_parse := ["git"; "rev-parse"; "--is-inside-work-tree"] in
  (exists_on_disk w repo_path = false ->
   get_repo_status self repo_path w
   = (Raise (ValueError ("仓库路径不存在: " +:+ repo_path)), w))
  /\ (forall e w', get_repo_status self repo_path w = (Raise e, w') ->
                   is_TimeoutExpired e = false)
  /\ (forall p,
        exists_on_disk w repo_path = true ->
        answer w 0 rev_parse repo_path (git_timeout self) = Completed p ->
        returncode p <> 0 ->
        get_repo_status self repo_path w
        = (Raise (ValueError ("不是Git仓库: " +:+ repo_path)),
           with_invocations
             (mkInvocation rev_parse (Some repo_path) (git_timeout self) :: invocations w) w))
  /\ (forall msg,
        exists_on_disk w repo_path = true ->
        answer w 0 rev_parse repo_path (git_timeout self) = RunRaises (TimeoutExpired msg) ->
        fst (get_repo_status self repo_path w)
        = Raise (TimeoutError ("Git操作超时: " +:+ repo_path)))
  /\ (forall p q,
        exists_on_disk w repo_path = true ->
        answer w 0 rev_parse repo_path (git_timeout self) = Completed p ->
        returncode p = 0 ->
        answer w 1 ["git"; "status"; "--porcelain"] repo_path (git_timeout self)
        = Completed q ->
        exists status w',
          get_repo_status self repo_path w = (Ret status, w')
          /\ has_conflicts status = scan_conflicts (scan_status (stdout q)))
  /\ (forall p msg,
        exists_on_disk w repo_path = true ->
        answer w 0 rev_parse repo_path (git_timeout self) = Completed p ->
        returncode p = 0 ->
        answer w 1 ["git"; "status"; "--porcelain"] repo_path (git_timeout self)
        = RunRaises (TimeoutExpired msg) ->
        fst (get_repo_status self repo_path w)
        = Raise (TimeoutError ("Git操作超时: " +:+ repo_path))).
Proof.
  cbv zeta. unfold answer. cbn [Nat.add]. split; [|split; [|split; [|split; [|split]]]].
  - intros Hex. unfold get_repo_status, bind, os_path_exists. now rewrite Hex.
  - intros e w' H. destruct (exists_on_disk w repo_path) eqn:Hex.
    + now destruct (repo_status_raises _ _ _ _ _ Hex H).
    + unfold get_repo_status, bind, os_path_exists in H. rewrite Hex in H.
      cbn [negb] in H. unfold raise in H. now injection H as <- _.
  - intros p Hex Hrun Hrc. apply Z.eqb_neq in Hrc.
    unfold get_repo_status, bind at 1, os_path_exists. rewrite Hex. cbn [negb].
    unfold try_except at 1, bind at 1, subprocess_run at 1.
    now rewrite Hrun, Hrc.
  - intros msg Hex Hrun.
    unfold get_repo_status, bind at 1, os_path_exists. rewrite Hex. cbn [negb].
    unfold try_except at 1, bind at 1, subprocess_run at 1.
    now rewrite Hrun.
  - intros p q Hex Hp Hrc Hq. apply Z.eqb_eq in Hrc.
    unfold get_repo_status, bind at 1, os_path_exists. rewrite Hex. cbn [negb].
    unfold try_except at 1, bind at 1, subprocess_run at 1.
    rewrite Hp, Hrc. cbn [negb].
    unfold bind at 1, subprocess_run at 1.
    cbn [with_invocations run_oracle invocations length].
    rewrite Hq. unfold bind at 1.
    match goal with |- context [_get_sync_status self repo_path ?w0] =>
      destruct (sync_status_returns self repo_path w0) as (sync & w2 & ->) end.
    unfold ret. now eexists _, _.
  - intros p msg Hex Hp Hrc Hq. apply Z.eqb_eq in Hrc.
    unfold get_repo_status, bind at 1, os_path_exists. rewrite Hex. cbn [negb].
    unfold try_except at 1, bind at 1, subprocess_run at 1.
    rewrite Hp, Hrc. cbn [negb].
    unfold bind at 1, subprocess_run at 1.
    cbn [with_invocations run_oracle invocations length].
    now rewrite Hq.
Qed.

(** X11.  [_get_sync_status] never raises, and it answers with anything but
    [(0, 0)] only when the fetch completed, with whatever exit code, and the
    count exited with 0 and printed two numbers with a tab between them. *)
Theorem sync_status_counts (self : GitService) (repo_path : string) (w : World) :
  exists ahead behind w',
    _get_sync_status self repo_path w = (Ret (ahead, behind), w')
    /\ ((ahead, behind) <> (0, 0) ->
        exists p q text_ahead text_behind,
          answer w 0 ["git"; "fetch"; "--quiet"] repo_path (git_timeout self) = Completed p
          /\ answer w 1 ["git"; "rev-list"; "--count"; "--left-right"; "HEAD...@{u}"]
                    repo_path (git_timeout self) = Completed q
          /\ returncode q = 0
          /\ PyStr.split PyStr.TAB (PyStr.strip (stdout q)) = [text_ahead; text_behind]
          /\ PyInt.int text_ahead = Ret ahead
          /\ PyInt.int text_behind = Ret behind).
Proof.
  unfold _get_sync_status, answer, try_except, bind at 1, subprocess_run at 1.
  cbn [Nat.add].
  destruct (run_oracle w _ _) as [p|e1].
  2:{ unfold ret. exists 0, 0. eexists. split; [reflexivity | congruence]. }
  unfold bind at 1, subprocess_run at 1.
  cbn [with_invocations run_oracle invocations length].
  destruct (run_oracle w (S (length (invocations w))) _) as [q|e2].
  2:{ unfold ret. exists 0, 0. eexists. split; [reflexivity | congruence]. }
  destruct (returncode q =? 0) eqn:Hrc.
  2:{ unfold ret. exists 0, 0. eexists. split; [reflexivity | congruence]. }
  apply Z.eqb_eq in Hrc.
  destruct (PyStr.split PyStr.TAB (PyStr.strip (stdout q))) as [|ta [|tb [|extra rest]]] eqn:Hs;
    try (unfold ret; exists 0, 0; eexists; split; [reflexivity | congruence]).
  unfold bind, lift_outcome.
  destruct (PyInt.int ta) as [a|ea] eqn:Ha.
  2:{ unfold ret. exists 0, 0. eexists. split; [reflexivity | congruence]. }
  destruct (PyInt.int tb) as [b|eb] eqn:Hb.
  2:{ unfold ret. exists 0, 0. eexists. split; [reflexivity | congruence]. }
  unfold ret. exists a, b. eexists. split; [reflexivity|].
  intros _. exists p, q, ta, tb. repeat split; assumption.
Qed.

(** X12.  The three probes never raise and make one call each.  Git counts
    as available exactly when [git --version] exits with 0, asked without a
    directory and with a timeout of five seconds, not the one of the service.
    The remote URL and the current branch are the output of their command
    without the white space around it when the command exits with 0, and
    [None] in every other case. *)
Theorem probes_go_by_exit_code (self : GitService) (repo_path : string) (w : World) :
  let version := mkInvocation ["git"; "--version"] None 5 in
  let remote := mkInvocation ["git"; "remote"; "get-url"; "origin"]
                             (Some repo_path) (git_timeout self) in
  let current := mkInvocation ["git"; "branch"; "--show-current"]
                              (Some repo_path) (git_timeout self) in
  let asked (inv : Invocation) := run_oracle w (length (invocations w)) inv in
  (exists available,
      check_git_available self w
      = (Ret available, with_invocations (version :: invocations w) w)
      /\ (available = true <-> exists p, asked version = Completed p /\ returncode p = 0))
  /\ (exists url,
        get_remote_url self repo_path w
        = (Ret url, with_invocations (remote :: invocations w) w)
        /\ forall text, url = Some text
                        <-> exists p, asked remote = Completed p /\ returncode p = 0
                                      /\ text = PyStr.strip (stdout p))
  /\ (exists name,
        get_current_branch self repo_path w
        = (Ret name, with_invocations (current :: invocations w) w)
        /\ forall text, name = Some text
                        <-> exists p, asked current = Completed p /\ returncode p = 0
                                      /\ text = PyStr.strip (stdout p)).
Proof.
  cbv zeta. split; [|split].
  - unfold check_git_available, try_except, bind, subprocess_run.
    destruct (run_oracle w _ _) as [p|e]; unfold ret.
    + eexists. split; [reflexivity|]. rewrite Z.eqb_eq. split.
      * intros H. now exists p.
      * now intros (p' & [= <-] & H).
    + exists false. split; [reflexivity|]. split; [discriminate|]. now intros (p & H & _).
  - unfold get_remote_url, try_except, bind, subprocess_run.
    destruct (run_oracle w _ _) as [p|e]; unfold ret.
    + destruct (returncode p =? 0) eqn:Hrc.
      * apply Z.eqb_eq in Hrc. eexists. split; [reflexivity|]. intros text. split.
        -- intros [= <-]. now exists p.
        -- now intros (p' & [= <-] & _ & ->).
      * apply Z.eqb_neq in Hrc. exists None. split; [reflexivity|]. intros text.
        split; [discriminate|]. intros (p' & [= <-] & H & _). contradiction.
    + exists None. split; [reflexivity|]. intros text. split; [discriminate|].
      now intros (p & H & _).
  - unfold get_current_branch, try_except, bind, subprocess_run.
    destruct (run_oracle w _ _) as [p|e]; unfold ret.
    + destruct (returncode p =? 0) eqn:Hrc.
      * apply Z.eqb_eq in Hrc. eexists. split; [reflexivity|]. intros text. split.
        -- intros [= <-]. now exists p.
        -- now intros (p' & [= <-] & _ & ->).
      * apply Z.eqb_neq in Hrc. exists None. split; [reflexivity|]. intros text.
        split; [discriminate|]. intros (p' & [= <-] & H & _). contradiction.
    + exists None. split; [reflexivity|]. intros text. split; [discriminate|].
      now intros (p & H & _).
Qed.

(** ** The stash *)

Lemma pull_not_pop (self : GitService) (repo_path : string) (branch : option string) :
  is_pop (pull_call self repo_path branch) = false.
Proof.
  apply bool_decide_eq_false. unfold pull_call, pull_cmd. cbn [args].
  destruct branch as [b|]; [destruct (String.eqb b "")|]; discriminate.
Qed.

Lemma swallowed_not_pop (inv : Invocation) : swallowed inv = true -> is_pop inv = false.
Proof.
  intros H. apply bool_decide_eq_false. intros Hargs.
  unfold swallowed, git_verb in H. rewrite Hargs in H. discriminate.
Qed.

Lemma calls_exists (P : Invocation -> Prop) (path : string) :
  calls_only P (os_path_exists path).
Proof. intros w o w' [= <- <-]. now exists []. Qed.

Lemma status_never_pops (self : GitService) (repo_path : string) :
  calls_only (fun inv => is_pop inv = false) (get_repo_status self repo_path).
Proof.
  assert (Hsync : calls_only (fun inv => is_pop inv = false)
                             (_get_sync_status self repo_path)).
  { eapply calls_weaken; [|apply sync_status_calls]. apply swallowed_not_pop. }
  unfold get_repo_status.
  apply calls_bind; [apply calls_exists|]. intros present.
  destruct (negb present); [apply calls_raise|].
  apply calls_try.
  - apply calls_bind; [now apply calls_run|]. intros result.
    destruct (negb (returncode result =? 0)); [apply calls_raise|].
    apply calls_bind; [now apply calls_run|]. intros status_result.
    apply calls_bind; [exact Hsync|]. intros sync. apply calls_ret.
  - intros e. destruct (is_TimeoutExpired e); apply calls_raise.
Qed.

(** The stage that stashes, pulls and restores: the stash is restored by
    the last call, after a stash and a pull that both exited with 0, or not
    at all. *)
Lemma stage_pops_last (self : GitService) (repo_path : string) (branch : option string)
      (status : GitStatus) (wk w' : World) (o : outcome PullResult) :
  stash_and_pull self repo_path branch status wk = (o, w') ->
  (exists during, invocations w' = during ++ invocations wk
                  /\ Forall (fun inv => is_pop inv = false) during)
  \/ (exists p q,
        invocations w'
        = pop_call self repo_path :: pull_call self repo_path branch
          :: stash_call self repo_path :: invocations wk
        /\ run_oracle wk (length (invocations wk)) (stash_call self repo_path) = Completed q
        /\ returncode q = 0
        /\ run_oracle wk (S (length (invocations wk))) (pull_call self repo_path branch)
           = Completed p
        /\ returncode p = 0).
Proof.
  pose proof (pull_not_pop self repo_path branch) as Hpull.
  unfold stash_and_pull, bind at 1.
  destruct (negb (is_clean status)).
  - unfold bind at 1, subprocess_run at 1. fold (stash_call self repo_path).
    destruct (run_oracle wk _ (stash_call self repo_path)) as [q|e] eqn:Hq.
    2:{ intros [= <- <-]. left. exists [stash_call self repo_path].
        split; [reflexivity|]. now repeat constructor. }
    unfold ret at 1, bind at 1, subprocess_run at 1.
    fold (pull_call self repo_path branch).
    cbn [with_invocations run_oracle invocations length].
    destruct (run_oracle wk (S _) (pull_call self repo_path branch)) as [p|e] eqn:Hp.
    2:{ intros [= <- <-]. left.
        exists [pull_call self repo_path branch; stash_call self repo_path].
        split; [reflexivity|]. now repeat constructor. }
    destruct (returncode p =? 0) eqn:Hrc.
    + destruct (returncode q =? 0) eqn:Hrq.
      * apply Z.eqb_eq in Hrc, Hrq. unfold bind, subprocess_run.
        fold (pop_call self repo_path).
        cbn [with_invocations run_oracle invocations length].
        destruct (run_oracle wk _ (pop_call self repo_path)); unfold ret;
          intros [= <- <-]; right; exists p, q; now repeat split.
      * unfold bind, ret. intros [= <- <-]. left.
        exists [pull_call self repo_path branch; stash_call self repo_path].
        split; [reflexivity|]. now repeat constructor.
    + destruct (PyStr.str_in "conflict" _); unfold ret; intros [= <- <-]; left;
        exists [pull_call self repo_path branch; stash_call self repo_path];
        (split; [reflexivity|]); now repeat constructor.
  - unfold ret at 1, bind at 1, subprocess_run at 1.
    fold (pull_call self repo_path branch).
    destruct (run_oracle wk _ (pull_call self repo_path branch)) as [p|e] eqn:Hp.
    2:{ intros [= <- <-]. left. exists [pull_call self repo_path branch].
        split; [reflexivity|]. now repeat constructor. }
    destruct (returncode p =? 0).
    + unfold bind, ret. intros [= <- <-]. left. exists [pull_call self repo_path branch].
      split; [reflexivity|]. now repeat constructor.
    + destruct (PyStr.str_in "conflict" _); unfold ret; intros [= <- <-]; left;
        exists [pull_call self repo_path branch];
        (split; [reflexivity|]); now repeat constructor.
Qed.

Lemma handled_stage_pops (self : GitService) (repo_path : string) (branch : option string)
      (status : GitStatus) (w wk : World) (earlier : list Invocation) :
  run_oracle wk = run_oracle w ->
  invocations wk = earlier ++ invocations w ->
  Forall (fun inv => is_pop inv = false) earlier ->
  exists r w' during,
    try_except (stash_and_pull self repo_path branch status)
      (fun e =>
         if is_TimeoutExpired e
         then ret (PullResult3 false ("Pull操作超时: " +:+ repo_path) [])
         else ret (PullResult3 false ("Pull操作异常: " +:+ str_exn e) [])) wk
    = (Ret r, w')
    /\ invocations w' = during ++ invocations w
    /\ (Forall (fun inv => is_pop inv = false) during
        \/ exists before p q,
            during = pop_call self repo_path :: pull_call self repo_path branch
                     :: stash_call self repo_path :: before
            /\ Forall (fun inv => is_pop inv = false) before
            /\ run_oracle w (length (before ++ invocations w)) (stash_call self repo_path)
               = Completed q
            /\ returncode q = 0
            /\ run_oracle w (S (length (before ++ invocations w)))
                          (pull_call self repo_path branch) = Completed p
            /\ returncode p = 0).
Proof.
  intros Hor Hinv Hearlier. unfold try_except.
  destruct (stash_and_pull self repo_path branch status wk) as [o w1] eqn:Hstage.
  assert (Hshape :
    exists during,
      invocations w1 = during ++ invocations w
      /\ (Forall (fun inv => is_pop inv = false) during
          \/ exists before p q,
              during = pop_call self repo_path :: pull_call self repo_path branch
                       :: stash_call self repo_path :: before
              /\ Forall (fun inv => is_pop inv = false) before
              /\ run_oracle w (length (before ++ invocations w)) (stash_call self repo_path)
                 = Completed q
              /\ returncode q = 0
              /\ run_oracle w (S (length (before ++ invocations w)))
                            (pull_call self repo_path branch) = Completed p
              /\ returncode p = 0)).
  { destruct (stage_pops_last _ _ _ _ _ _ _ Hstage)
      as [(d & Hd & Hall) | (p & q & Hd & Hq & Hrq & Hp & Hrp)].
    - exists (d ++ earlier). rewrite Hd, Hinv, app_assoc. split; [reflexivity|].
      left. now apply Forall_app.
    - rewrite Hor, Hinv in Hq, Hp. rewrite Hinv in Hd.
      exists (pop_call self repo_path :: pull_call self repo_path branch
              :: stash_call self repo_path :: earlier).
      split; [exact Hd|]. right. now exists earlier, p, q. }
  destruct Hshape as (during & Hd & Hshape).
  destruct o as [r|e].
  - now exists r, w1, during.
  - destruct (is_TimeoutExpired e); unfold ret; now eexists _, w1, during.
Qed.

(** X13.  [pull_repository] restores the stash at most once, as the last
    thing it does, and only after a stash and a pull that both exited with
    0.  On every other run no [git stash pop] is called: when the pull
    fails, times out or cannot be started after the changes were stashed,
    they stay in the stash. *)
Theorem stash_restored_only_after_pull (self : GitService) (repo_path : string)
        (branch : option string) (w : World) :
  exists r w' during,
    pull_repository self repo_path branch w = (Ret r, w')
    /\ invocations w' = during ++ invocations w
    /\ (Forall (fun inv => is_pop inv = false) during
        \/ exists before p q,
            during = pop_call self repo_path :: pull_call self repo_path branch
                     :: stash_call self repo_path :: before
            /\ Forall (fun inv => is_pop inv = false) before
            /\ run_oracle w (length (before ++ invocations w)) (stash_call self repo_path)
               = Completed q
            /\ returncode q = 0
            /\ run_oracle w (S (length (before ++ invocations w)))
                          (pull_call self repo_path branch) = Completed p
            /\ returncode p = 0).
Proof.
  unfold pull_repository, bind at 1, os_path_exists.
  destruct (exists_on_disk w repo_path); cbn [negb].
  2:{ unfold ret. eexists _, w, []. split; [reflexivity|]. split; [reflexivity|]. now left. }
  unfold try_except at 1, bind at 1.
  destruct (get_repo_status self repo_path w) as [[status|e] w1] eqn:Hst.
  2:{ destruct (status_never_pops _ _ _ _ _ Hst) as (d1 & I1 & F1).
      destruct (is_TimeoutExpired e); unfold ret; eexists _, w1, d1;
        (split; [reflexivity|]); (split; [exact I1|]); now left. }
  destruct (status_never_pops _ _ _ _ _ Hst) as (d1 & I1 & F1).
  destruct (steady_repo_status _ _ _ _ _ Hst) as (_ & _ & O1 & _).
  unfold bind at 1.
  destruct (has_conflicts status).
  - unfold bind at 1.
    destruct (resolve_conflicts_returns self repo_path w1)
      as (u & w2 & inv & rest & Hrc & _ & _).
    rewrite Hrc.
    destruct (resolve_conflicts_calls _ _ _ _ _ Hrc) as (d2 & I2 & F2).
    destruct (steady_resolve_conflicts _ _ _ _ _ Hrc) as (_ & _ & O2 & _).
    assert (F12 : Forall (fun inv => is_pop inv = false) (d2 ++ d1)).
    { apply Forall_app. split; [|exact F1].
      eapply Forall_impl; [exact F2|]. intros call Hverb.
      apply bool_decide_eq_false. intros Hargs. unfold git_verb in Hverb.
      rewrite Hargs in Hverb. now destruct Hverb. }
    assert (I12 : invocations w2 = (d2 ++ d1) ++ invocations w)
      by (now rewrite I2, I1, app_assoc).
    destruct u as [|c cs]; unfold ret at 1.
    + apply (handled_stage_pops self repo_path branch status w w2 (d2 ++ d1));
        [congruence | exact I12 | exact F12].
    + unfold ret. eexists _, w2, (d2 ++ d1). split; [reflexivity|].
      split; [exact I12|]. now left.
  - unfold ret at 1.
    apply (handled_stage_pops self repo_path branch status w w1 d1); assumption.
Qed.

(** The run on a tree with an edited file whose pull fails: the changes are
    stashed, the pull exits with 1, and the run ends there. *)
Example failed_pull_leaves_stash :
  pull_repository service "/repo" (Some "main") dirty_world
  = (Ret (PullResult3 false "Pull失败: fatal: unable to access" []),
     with_invocations
       (map (fun a => mkInvocation a (Some "/repo") 30)
            [["git"; "pull"; "origin"; "main"];
             ["git"; "stash"; "push"; "-m"; "Auto-stash before pull"];
             ["git"; "rev-list"; "--count"; "--left-right"; "HEAD...@{u}"];
             ["git"; "fetch"; "--quiet"];
             ["git"; "status"; "--porcelain"];
             ["git"; "rev-parse"; "--is-inside-work-tree"]])
       dirty_world).
Proof. vm_compute. reflexivity. Qed.

(** ** The files a sync writes *)

Lemma keeps_ret {A} (a : A) : keeps_files (ret a).
Proof. now intros w o w' [= <- <-]. Qed.

Lemma keeps_raise {A} (e : exn) : keeps_files (@raise A e).
Proof. now intros w o w' [= <- <-]. Qed.

Lemma keeps_lift {A} (o : outcome A) : keeps_files (lift_outcome o).
Proof. now intros w o' w' [= <- <-]. Qed.

Lemma keeps_exists (path : string) : keeps_files (os_path_exists path).
Proof. now intros w o w' [= <- <-]. Qed.

Lemma keeps_run (a : list string) (dir : option string) (t : Z) :
  keeps_files (subprocess_run a dir t).
Proof.
  intros w o w'. unfold subprocess_run.
  now destruct (run_oracle _ _ _); intros [= <- <-].
Qed.

Lemma keeps_bind {A B} (m : M A) (k : A -> M B) :
  keeps_files m -> (forall a, keeps_files (k a)) -> keeps_files (bind m k).
Proof.
  intros Hm Hk w o w'. unfold bind.
  destruct (m w) as [[a|e] w1] eqn:E.
  - intros H. rewrite (Hk _ _ _ _ H). eapply Hm, E.
  - intros [= <- <-]. eapply Hm, E.
Qed.

Lemma keeps_try {A} (m : M A) (h : exn -> M A) :
  keeps_files m -> (forall e, keeps_files (h e)) -> keeps_files (try_except m h).
Proof.
  intros Hm Hh w o w'. unfold try_except.
  destruct (m w) as [[a|e] w1] eqn:E.
  - intros [= <- <-]. eapply Hm, E.
  - intros H. rewrite (Hh _ _ _ _ H). eapply Hm, E.
Qed.

Ltac keeps_step :=
  match goal with
  | |- keeps_files (bind _ _) => apply keeps_bind
  | |- keeps_files (try_except _ _) => apply keeps_try
  | |- keeps_files (if ?b then _ else _) => destruct b
  | |- keeps_files (ret _) => apply keeps_ret
  | |- keeps_files (raise _) => apply keeps_raise
  | |- keeps_files (lift_outcome _) => apply keeps_lift
  | |- keeps_files (os_path_exists _) => apply keeps_exists
  | |- keeps_files (subprocess_run _ _ _) => apply keeps_run
  | |- keeps_files (match ?x with _ => _ end) => destruct x
  | |- forall _, _ => intro
  end.

Lemma sync_status_keeps_files (self : GitService) (repo_path : string) :
  keeps_files (_get_sync_status self repo_path).
Proof. unfold _get_sync_status. repeat keeps_step. Qed.

Lemma repo_status_keeps_files (self : GitService) (repo_path : string) :
  keeps_files (get_repo_status self repo_path).
Proof.
  pose proof (sync_status_keeps_files self repo_path) as Hsync.
  unfold get_repo_status.
  apply keeps_bind; [apply keeps_exists|]. intros present.
  destruct (negb present); [apply keeps_raise|].
  apply keeps_try.
  - apply keeps_bind; [apply keeps_run|]. intros result.
    destruct (negb (returncode result =? 0)); [apply keeps_raise|].
    apply keeps_bind; [apply keeps_run|]. intros status_result.
    apply keeps_bind; [exact Hsync|]. intros sync. apply keeps_ret.
  - intros e. destruct (is_TimeoutExpired e); apply keeps_raise.
Qed.

Lemma stage_keeps_files (self : GitService) (repo_path : string) (branch : option string)
      (status : GitStatus) :
  keeps_files (stash_and_pull self repo_path branch status).
Proof. unfold stash_and_pull. repeat keeps_step. Qed.

(** Resolving one file leaves every other file as it is. *)
Lemma try_resolve_frame (file_path strategy : string) (w w' : World) (o : outcome bool)
      (other : string) :
  _try_resolve_conflict file_path strategy w = (o, w') ->
  other <> file_path -> files w' !! other = files w !! other.
Proof.
  rewrite try_resolve_cases. intros H Hne.
  destruct (files w !! file_path) as [raw|]; [|now injection H as _ <-].
  cbv zeta in H.
  destruct (negb (PyStr.str_in start_marker _)); [now injection H as _ <-|].
  destruct (writable w file_path).
  { injection H as _ <-. cbn [files with_files]. now rewrite lookup_insert_ne. }
  destruct (write_fault w file_path); [|now injection H as _ <-].
  injection H as _ <-. cbn [files with_files]. unfold broken_off.
  destruct (PyStr.decodable _); [now rewrite lookup_insert_ne | now rewrite lookup_delete_ne].
Qed.

(** The loop over the listed files writes only to the listed files. *)
Lemma resolve_each_frame (self : GitService) (repo_path : string)
      (conflict_files unresolved : list string) (w w' : World)
      (o : outcome (list string)) (path : string) :
  resolve_each self repo_path conflict_files unresolved w = (o, w') ->
  (forall f, In f conflict_files -> path <> os_path_join repo_path f) ->
  files w' !! path = files w !! path.
Proof.
  revert unresolved w. induction conflict_files as [|f rest IH]; intros unresolved w;
    cbn [resolve_each].
  - now intros [= <- <-].
  - intros H Hpath.
    assert (Hrest : forall g, In g rest -> path <> os_path_join repo_path g)
      by (intros g Hg; apply Hpath; now right).
    destruct (String.eqb f ""); [now apply (IH _ _ H)|].
    unfold bind at 1 in H.
    destruct (_try_resolve_conflict _ _ w) as [[b|e] w1] eqn:Htry.
    2:{ injection H as _ <-. eapply try_resolve_frame; [exact Htry|]. apply Hpath. now left. }
    assert (H1 : files w1 !! path = files w !! path).
    { eapply try_resolve_frame; [exact Htry|]. apply Hpath. now left. }
    destruct b.
    + unfold bind at 1 in H.
      destruct (subprocess_run _ _ _ w1) as [[p|e] w2] eqn:Hadd.
      * rewrite (IH _ _ H Hrest). now rewrite (keeps_run _ _ _ _ _ _ Hadd).
      * injection H as _ <-. now rewrite (keeps_run _ _ _ _ _ _ Hadd).
    + now rewrite (IH _ _ H Hrest).
Qed.

(** [_resolve_conflicts] writes only to files its listing named. *)
Lemma resolve_conflicts_frame (self : GitService) (repo_path : string) (w w' : World)
      (o : outcome (list string)) (path : string) :
  _resolve_conflicts self repo_path w = (o, w') ->
  files w' !! path <> files w !! path ->
  exists p f,
    run_oracle w (length (invocations w)) (listing_call self repo_path) = Completed p
    /\ In f (PyStr.split PyStr.LF (PyStr.strip (stdout p)))
    /\ path = os_path_join repo_path f.
Proof.
  unfold _resolve_conflicts, bind at 1, try_except at 1, bind at 1, subprocess_run.
  fold (listing_call self repo_path).
  destruct (run_oracle w _ _) as [p|e]; unfold ret at 1.
  2:{ unfold ret. intros [= <- <-] H. now contradiction H. }
  set (w1 := with_invocations _ w).
  destruct (String.eqb (PyStr.strip (stdout p)) "").
  { cbn [resolve_each]. unfold try_except, ret. intros [= <- <-] H. now contradiction H. }
  intros Hrun Hdiff.
  destruct (in_dec string_dec path
              (map (os_path_join repo_path)
                   (PyStr.split PyStr.LF (PyStr.strip (stdout p))))) as [Hin|Hout].
  - apply in_map_iff in Hin as (f & <- & Hf). now exists p, f.
  - exfalso. apply Hdiff. unfold try_except in Hrun.
    destruct (resolve_each _ _ _ _ w1) as [[found|e] w2] eqn:Hloop.
    + injection Hrun as _ <-. change (files w) with (files w1).
      eapply resolve_each_frame; [exact Hloop|].
      intros f Hf ->. apply Hout. now apply in_map.
    + unfold ret in Hrun. injection Hrun as _ <-. change (files w) with (files w1).
      eapply resolve_each_frame; [exact Hloop|].
      intros f Hf ->. apply Hout. now apply in_map.
Qed.

Lemma handled_stage_keeps_files (self : GitService) (repo_path : string)
      (branch : option string) (status : GitStatus) :
  keeps_files
    (try_except (stash_and_pull self repo_path branch status)
       (fun e =>
          if is_TimeoutExpired e
          then ret (PullResult3 false ("Pull操作超时: " +:+ repo_path) [])
          else ret (PullResult3 false ("Pull操作异常: " +:+ str_exn e) []))).
Proof.
  apply keeps_try; [apply stage_keeps_files|].
  intros e. destruct (is_TimeoutExpired e); apply keeps_ret.
Qed.

(** X14.  [pull_repository] never touches the store, and the only files it
    writes itself are files in conflict: a file whose content differs after
    the run was named by the listing of the conflicted files, which is only
    asked for when the status call showed a conflict. *)
Theorem pull_writes_listed_files (self : GitService) (repo_path : string)
        (branch : option string) (w w' : World) (o : outcome PullResult) :
  pull_repository self repo_path branch w = (o, w') ->
  store w' = store w
  /\ forall path,
      files w' !! path <> files w !! path ->
      exists q k p f,
        answer w 1 ["git"; "status"; "--porcelain"] repo_path (git_timeout self)
        = Completed q
        /\ scan_conflicts (scan_status (stdout q)) = true
        /\ run_oracle w k (listing_call self repo_path) = Completed p
        /\ In f (PyStr.split PyStr.LF (PyStr.strip (stdout p)))
        /\ path = os_path_join repo_path f.
Proof.
  intros H. split.
  { now destruct (steady_pull_repository _ _ _ _ _ _ H) as (_ & _ & _ & _ & _ & S & _). }
  intros path Hdiff. revert H.
  unfold pull_repository, bind at 1, os_path_exists.
  destruct (exists_on_disk w repo_path); cbn [negb].
  2:{ unfold ret. intros [= <- <-]. now contradiction Hdiff. }
  unfold try_except at 1, bind at 1.
  destruct (get_repo_status self repo_path w) as [[status|e] w1] eqn:Hst.
  2:{ pose proof (repo_status_keeps_files _ _ _ _ _ Hst) as F1.
      destruct (is_TimeoutExpired e); unfold ret; intros [= <- <-];
        rewrite F1 in Hdiff; now contradiction Hdiff. }
  pose proof (repo_status_keeps_files _ _ _ _ _ Hst) as F1.
  destruct (steady_repo_status _ _ _ _ _ Hst) as (_ & _ & O1 & _).
  destruct (repo_status_value _ _ _ _ _ Hst) as (q & sync & Hq & Hstatus).
  assert (Hc : has_conflicts status = scan_conflicts (scan_status (stdout q)))
    by now subst status.
  unfold bind at 1.
  destruct (has_conflicts status).
  - unfold bind at 1.
    destruct (_resolve_conflicts self repo_path w1) as [[u|e] w2] eqn:Hrc.
    + assert (F2 : files w' = files w2 -> files w2 !! path <> files w1 !! path)
        by (intros E; now rewrite <- E, F1).
      intros Hrest.
      assert (E : files w' = files w2).
      { destruct u as [|c cs]; unfold ret at 1 in Hrest.
        - exact (handled_stage_keeps_files self repo_path branch status _ _ _ Hrest).
        - unfold ret in Hrest. now injection Hrest as _ <-. }
      destruct (resolve_conflicts_frame _ _ _ _ _ _ Hrc (F2 E)) as (p & f & Hp & Hf & ->).
      rewrite O1 in Hp. now exists q, (length (invocations w1)), p, f.
    + intros Hrest.
      assert (E : files w' = files w2)
        by (destruct (is_TimeoutExpired e); unfold ret in Hrest; now injection Hrest as _ <-).
      assert (F2 : files w2 !! path <> files w1 !! path) by now rewrite <- E, F1.
      destruct (resolve_conflicts_frame _ _ _ _ _ _ Hrc F2) as (p & f & Hp & Hf & ->).
      rewrite O1 in Hp. now exists q, (length (invocations w1)), p, f.
  - unfold ret at 1. intros Hrest.
    pose proof (handled_stage_keeps_files self repo_path branch status _ _ _ Hrest) as E.
    rewrite E, F1 in Hdiff. now contradiction Hdiff.
Qed.

Example conflicted_sync :
  let run := pull_repository service "/repo" (Some "main") conflicted_world in
  fst run = Ret (PullResult3 true "Already up to date." [])
  /\ files (snd run) !! "/repo/a.py"
     = Some (PyStr.join PyStr.nl
               ["# ============ 合并冲突 ============"; "# 本地版本:"; "A";
                "# 远程版本:"; "B"; "# ================================"; ""])
  /\ map args (invocations (snd run))
     = [["git"; "stash"; "pop"];
        ["git"; "pull"; "origin"; "main"];
        ["git"; "stash"; "push"; "-m"; "Auto-stash before pull"];
        ["git"; "add"; "a.py"];
        ["git"; "diff"; "--name-only"; "--diff-filter=U"];
        ["git"; "rev-list"; "--count"; "--left-right"; "HEAD...@{u}"];
        ["git"; "fetch"; "--quiet"];
        ["git"; "status"; "--porcelain"];
        ["git"; "rev-parse"; "--is-inside-work-tree"]].
Proof. vm_compute. repeat split. Qed.

Lemma pull_writes_listed_files_witness :
  store (snd (pull_repository service "/repo" (Some "main") conflicted_world))
  = store conflicted_world
  /\ exists f,
      In f (PyStr.split PyStr.LF (PyStr.strip ("a.py" +:+ PyStr.nl)))
      /\ "/repo/a.py" = os_path_join "/repo" f.
Proof.
  destruct (pull_writes_listed_files service "/repo" (Some "main") conflicted_world
              (snd (pull_repository service "/repo" (Some "main") conflicted_world))
              (fst (pull_repository service "/repo" (Some "main") conflicted_world)))
    as [Hstore Hfiles].
  { now destruct (pull_repository service "/repo" (Some "main") conflicted_world). }
  split; [exact Hstore|].
  destruct (Hfiles "/repo/a.py") as (q & k & p & f & _ & _ & Hp & Hf & Hpath).
  { destruct conflicted_sync as (_ & -> & _). discriminate. }
  exists f. split; [|exact Hpath].
  unfold conflicted_world, world_of, scripted in Hp. cbn in Hp.
  now injection Hp as <-.
Defined.

(** ** The store under faults *)

(** The task is one write of an outcome, after a sync or without one, and a
    second write in its handler. *)
Lemma thread_as_update (self : SchedulerService) (m : FolderRepoMapping) (w : World) :
  exists status msg w1,
    runs_on w w1
    /\ _pull_repository_thread self m w
       = try_except
           (update_pull_status (id m) status msg)
           (fun e =>
              update_pull_status (id m) "failed" (Some ("Pull线程异常: " +:+ str_exn e)))
           w1.
Proof.
  unfold _pull_repository_thread, try_except at 1, bind at 1, os_path_exists.
  destruct (exists_on_disk w (repo_path m)) eqn:Hex; cbn [negb].
  - destruct (pull_repository_run (git_service self) (repo_path m) (Some (branch m)) w Hex)
      as (r & w1 & Hpull & _ & _).
    unfold bind at 1. rewrite Hpull.
    pose proof (steady_pull_repository _ _ _ _ _ _ Hpull) as Hrun.
    destruct (success r).
    + now exists "success", (Some (message r)), w1.
    + now exists (failure_status r), (Some (message r)), w1.
  - exists "failed", (Some ("仓库路径不存在: " +:+ repo_path m)), w.
    split; [apply runs_on_refl | reflexivity].
Qed.

(** X15.  The task [_pull_repository_thread] under faults of the store.
    When the write of the outcome raises, the handler writes [failed] with
    the text of the exception, whatever the sync had achieved; when that
    write raises as well, the exception leaves the task and the store is as
    it was.  No other exception ever leaves the task. *)
Theorem task_under_store_faults (self : SchedulerService) (m : FolderRepoMapping)
        (w : World) :
  let n := transactions w in
  let ts := current_timestamp w in
  (store_fails w n 4 = true -> store_fails w (S n) 4 = false ->
   exists w2,
     _pull_repository_thread self m w = (Ret tt, w2)
     /\ folder_repo_mappings (store w2)
        = map (set_pull_status (id m) "failed" ts) (folder_repo_mappings (store w))
     /\ pull_logs (store w2)
        = pull_logs (store w)
          ++ [mkPullLog (id m) "pull" "failed"
                        (Some "Pull线程异常: sqlite3.OperationalError") ts])
  /\ (store_fails w n 4 = true -> store_fails w (S n) 4 = true ->
      exists w2,
        _pull_repository_thread self m w
        = (Raise (DatabaseError "sqlite3.OperationalError"), w2)
        /\ store w2 = store w)
  /\ (forall e w2,
        _pull_repository_thread self m w = (Raise e, w2) ->
        e = DatabaseError "sqlite3.OperationalError"
        /\ store_fails w n 4 = true /\ store_fails w (S n) 4 = true).
Proof.
  cbv zeta.
  destruct (thread_as_update self m w) as (status & msg & w1 & Hrun & ->).
  destruct Hrun as (_ & _ & _ & _ & Hts & Hstore & Hor & Htr & _).
  unfold try_except. rewrite !update_pull_status_cases.
  assert (F1 : store_fails w1 (transactions w1) 4 = store_fails w (transactions w) 4)
    by (unfold store_fails; now rewrite Hor, Htr).
  rewrite F1.
  destruct (store_fails w (transactions w) 4) eqn:E1.
  - rewrite update_pull_status_cases.
    assert (F2 : store_fails (with_store (store w1) (S (transactions w1)) w1)
                             (transactions (with_store (store w1) (S (transactions w1)) w1)) 4
                 = store_fails w (S (transactions w)) 4)
      by (unfold store_fails; cbn [with_store store_oracle transactions]; now rewrite Hor, Htr).
    rewrite F2.
    destruct (store_fails w (S (transactions w)) 4) eqn:E2.
    + split; [discriminate|]. split.
      * intros _ _. eexists. split; [reflexivity|]. cbn [with_store store]. exact Hstore.
      * intros e w2 [= <- <-]. now repeat split.
    + split; [|split; [discriminate|discriminate]].
      intros _ _. eexists. split; [reflexivity|].
      cbn [with_store store current_timestamp status_stored insert_pull_log
           update_mapping_row folder_repo_mappings pull_logs str_exn].
      rewrite Hstore, Hts. split; reflexivity.
  - split; [discriminate|]. split; [discriminate|]. discriminate.
Qed.

Example broken_store_raises :
  fst (_pull_repository_thread scheduler sample_mapping broken_store_world)
  = Raise (DatabaseError "sqlite3.OperationalError").
Proof. vm_compute. reflexivity. Qed.

(** ** One repository on demand *)

Lemma get_mapping_by_id_cases (mapping_id : option Z) (w : World) :
  get_mapping_by_id mapping_id w
  = (if store_fails w (transactions w) 2
     then Raise (DatabaseError "sqlite3.OperationalError")
     else Ret (List.find (id_matches mapping_id) (folder_repo_mappings (store w))),
     with_store (store w) (S (transactions w)) w).
Proof.
  unfold get_mapping_by_id, store_fails. rewrite run_statements_cases. cbn [length fold_left].
  destruct (store_oracle w (transactions w)) as [k|]; [|reflexivity].
  now destruct (k <=? 2)%nat.
Qed.

Lemma id_matches_eq (mapping_id : option Z) (m : FolderRepoMapping) :
  id_matches mapping_id m = true <-> id m = mapping_id /\ mapping_id <> None.
Proof.
  unfold id_matches. destruct (id m) as [a|], mapping_id as [b|]; split;
    try discriminate; try (intros [? ?]; congruence).
  - intros H. apply Z.eqb_eq in H. subst. split; [reflexivity | discriminate].
  - intros [[= ->] _]. apply Z.eqb_refl.
Qed.

Lemma force_pull_cases (self : SchedulerService) (mapping_id : Z) (w : World) :
  force_pull_repository self mapping_id w
  = let opened := with_store (store w) (S (transactions w)) w in
    if store_fails w (transactions w) 2 then (Ret tt, opened)
    else match List.find (id_matches (Some mapping_id)) (folder_repo_mappings (store w)) with
         | Some found =>
             try_except (_pull_repository_thread self found) (fun _ => ret tt) opened
         | None => (Ret tt, opened)
         end.
Proof.
  cbv zeta. unfold force_pull_repository.
  unfold try_except at 1. unfold bind at 1. rewrite get_mapping_by_id_cases.
  destruct (store_fails w (transactions w) 2); [reflexivity|].
  destruct (List.find _ _) as [found|]; [|reflexivity].
  unfold try_except. now destruct (_pull_repository_thread self found _) as [[[]|e] w2].
Qed.

(** X16.  [force_pull_repository] never raises.  It reads the store once;
    when the read fails, or no row has the id, it does nothing more: no
    program is called and nothing is written.  When a row has the id it
    runs the task on that row, whether or not automatic pulls are enabled
    for it and whenever it was last pulled; an exception that leaves the
    task ends here. *)
Theorem force_pull_by_id (self : SchedulerService) (mapping_id : Z) (w : World) :
  let rows := folder_repo_mappings (store w) in
  let opened := with_store (store w) (S (transactions w)) w in
  (exists w', force_pull_repository self mapping_id w = (Ret tt, w'))
  /\ (store_fails w (transactions w) 2 = true
      \/ (forall m, In m rows -> id m <> Some mapping_id) ->
      force_pull_repository self mapping_id w = (Ret tt, opened))
  /\ (store_fails w (transactions w) 2 = false ->
      forall m, In m rows -> id m = Some mapping_id ->
      exists found,
        In found rows /\ id found = Some mapping_id
        /\ force_pull_repository self mapping_id w
           = try_except (_pull_repository_thread self found) (fun _ => ret tt) opened).
Proof.
  cbv zeta. rewrite force_pull_cases.
  destruct (store_fails w (transactions w) 2).
  { split; [now eexists|]. split; [reflexivity | discriminate]. }
  destruct (List.find _ _) as [found|] eqn:Hfind.
  - apply find_some in Hfind as [Hin Hid]. apply id_matches_eq in Hid as [Hid _].
    split; [|split].
    + unfold try_except.
      destruct (_pull_repository_thread self found _) as [[[]|e] w2]; unfold ret; now eexists.
    + intros [H | H]; [discriminate|]. now contradiction (H found Hin).
    + intros _ m _ _. now exists found.
  - split; [now eexists|]. split; [reflexivity|].
    intros _ m Hin Hid. exfalso.
    apply (find_none _ _ Hfind) in Hin.
    assert (id_matches (Some mapping_id) m = true)
      by (apply id_matches_eq; split; [exact Hid | discriminate]).
    congruence.
Qed.

(** ** Deleting *)

(** X17.  [delete_mapping] removes the mapping with the id together with
    its log, all or nothing.  When it returns, no row and no log entry with
    the id is left, every other row and entry is kept in its place, and the
    answer tells whether a row was removed; entries of the log are removed
    also when no row had the id, and the answer is then [False].  When it
    raises the store is as it was. *)
Theorem delete_mapping_removes (mapping_id : option Z) (w w' : World) (o : outcome bool) :
  delete_mapping mapping_id w = (o, w') ->
  match o with
  | Ret removed =>
      (removed = true
       <-> exists m, In m (folder_repo_mappings (store w)) /\ id_matches mapping_id m = true)
      /\ (forall m, In m (folder_repo_mappings (store w'))
                    <-> In m (folder_repo_mappings (store w))
                        /\ id_matches mapping_id m = false)
      /\ (forall l, In l (pull_logs (store w'))
                    <-> In l (pull_logs (store w)) /\ log_matches mapping_id l = false)
      /\ folder_repo_mappings (store w') `sublist_of` folder_repo_mappings (store w)
      /\ pull_logs (store w') `sublist_of` pull_logs (store w)
  | Raise _ => store w' = store w
  end.
Proof.
  unfold delete_mapping, bind, transaction. rewrite run_statements_cases.
  cbn [length app fold_left connect commit].
  assert (Hcommitted :
    (Ret (0 <? Z.of_nat (length (List.filter (id_matches mapping_id)
                                   (folder_repo_mappings (store w))))),
     with_store (delete_row mapping_id (delete_logs_of mapping_id (store w)))
                (S (transactions w)) w) = (o, w') ->
    match o with
    | Ret removed =>
        (removed = true
         <-> exists m, In m (folder_repo_mappings (store w)) /\ id_matches mapping_id m = true)
        /\ (forall m, In m (folder_repo_mappings (store w'))
                      <-> In m (folder_repo_mappings (store w))
                          /\ id_matches mapping_id m = false)
        /\ (forall l, In l (pull_logs (store w'))
                      <-> In l (pull_logs (store w)) /\ log_matches mapping_id l = false)
        /\ folder_repo_mappings (store w') `sublist_of` folder_repo_mappings (store w)
        /\ pull_logs (store w') `sublist_of` pull_logs (store w)
    | Raise _ => store w' = store w
    end).
  { intros [= <- <-].
    cbn [with_store store delete_row delete_logs_of folder_repo_mappings pull_logs].
    split; [|split; [|split; [|split]]].
    - rewrite Z.ltb_lt. split.
      + intros Hpos.
        destruct (List.filter _ _) as [|m rest] eqn:Hf; [cbn in Hpos; lia|].
        assert (Hm : In m (List.filter (id_matches mapping_id)
                             (folder_repo_mappings (store w))))
          by (rewrite Hf; now left).
        apply filter_In in Hm. now exists m.
      + intros (m & Hin & Hid).
        assert (Hm : In m (List.filter (id_matches mapping_id)
                             (folder_repo_mappings (store w))))
          by (apply filter_In; now split).
        destruct (List.filter _ _); [contradiction | cbn; lia].
    - intros m. rewrite filter_In, negb_true_iff. reflexivity.
    - intros l. rewrite filter_In, negb_true_iff. reflexivity.
    - apply filter_is_sublist.
    - apply filter_is_sublist. }
  destruct (store_oracle w (transactions w)) as [k|]; [|exact Hcommitted].
  destruct (k <=? 4)%nat; [|exact Hcommitted].
  now intros [= <- <-].
Qed.

Lemma delete_mapping_removes_witness :
  exists w',
    delete_mapping (Some 1) logged_world = (Ret true, w')
    /\ map id (folder_repo_mappings (store w')) = [Some 2]
    /\ map log_mapping_id (pull_logs (store w')) = [Some 7].
Proof.
  eexists. split; [reflexivity|].
  pose proof (delete_mapping_removes (Some 1) logged_world _ _ eq_refl) as H.
  cbv beta iota in H. destruct H as (_ & _ & _ & _ & _).
  split; reflexivity.
Defined.

(** ** The log *)

Section CleanupFacts.

Variable days_before : string -> Z -> option string.

Lemma cleanup_old_logs_cases (keep_days : Z) (w : World) :
  cleanup_old_logs days_before keep_days w
  = if store_fails w (transactions w) 3
    then (Raise (DatabaseError "sqlite3.OperationalError"),
          with_store (store w) (S (transactions w)) w)
    else (Ret tt,
          with_store (delete_old_logs (days_before (current_timestamp w) keep_days) (store w))
                     (S (transactions w)) w).
Proof.
  unfold cleanup_old_logs, transaction, store_fails. rewrite run_statements_cases.
  cbn [length app].
  destruct (store_oracle w (transactions w)) as [k|]; [|reflexivity].
  now destruct (k <=? 3)%nat.
Qed.

(** X18.  The cleaning of the log.  [cleanup_old_logs] removes, all or
    nothing, the entries whose timestamp is, as a text, before the cutoff
    SQLite computes, and no entry when that cutoff is NULL, as it is for a
    negative number of days.  The entries kept stay in their order and the
    mappings are not touched.  [_cleanup_old_logs] of the scheduler never
    raises: when the store fails the log is simply left as it was. *)
Theorem cleanup_removes_old_entries (self : SchedulerService) (w : World) :
  let cutoff := days_before (current_timestamp w) (cleanup_logs_days (config self)) in
  let failing := store_fails w (transactions w) 3 in
  exists w',
    _cleanup_old_logs days_before self w = (Ret tt, w')
    /\ (fst (cleanup_old_logs days_before (cleanup_logs_days (config self)) w) = Ret tt
        <-> failing = false)
    /\ folder_repo_mappings (store w') = folder_repo_mappings (store w)
    /\ pull_logs (store w') `sublist_of` pull_logs (store w)
    /\ (failing = true -> store w' = store w)
    /\ (failing = false ->
        forall l, In l (pull_logs (store w'))
                  <-> In l (pull_logs (store w)) /\ older_than cutoff l = false)
    /\ (cutoff = None -> store w' = store w).
Proof.
  cbv zeta. unfold _cleanup_old_logs, try_except. rewrite cleanup_old_logs_cases.
  destruct (store_fails w (transactions w) 3).
  - unfold ret. eexists. split; [reflexivity|]. cbn [fst with_store store].
    split; [split; discriminate|]. split; [reflexivity|]. split; [reflexivity|].
    split; [reflexivity|]. split; [discriminate | reflexivity].
  - eexists. split; [reflexivity|].
    cbn [fst with_store store delete_old_logs folder_repo_mappings pull_logs].
    split; [split; reflexivity|]. split; [reflexivity|].
    split; [apply filter_is_sublist|]. split; [discriminate|]. split.
    + intros _ l. rewrite filter_In, negb_true_iff. reflexivity.
    + intros ->. unfold delete_old_logs. cbn [older_than negb].
      destruct (store w) as [rows logs]. cbn [folder_repo_mappings pull_logs]. f_equal.
      induction logs as [|l logs IH]; [reflexivity|]. cbn. now rewrite IH.
Qed.

End CleanupFacts.

(** X19.  What [update_pull_status] changes when it returns.  No row is
    added or removed and no id changes; a row with another id is left as it
    is; the row with the id keeps every column but the status and the two
    timestamps.  One entry is appended to the log, also when no row has the
    id: the mappings are then as before and the entry refers to no row. *)
Theorem update_pull_status_frame (mapping_id : option Z) (status : string)
        (msg : option string) (w w' : World) :
  update_pull_status mapping_id status msg w = (Ret tt, w') ->
  let rows := folder_repo_mappings (store w) in
  let rows' := folder_repo_mappings (store w') in
  map id rows' = map id rows
  /\ length rows' = length rows
  /\ (forall i m, rows !! i = Some m ->
        exists m', rows' !! i = Some m'
          /\ (id_matches mapping_id m = false -> m' = m)
          /\ folder_path m' = folder_path m /\ repo_path m' = repo_path m
          /\ branch m' = branch m /\ auto_pull_enabled m' = auto_pull_enabled m
          /\ created_at m' = created_at m)
  /\ ((forall m, In m rows -> id_matches mapping_id m = false) -> rows' = rows)
  /\ pull_logs (store w')
     = pull_logs (store w)
       ++ [mkPullLog mapping_id "pull" status msg (current_timestamp w)].
Proof.
  rewrite update_pull_status_cases.
  destruct (store_fails w (transactions w) 4); [discriminate|].
  intros [= <-]. cbv zeta.
  cbn [with_store store status_stored insert_pull_log update_mapping_row
       folder_repo_mappings pull_logs].
  split; [|split; [|split; [|split]]].
  - rewrite map_map. apply map_ext. intros m. unfold set_pull_status.
    now destruct (id_matches mapping_id m).
  - apply length_map.
  - intros i m Hi. exists (set_pull_status mapping_id status (current_timestamp w) m).
    split; [now rewrite list_lookup_fmap, Hi|].
    unfold set_pull_status. destruct (id_matches mapping_id m); repeat split; congruence.
  - intros Hnone. induction (folder_repo_mappings (store w)) as [|m rows IH]; [reflexivity|].
    cbn [map]. rewrite IH by (intros m' Hm'; apply Hnone; now right).
    unfold set_pull_status. now rewrite (Hnone m (or_introl eq_refl)).
  - reflexivity.
Qed.

Lemma update_pull_status_frame_witness :
  exists w',
    update_pull_status (Some 7) "success" None healthy_world = (Ret tt, w')
    /\ folder_repo_mappings (store w') = folder_repo_mappings (store healthy_world)
    /\ map log_mapping_id (pull_logs (store w')) = [Some 7].
Proof.
  eexists. split; [reflexivity|].
  destruct (update_pull_status_frame (Some 7) "success" None healthy_world _ eq_refl)
    as (_ & _ & _ & Hrows & Hlogs).
  split; [|now rewrite Hlogs].
  apply Hrows. intros m [<- | []]. reflexivity.
Defined.

(** ** The order of the rows read *)

Lemma string_leb_trans (a b c : string) :
  String.leb a b = true -> String.leb b c = true -> String.leb a c = true.
Proof.
  unfold String.leb. revert b c.
  induction a as [|x a IH]; intros [|y b] [|z c]; cbn [String.compare]; try easy.
  unfold Ascii.compare.
  destruct (N.compare_spec (N_of_ascii x) (N_of_ascii y)) as [Hxy|Hxy|Hxy];
    destruct (N.compare_spec (N_of_ascii y) (N_of_ascii z)) as [Hyz|Hyz|Hyz];
    destruct (N.compare_spec (N_of_ascii x) (N_of_ascii z)) as [Hxz|Hxz|Hxz];
    try easy; try lia.
  apply IH.
Qed.

Lemma last_pull_le_trans : Transitive last_pull_le.
Proof.
  intros a b c. unfold last_pull_le, last_pull_leb.
  destruct (last_pull_at a), (last_pull_at b), (last_pull_at c); try easy.
  apply string_leb_trans.
Qed.

Lemma last_pull_le_total : Total last_pull_le.
Proof.
  intros a b. unfold last_pull_le, last_pull_leb.
  destruct (last_pull_at a) as [x|], (last_pull_at b) as [y|]; auto.
  apply String.leb_total.
Qed.

(** In rows sorted by the time of the last pull those never pulled come
    first. *)
Lemma never_pulled_first (rows : list FolderRepoMapping) :
  StronglySorted last_pull_le rows ->
  exists fresh pulled,
    rows = fresh ++ pulled
    /\ Forall (fun m => last_pull_at m = None) fresh
    /\ Forall (fun m => last_pull_at m <> None) pulled.
Proof.
  induction 1 as [|m rest Hss (fresh & pulled & -> & Hf & Hp) Hall].
  - exists [], []. repeat split; constructor.
  - destruct (last_pull_at m) as [x|] eqn:Hm.
    + exists [], (m :: fresh ++ pulled). split; [reflexivity|]. split; [constructor|].
      constructor; [congruence|].
      eapply Forall_impl; [exact Hall|]. cbv beta. intros r Hr.
      unfold last_pull_le, last_pull_leb in Hr. rewrite Hm in Hr.
      destruct (last_pull_at r); [discriminate | discriminate].
    + exists (m :: fresh), pulled. split; [reflexivity|]. split; [|exact Hp].
      now constructor.
Qed.

(** X20.  [get_auto_pull_mappings] writes nothing.  When its read of the
    store does not fail it returns exactly the rows with automatic pulls
    enabled, each as often as the table holds it, with the rows never pulled
    first and the others after them by the text of their last pull, oldest
    first. *)
Theorem auto_pull_rows_in_order (w : World) :
  let opened := with_store (store w) (S (transactions w)) w in
  (store_fails w (transactions w) 2 = true ->
   get_auto_pull_mappings w = (Raise (DatabaseError "sqlite3.OperationalError"), opened))
  /\ (store_fails w (transactions w) 2 = false ->
      exists rows,
        get_auto_pull_mappings w = (Ret rows, opened)
        /\ rows ≡ₚ List.filter auto_pull_enabled (folder_repo_mappings (store w))
        /\ StronglySorted last_pull_le rows
        /\ exists fresh pulled,
            rows = fresh ++ pulled
            /\ Forall (fun m => last_pull_at m = None) fresh
            /\ Forall (fun m => last_pull_at m <> None) pulled).
Proof.
  cbv zeta. unfold get_auto_pull_mappings, store_fails. rewrite run_statements_cases.
  cbn [length fold_left].
  assert (Hread :
    exists rows,
      (Ret (select_auto_pull (store w)), with_store (store w) (S (transactions w)) w)
      = (Ret rows, with_store (store w) (S (transactions w)) w)
      /\ rows ≡ₚ List.filter auto_pull_enabled (folder_repo_mappings (store w))
      /\ StronglySorted last_pull_le rows
      /\ exists fresh pulled,
          rows = fresh ++ pulled
          /\ Forall (fun m => last_pull_at m = None) fresh
          /\ Forall (fun m => last_pull_at m <> None) pulled).
  { exists (select_auto_pull (store w)). split; [reflexivity|].
    pose proof (@StronglySorted_merge_sort _ last_pull_le _ last_pull_le_trans
                  last_pull_le_total
                  (List.filter auto_pull_enabled (folder_repo_mappings (store w)))) as Hss.
    split; [apply merge_sort_Permutation|]. split; [exact Hss|].
    now apply never_pulled_first. }
  destruct (store_oracle w (transactions w)) as [k|].
  - destruct (k <=? 2)%nat.
    + split; [reflexivity | discriminate].
    + split; [discriminate | intros _; exact Hread].
  - split; [discriminate | intros _; exact Hread].
Qed.

(** ** A selection that comes out empty *)

Section Starvation.

Variable fromisoformat : string -> outcome Z.

(** X21.  The selection of [_get_pending_mappings] is all or nothing.  One
    enabled row whose last pull cannot be read as a time, an interval of the
    configuration that is out of the range of [timedelta], or a store that
    cannot be read, and no mapping at all is selected: the others are not
    pulled either. *)
Theorem selection_all_or_nothing (self : SchedulerService) (w : World) :
  store_fails w (transactions w) 2 = true
  \/ ~ interval_in_range (pull_interval_minutes (config self))
  \/ ~ interval_in_range (retry_failed_after_minutes (config self))
  \/ (exists m text e,
        In m (folder_repo_mappings (store w)) /\ auto_pull_enabled m = true
        /\ last_pull_at m = Some text /\ fromisoformat text = Raise e) ->
  _get_pending_mappings fromisoformat self w
  = (Ret [], with_store (store w) (S (transactions w)) w).
Proof. exact (selection_comes_out_empty fromisoformat self w). Qed.

End Starvation.

Lemma selection_all_or_nothing_witness :
  _get_pending_mappings Iso.fromisoformat scheduler unreadable_world
  = (Ret [], with_store (store unreadable_world) 1 unreadable_world).
Proof.
  apply (selection_all_or_nothing Iso.fromisoformat scheduler unreadable_world).
  right. right. right.
  exists (row 6 (Some "yesterday") "success" true), "yesterday",
    (ValueError "Invalid isoformat string: yesterday").
  split; [now left|]. split; [reflexivity|]. split; [reflexivity|]. reflexivity.
Defined.

(** ** Saving a mapping *)

Lemma largest_id_bound (rows : list FolderRepoMapping) (r : FolderRepoMapping) (k : Z) :
  In r rows -> id r = Some k -> k <= largest_id rows.
Proof.
  unfold largest_id. induction rows as [|x rows IH]; [contradiction|].
  intros [-> | Hin] Hk; cbn [omap list_omap]; fold (omap id rows).
  - rewrite Hk. cbn [fold_right]. lia.
  - specialize (IH Hin Hk). destruct (id x); cbn [fold_right]; lia.
Qed.

Lemma same_pair_eq (a b : FolderRepoMapping) :
  same_pair a b = true <-> folder_path a = folder_path b /\ repo_path a = repo_path b.
Proof.
  unfold same_pair. rewrite andb_true_iff, !String.eqb_eq. reflexivity.
Qed.

Lemma save_new_cases (mapping : FolderRepoMapping) (db : Database) :
  id mapping = None ->
  save_mapping mapping db
  = if refuses db (connections db)
    then (Raise (DatabaseError "sqlite3.OperationalError"), opened db)
    else (Ret (next_id db), snd (insert_or_replace mapping (opened db))).
Proof.
  intros Hid. unfold save_mapping, with_connection. rewrite Hid.
  now destruct (refuses db (connections db)).
Qed.

(** X22.  [save_mapping] on a mapping without a key.  The key it returns
    is larger than every key in the table and than every key the table
    ever gave out.  Afterwards exactly one row has the two paths of the
    mapping: the row just inserted, which has the key returned, the status
    [pending] and no time of a last pull, so that the selection of the
    scheduler takes it at once.  Rows with other paths, the log and the
    configuration are as before.  When the call raises nothing is
    changed. *)
Theorem save_new_mapping (mapping : FolderRepoMapping) (db : Database) :
  id mapping = None ->
  let rows := folder_repo_mappings (tables db) in
  match save_mapping mapping db with
  | (Ret key, db') =>
      let rows' := folder_repo_mappings (tables db') in
      (forall r k, In r rows -> id r = Some k -> k < key)
      /\ mapping_sequence db < key
      /\ mapping_sequence db' = key
      /\ (exists inserted,
            rows' = List.filter (fun r => negb (same_pair mapping r)) rows ++ [inserted]
            /\ id inserted = Some key
            /\ same_pair mapping inserted = true
            /\ pull_status inserted = "pending"
            /\ last_pull_at inserted = None
            /\ auto_pull_enabled inserted = auto_pull_enabled mapping
            /\ forall fromisoformat now_ pull_interval retry_interval,
                should_pull fromisoformat now_ pull_interval retry_interval inserted
                = Ret true)
      /\ (forall r, In r rows' -> same_pair mapping r = true -> id r = Some key)
      /\ (forall r, In r rows -> same_pair mapping r = false -> In r rows')
      /\ pull_logs (tables db') = pull_logs (tables db)
      /\ configurations db' = configurations db
  | (Raise _, db') =>
      tables db' = tables db /\ mapping_sequence db' = mapping_sequence db
      /\ configurations db' = configurations db
  end.
Proof.
  intros Hid. cbv zeta. rewrite (save_new_cases _ _ Hid).
  destruct (refuses db (connections db)); [now repeat split|].
  cbn [snd insert_or_replace with_mappings opened tables folder_repo_mappings pull_logs
       mapping_sequence configurations clock].
  unfold next_id.
  split; [|split; [|split; [|split; [|split; [|split; [|split]]]]]].
  - intros r k Hin Hk. pose proof (largest_id_bound _ _ _ Hin Hk). lia.
  - lia.
  - reflexivity.
  - eexists. split; [reflexivity|]. cbn [id pull_status last_pull_at auto_pull_enabled].
    split; [reflexivity|]. split.
    { unfold same_pair. cbn [folder_path repo_path]. now rewrite !String.eqb_refl. }
    repeat split.
  - intros r Hin Hpair. apply in_app_or in Hin as [Hin | [<- | []]]; [|reflexivity].
    apply filter_In in Hin as [_ Hn]. rewrite Hpair in Hn. discriminate.
  - intros r Hin Hpair. apply in_or_app. left. apply filter_In. now rewrite Hpair.
  - reflexivity.
  - reflexivity.
Qed.

Lemma save_new_mapping_witness :
  exists db',
    save_mapping scanned_mapping sample_database = (Ret 2, db')
    /\ map id (folder_repo_mappings (tables db')) = [Some 2]
    /\ map pull_status (folder_repo_mappings (tables db')) = ["pending"].
Proof.
  eexists. split; [reflexivity|].
  pose proof (save_new_mapping scanned_mapping sample_database eq_refl) as H.
  cbv zeta in H. destruct H as (_ & _ & _ & (inserted & Hrows & _) & _).
  split; reflexivity.
Defined.

(** X23.  Saving again a mapping that the table already holds, as every
    scan does, replaces the row: no row has the old key any more, while the
    entries the log holds for that key all stay, and the status and the time
    of the last pull are forgotten. *)
Theorem rescan_forgets_history (mapping old : FolderRepoMapping) (db db' : Database)
        (key : Z) :
  id mapping = None ->
  NoDup (map id (folder_repo_mappings (tables db))) ->
  In old (folder_repo_mappings (tables db)) ->
  same_pair mapping old = true ->
  save_mapping mapping db = (Ret key, db') ->
  id old <> Some key
  /\ (forall r, In r (folder_repo_mappings (tables db')) -> id r <> id old)
  /\ (forall l, In l (pull_logs (tables db)) -> log_matches (id old) l = true ->
                In l (pull_logs (tables db')))
  /\ (forall r, In r (folder_repo_mappings (tables db')) -> same_pair mapping r = true ->
                pull_status r = "pending" /\ last_pull_at r = None).
Proof.
  intros Hid Hnodup Hold Hpair. rewrite (save_new_cases _ _ Hid).
  destruct (refuses db (connections db)); [discriminate|].
  intros [= <- <-].
  cbn [snd insert_or_replace with_mappings opened tables folder_repo_mappings pull_logs
       mapping_sequence clock].
  assert (Hfresh : forall r, In r (folder_repo_mappings (tables db)) ->
                             id r <> Some (next_id db)).
  { intros r Hr Hk. pose proof (largest_id_bound _ _ _ Hr Hk). unfold next_id in *. lia. }
  split; [now apply Hfresh|]. split; [|split].
  - intros r Hin Heq. apply in_app_or in Hin as [Hin | [<- | []]].
    + apply filter_In in Hin as [Hin Hn]. apply negb_true_iff in Hn.
      assert (r = old); [|congruence].
      revert Hnodup Hin Hold Heq. clear.
      induction (folder_repo_mappings (tables db)) as [|x rows IH]; [contradiction|].
      cbn [map]. intros Hnd [-> | Hr] [-> | Ho] Heq; try reflexivity.
      * inversion Hnd; subst. exfalso. apply H1. rewrite Heq.
        apply list_elem_of_In. now apply in_map.
      * inversion Hnd; subst. exfalso. apply H1. rewrite <- Heq.
        apply list_elem_of_In. now apply in_map.
      * inversion Hnd; subst. now apply IH.
    + cbn [id] in Heq. symmetry in Heq. now apply (Hfresh old).
  - intros l Hl _. exact Hl.
  - intros r Hin Hp. apply in_app_or in Hin as [Hin | [<- | []]]; [|now split].
    apply filter_In in Hin as [_ Hn]. rewrite Hp in Hn. discriminate.
Qed.

Lemma rescan_forgets_history_witness :
  exists db',
    save_mapping scanned_mapping sample_database = (Ret 2, db')
    /\ (forall r, In r (folder_repo_mappings (tables db')) -> id r <> Some 1)
    /\ map log_mapping_id (pull_logs (tables db')) = [Some 1].
Proof.
  exists (snd (save_mapping scanned_mapping sample_database)).
  split; [reflexivity|].
  destruct (rescan_forgets_history scanned_mapping sample_mapping sample_database
              (snd (save_mapping scanned_mapping sample_database)) 2
              eq_refl) as (_ & Hgone & _ & _).
  - apply NoDup_singleton.
  - now left.
  - reflexivity.
  - reflexivity.
  - split; [exact Hgone | reflexivity].
Defined.

(** X24.  [save_mapping] on a mapping with a key.  It returns the key it
    was given, also when no row has it, and then nothing is changed.  A row
    with the key takes the new values and a new time of update and keeps its
    key, its time of creation, its status and the time of its last pull;
    every other row is left as it is.  When another row already has the two
    paths the call raises and nothing is changed. *)
Theorem save_known_mapping (mapping : FolderRepoMapping) (key : Z) (db : Database) :
  id mapping = Some key ->
  let rows := folder_repo_mappings (tables db) in
  let taken :=
    existsb (id_matches (Some key)) rows
    && existsb (fun r => same_pair mapping r && negb (id_matches (Some key) r)) rows in
  match save_mapping mapping db with
  | (Ret returned, db') =>
      let rows' := folder_repo_mappings (tables db') in
      returned = key
      /\ refuses db (connections db) = false /\ taken = false
      /\ map id rows' = map id rows
      /\ (forall i r, rows !! i = Some r ->
            rows' !! i
            = Some (if id_matches (Some key) r then updated_row mapping (clock db) r else r))
      /\ ((forall r, In r rows -> id r <> Some key) -> rows' = rows)
      /\ pull_logs (tables db') = pull_logs (tables db)
      /\ mapping_sequence db' = mapping_sequence db
  | (Raise _, db') =>
      (refuses db (connections db) = true \/ taken = true)
      /\ tables db' = tables db /\ mapping_sequence db' = mapping_sequence db
      /\ configurations db' = configurations db
  end.
Proof.
  intros Hid. cbv zeta. unfold save_mapping, with_connection. rewrite Hid.
  destruct (refuses db (connections db)); [now repeat split; auto|].
  unfold update_by_id.
  cbn [opened tables folder_repo_mappings pull_logs mapping_sequence clock].
  destruct (existsb (id_matches (Some key)) _ && existsb _ _); [now repeat split; auto|].
  cbn [with_mappings tables folder_repo_mappings pull_logs mapping_sequence configurations].
  split; [reflexivity|]. split; [reflexivity|]. split; [reflexivity|].
  split; [|split; [|split; [|split; reflexivity]]].
  - rewrite map_map. apply map_ext. intros r. now destruct (id_matches (Some key) r).
  - intros i r Hi. now rewrite list_lookup_fmap, Hi.
  - intros Hnone. induction (folder_repo_mappings (tables db)) as [|r rows IH]; [reflexivity|].
    cbn [map]. rewrite IH by (intros r' Hr'; apply Hnone; now right).
    destruct (id_matches (Some key) r) eqn:E; [|reflexivity].
    apply id_matches_eq in E as [E _]. now contradiction (Hnone r (or_introl eq_refl)).
Qed.

Lemma save_known_mapping_witness :
  exists db',
    save_mapping sample_mapping sample_database = (Ret 1, db')
    /\ map pull_status (folder_repo_mappings (tables db')) = ["success"]
    /\ map updated_at (folder_repo_mappings (tables db')) = [Some "2024-03-01 10:15:00"].
Proof.
  eexists. split; [reflexivity|].
  pose proof (save_known_mapping sample_mapping 1 sample_database eq_refl) as H.
  cbv zeta in H. destruct H as (_ & _ & _ & _ & Hrow & _).
  specialize (Hrow 0%nat sample_mapping eq_refl).
  split; reflexivity.
Defined.

(** ** The configuration *)

(** X25.  A value set with [set_config] is the value [get_config] reads
    for the key, whatever default it is asked with; every other key reads as
    before, a key never set reads as the default.  Reading changes nothing,
    setting changes nothing but the one entry, and a call that raises
    changes nothing at all. *)
Theorem config_set_then_get (key value : string) (db : Database) :
  match set_config key value db with
  | (Ret _, db') =>
      tables db' = tables db
      /\ forall asked default,
          match get_config asked default db' with
          | (Ret found, db'') =>
              found = (if String.eqb asked key then Some value
                       else match configurations db !! asked with
                            | Some (v, _) => Some v
                            | None => default
                            end)
              /\ configurations db'' = configurations db'
              /\ tables db'' = tables db'
          | (Raise _, db'') =>
              refuses db (S (connections db)) = true
              /\ configurations db'' = configurations db'
              /\ tables db'' = tables db'
          end
  | (Raise _, db') =>
      refuses db (connections db) = true
      /\ configurations db' = configurations db /\ tables db' = tables db
  end.
Proof.
  unfold set_config, with_connection at 1.
  destruct (refuses db (connections db)); [now repeat split|].
  cbn [with_configurations opened tables configurations clock refuses connections].
  split; [reflexivity|]. intros asked default.
  unfold get_config, with_connection.
  cbn [with_configurations opened tables configurations clock refuses connections].
  destruct (refuses db (S (connections db))); [now repeat split|].
  cbn [with_configurations opened tables configurations clock refuses connections].
  split; [|split; reflexivity].
  destruct (String.eqb_spec asked key) as [->|Hne].
  - now rewrite lookup_insert_eq.
  - rewrite lookup_insert_ne by congruence. reflexivity.
Qed.

(** ** Two spellings of one remote *)

Lemma replace_skip (old new a r : string) :
  replace_go old new (String.length a) (a +:+ r) = replace_go old new 0 r.
Proof.
  induction a as [|c a IH]; [reflexivity|].
  rewrite append_cons. cbn [String.length replace_go]. exact IH.
Qed.

Lemma replace_prefix (c : ascii) (old new r : string) :
  str_replace (String c old) new (String c old +:+ r)
  = new +:+ str_replace (String c old) new r.
Proof.
  unfold str_replace. rewrite append_cons. cbn [replace_go].
  rewrite <- append_cons, startswith_app.
  cbn [String.length Nat.sub]. rewrite Nat.sub_0_r. now rewrite replace_skip.
Qed.

Lemma replace_absent (old new s : string) :
  PyStr.str_in old s = false -> str_replace old new s = s.
Proof.
  unfold str_replace. induction s as [|c s IH]; [reflexivity|].
  rewrite str_in_unfold.
  destruct (PyStr.startswith (String c s) old) eqn:E; [discriminate|].
  intros H. cbn [replace_go]. rewrite E. now rewrite IH.
Qed.

Lemma https_is_not_ssh (x : string) :
  PyStr.startswith (String "h" x) "git@github.com:" = false.
Proof. reflexivity. Qed.

Lemma normalize_https (path : string) :
  _normalize_git_url ("https://github.com/" +:+ path)
  = str_replace ".git" "" ("https://github.com/" +:+ path).
Proof.
  unfold _normalize_git_url. rewrite append_cons. now rewrite https_is_not_ssh.
Qed.

Lemma normalize_ssh (path : string) :
  PyStr.str_in "git@github.com:" path = false ->
  _normalize_git_url ("git@github.com:" +:+ path)
  = str_replace ".git" "" ("https://github.com/" +:+ path).
Proof.
  intros Habsent. unfold _normalize_git_url. rewrite startswith_app.
  rewrite (replace_prefix "g" "it@github.com:").
  rewrite (replace_absent _ _ _ Habsent). reflexivity.
Qed.

(** What is left of the HTTPS prefix when every [.git] is taken out. *)
Lemma https_prefix_kept (path : string) :
  PyStr.startswith (str_replace ".git" "" ("https://github.com/" +:+ path))
                   "https://github.com/" = true.
Proof.
  unfold str_replace. rewrite !append_cons, append_nil.
  cbn [replace_go PyStr.startswith Ascii.eqb Bool.eqb].
  now destruct (replace_go ".git" "" 0 path).
Qed.

Lemma normalized_spellings (path : string) :
  PyStr.str_in "git@github.com:" path = false ->
  _normalize_git_url ("git@github.com:" +:+ path)
  = _normalize_git_url ("https://github.com/" +:+ path).
Proof.
  intros Habsent. rewrite normalize_https, (normalize_ssh _ Habsent). reflexivity.
Qed.

(** X26.  [_normalize_git_url] makes the SSH spelling and the HTTPS
    spelling of a GitHub remote the same text, which begins with the HTTPS
    prefix, whatever follows the prefix, as long as the SSH prefix does not
    occur in it a second time. *)
Theorem normalized_spellings_agree (path : string) :
  PyStr.str_in "git@github.com:" path = false ->
  _normalize_git_url ("git@github.com:" +:+ path)
  = _normalize_git_url ("https://github.com/" +:+ path)
  /\ PyStr.startswith (_normalize_git_url ("git@github.com:" +:+ path))
                      "https://github.com/" = true.
Proof.
  intros Habsent. rewrite normalize_https, (normalize_ssh _ Habsent).
  split; [reflexivity | apply https_prefix_kept].
Qed.

Lemma normalized_spellings_agree_witness :
  _normalize_git_url "git@github.com:owner/tool.git"
  = _normalize_git_url "https://github.com/owner/tool.git".
Proof.
  exact (proj1 (normalized_spellings_agree "owner/tool.git" eq_refl)).
Defined.

(** X27.  [_has_correct_remote] never raises and makes one call.  It
    answers [True] exactly when the call exited with 0 and what it printed,
    without the white space around it, normalizes to the same text as the
    expected URL; so a clone made over SSH is accepted for the HTTPS URL of
    the same repository. *)
Theorem remote_compared_normalized (repo_path expected_url : string) (w : World) :
  let call := mkInvocation ["git"; "remote"; "get-url"; "origin"] (Some repo_path) 10 in
  exists correct,
    _has_correct_remote repo_path expected_url w
    = (Ret correct, with_invocations (call :: invocations w) w)
    /\ (correct = true
        <-> exists q, run_oracle w (length (invocations w)) call = Completed q
                      /\ returncode q = 0
                      /\ _normalize_git_url (PyStr.strip (stdout q))
                         = _normalize_git_url expected_url)
    /\ (forall q path,
          run_oracle w (length (invocations w)) call = Completed q ->
          returncode q = 0 ->
          PyStr.str_in "git@github.com:" path = false ->
          PyStr.strip (stdout q) = "git@github.com:" +:+ path ->
          expected_url = "https://github.com/" +:+ path ->
          correct = true).
Proof.
  cbv zeta. unfold _has_correct_remote, try_except, bind, subprocess_run.
  destruct (run_oracle w _ _) as [q|e]; unfold ret.
  - destruct (returncode q =? 0) eqn:Hrc.
    + apply Z.eqb_eq in Hrc. eexists. split; [reflexivity|]. split.
      * rewrite String.eqb_eq. split.
        -- intros H. now exists q.
        -- now intros (q' & [= <-] & _ & H).
      * intros q' path [= <-] _ Habsent Hout ->. rewrite Hout.
        apply String.eqb_eq. now apply normalized_spellings.
    + apply Z.eqb_neq in Hrc. exists false. split; [reflexivity|]. split.
      * split; [discriminate|]. intros (q' & [= <-] & H & _). contradiction.
      * intros q' path [= <-] H. contradiction.
  - exists false. split; [reflexivity|]. split.
    + split; [discriminate|]. now intros (q & H & _).
    + intros q path H. discriminate.
Qed.

Lemma remote_compared_normalized_witness :
  _has_correct_remote "/repo" "https://github.com/owner/tool.git" ssh_clone_world
  = (Ret true,
     with_invocations
       [mkInvocation ["git"; "remote"; "get-url"; "origin"] (Some "/repo") 10]
       ssh_clone_world).
Proof.
  destruct (remote_compared_normalized "/repo" "https://github.com/owner/tool.git"
              ssh_clone_world) as (correct & Hrun & _ & Hssh).
  rewrite Hrun.
  rewrite (Hssh (mkCompleted 0 ("git@github.com:owner/tool.git" +:+ PyStr.nl) "")
                "owner/tool.git" eq_refl eq_refl eq_refl eq_refl eq_refl).
  reflexivity.
Defined.

(** ** Where reported conflicts come from *)

Lemma handled_stage_conflicts (self : GitService) (repo_path : string)
      (branch : option string) (status : GitStatus) (w wk : World) :
  runs_on w wk ->
  survived w (invocations w) (invocations wk) ->
  exists r w',
    try_except (stash_and_pull self repo_path branch status)
      (fun e =>
         if is_TimeoutExpired e
         then ret (PullResult3 false ("Pull操作超时: " +:+ repo_path) [])
         else ret (PullResult3 false ("Pull操作异常: " +:+ str_exn e) [])) wk
    = (Ret r, w')
    /\ (conflicts r <> [] ->
        exists during p,
          invocations w' = pull_call self repo_path branch :: during ++ invocations w
          /\ run_oracle w (length (during ++ invocations w))
                        (pull_call self repo_path branch) = Completed p
          /\ returncode p <> 0
          /\ r = PullResult3 false ("Pull冲突: " +:+ stderr p)
                             (_parse_conflicts (stderr p))).
Proof.
  intros Hrun Hsurv. unfold try_except.
  destruct (stash_and_pull self repo_path branch status wk) as [o w1] eqn:Hstage.
  destruct (stage_shape _ _ _ _ _ _ Hrun Hsurv _ _ Hstage)
    as [e inv rest -> Hinv Hverb | e during -> Hinv Hor
        | post during p -> Hinv Hpost Hor Hrc Hall | during p -> Hinv Hor Hrc].
  - destruct (is_TimeoutExpired e); unfold ret; do 2 eexists;
      (split; [reflexivity|]); intros H; now contradiction H.
  - destruct (is_TimeoutExpired e); unfold ret; do 2 eexists;
      (split; [reflexivity|]); intros H; now contradiction H.
  - do 2 eexists. split; [reflexivity|]. intros H. now contradiction H.
  - do 2 eexists. split; [reflexivity|]. intros H.
    exists during, p. split; [exact Hinv|]. split; [exact Hor|]. split; [exact Hrc|].
    unfold pull_failure in *.
    destruct (PyStr.str_in "conflict" (PyStr.lower (stderr p))); [reflexivity|].
    now contradiction H.
Qed.

(** X28.  A result of [pull_repository] that lists conflicted files is a
    failure of one of two kinds.  Either the status showed conflicts and
    [_resolve_conflicts] left files unresolved: the result lists these, its
    message joins them with commas, and the run ended there, without a
    stash and without a pull.  Or the pull exited with another code than 0
    and a message that mentions conflicts, and the result lists the paths
    read from that message. *)
Theorem reported_conflicts_origin (self : GitService) (repo_path : string)
        (branch : option string) (w : World) :
  exists r w',
    pull_repository self repo_path branch w = (Ret r, w')
    /\ (conflicts r <> [] ->
        success r = false
        /\ ((exists status w1,
               get_repo_status self repo_path w = (Ret status, w1)
               /\ has_conflicts status = true
               /\ _resolve_conflicts self repo_path w1 = (Ret (conflicts r), w')
               /\ message r
                  = "存在无法自动解决的冲突: " +:+ PyStr.join ", " (conflicts r))
            \/ (exists during p,
                  invocations w'
                  = pull_call self repo_path branch :: during ++ invocations w
                  /\ run_oracle w (length (during ++ invocations w))
                                (pull_call self repo_path branch) = Completed p
                  /\ returncode p <> 0
                  /\ r = PullResult3 false ("Pull冲突: " +:+ stderr p)
                                     (_parse_conflicts (stderr p))))).
Proof.
  unfold pull_repository, bind at 1, os_path_exists.
  destruct (exists_on_disk w repo_path) eqn:Hex; cbn [negb].
  2:{ unfold ret. do 2 eexists. split; [reflexivity|]. intros H. now contradiction H. }
  unfold try_except at 1, bind at 1.
  destruct (get_repo_status self repo_path w) as [[status|e] w1] eqn:Hst.
  2:{ destruct (is_TimeoutExpired e); unfold ret; do 2 eexists;
        (split; [reflexivity|]); intros H; now contradiction H. }
  pose proof (steady_repo_status _ _ _ _ _ Hst) as R1.
  pose proof (repo_status_survived _ _ _ _ _ Hst) as S1.
  unfold bind at 1.
  destruct (has_conflicts status) eqn:Hc.
  - unfold bind at 1.
    destruct (resolve_conflicts_returns self repo_path w1)
      as (u & w2 & inv & rest & Hrc & Hinv & Hverb).
    rewrite Hrc.
    pose proof (steady_resolve_conflicts _ _ _ _ _ Hrc) as R2.
    destruct u as [|c cs]; unfold ret at 1.
    + destruct (handled_stage_conflicts self repo_path branch status w w2)
        as (r & w' & Heq & Hr).
      * eapply runs_on_trans; eauto.
      * eapply resolve_conflicts_survived; eauto.
      * exists r, w'. split; [exact Heq|]. intros Hne.
        destruct (Hr Hne) as (during & p & H1 & H2 & H3 & ->).
        split; [reflexivity|]. right. now exists during, p.
    + unfold ret. do 2 eexists. split; [reflexivity|]. intros _.
      split; [reflexivity|]. left. exists status, w1. now repeat split.
  - unfold ret at 1.
    destruct (handled_stage_conflicts self repo_path branch status w w1 R1 S1)
      as (r & w' & Heq & Hr).
    exists r, w'. split; [exact Heq|]. intros Hne.
    destruct (Hr Hne) as (during & p & H1 & H2 & H3 & ->).
    split; [reflexivity|]. right. now exists during, p.
Qed.

(** ** Files that can be read and written *)

Lemma try_resolve_keeps_readable (file_path strategy : string) (w w' : World)
      (o : outcome bool) (other : string) :
  _try_resolve_conflict file_path strategy w = (o, w') ->
  writable w file_path = true ->
  is_Some (files w !! other) -> is_Some (files w' !! other).
Proof.
  rewrite try_resolve_cases. intros H Hw Hsome. rewrite Hw in H.
  destruct (files w !! file_path) as [raw|]; [|now injection H as _ <-].
  cbv zeta in H.
  destruct (negb (PyStr.str_in start_marker _)); [now injection H as _ <-|].
  injection H as _ <-. cbn [files with_files].
  destruct (String.eqb_spec other file_path) as [->|Hne].
  - rewrite lookup_insert_eq. now eexists.
  - now rewrite lookup_insert_ne.
Qed.

Lemma try_resolve_readable (file_path strategy : string) (w : World) :
  is_Some (files w !! file_path) -> writable w file_path = true ->
  exists w', _try_resolve_conflict file_path strategy w = (Ret true, w').
Proof.
  intros [raw Hfile] Hw. rewrite try_resolve_cases, Hfile, Hw. cbv zeta.
  destruct (negb (PyStr.str_in start_marker _)); now eexists.
Qed.

Lemma resolve_each_all (self : GitService) (repo_path : string)
      (conflict_files unresolved : list string) (w0 w : World) :
  runs_on w0 w ->
  (forall f, In f conflict_files -> f <> "" ->
             is_Some (files w !! os_path_join repo_path f)
             /\ writable w0 (os_path_join repo_path f) = true) ->
  (forall n f, In f conflict_files ->
               exists q, run_oracle w0 n (mkInvocation ["git"; "add"; f] (Some repo_path)
                                                       (git_timeout self)) = Completed q) ->
  exists w', resolve_each self repo_path conflict_files unresolved w = (Ret unresolved, w').
Proof.
  revert w. induction conflict_files as [|f rest IH]; intros w Hrun Hfiles Hadd;
    cbn [resolve_each].
  - now eexists.
  - destruct (String.eqb_spec f "") as [->|Hne].
    { apply IH; [exact Hrun | |]; intros; [apply Hfiles | apply Hadd]; auto; now right. }
    destruct (Hfiles f (or_introl eq_refl) Hne) as [Hsome Hw].
    destruct Hrun as (E & W & O & Hrest).
    destruct (try_resolve_readable (os_path_join repo_path f) (conflict_strategy self) w)
      as [w1 Htry]; [exact Hsome | now rewrite W|].
    unfold bind at 1. rewrite Htry.
    pose proof (steady_try_resolve _ _ _ _ _ Htry) as R1.
    destruct (Hadd (length (invocations w1)) f (or_introl eq_refl)) as [q Hq].
    unfold bind at 1, subprocess_run at 1.
    destruct R1 as (E1 & W1 & O1 & R1).
    rewrite O1, O, Hq.
    apply IH.
    + unfold runs_on. cbn [with_invocations exists_on_disk writable run_oracle now
                           current_timestamp store store_oracle transactions invocations].
      destruct Hrest as (N & T & S & SO & TR & d & Hd).
      destruct R1 as (N1 & T1 & S1 & SO1 & TR1 & d1 & Hd1).
      repeat split; try congruence.
      exists (mkInvocation ["git"; "add"; f] (Some repo_path) (git_timeout self) :: d1 ++ d).
      rewrite Hd1, Hd. cbn [app]. now rewrite app_assoc.
    + intros g Hg Hgne. destruct (Hfiles g (or_intror Hg) Hgne) as [Hs Hwg].
      split; [|exact Hwg]. cbn [with_invocations files].
      eapply try_resolve_keeps_readable; [exact Htry | now rewrite W | exact Hs].
    + intros n g Hg. apply Hadd. now right.
Qed.

(** X29.  Every listed file that can be read and written counts as
    resolved, whatever it holds: when this is so for all of them and no
    [git add] raises, [_resolve_conflicts] reports nothing unresolved. *)
Theorem readable_conflicts_all_resolve (self : GitService) (repo_path : string)
        (w : World) (p : CompletedProcess) :
  answer w 0 ["git"; "diff"; "--name-only"; "--diff-filter=U"] repo_path (git_timeout self)
  = Completed p ->
  (forall f, In f (PyStr.split PyStr.LF (PyStr.strip (stdout p))) -> f <> "" ->
             is_Some (files w !! os_path_join repo_path f)
             /\ writable w (os_path_join repo_path f) = true) ->
  (forall n f, In f (PyStr.split PyStr.LF (PyStr.strip (stdout p))) ->
               exists q, run_oracle w n (mkInvocation ["git"; "add"; f] (Some repo_path)
                                                      (git_timeout self)) = Completed q) ->
  fst (_resolve_conflicts self repo_path w) = Ret [].
Proof.
  unfold answer. cbn [Nat.add]. intros Hp Hfiles Hadd.
  unfold _resolve_conflicts, bind at 1, try_except at 1, bind at 1, subprocess_run.
  rewrite Hp. unfold ret at 1.
  destruct (String.eqb (PyStr.strip (stdout p)) ""); [reflexivity|].
  unfold try_except.
  match goal with |- context [resolve_each _ _ _ _ ?w1] =>
    destruct (resolve_each_all self repo_path
                (PyStr.split PyStr.LF (PyStr.strip (stdout p))) [] w w1) as [w' ->] end;
    try assumption; [|reflexivity].
  apply runs_on_call.
Qed.

Lemma readable_conflicts_all_resolve_witness :
  fst (_resolve_conflicts service "/repo" conflicted_world) = Ret [].
Proof.
  apply (readable_conflicts_all_resolve service "/repo" conflicted_world
           (mkCompleted 0 ("a.py" +:+ PyStr.nl) "")).
  - reflexivity.
  - intros f [<- | []] _. split; [now eexists | reflexivity].
  - intros n f [<- | []]. now eexists.
Defined.

(** ** Changes the status does not count *)

Lemma scan_fold_uncounted (lines : list string) (acc : StatusScan) :
  Forall (fun line => counts_as_change line = false) lines ->
  scan_untracked (fold_left scan_line lines acc) = scan_untracked acc
  /\ scan_modified (fold_left scan_line lines acc) = scan_modified acc
  /\ scan_conflicts (fold_left scan_line lines acc) = scan_conflicts acc.
Proof.
  intros Hall. revert acc. induction Hall as [|line rest Hline _ IH]; intros acc.
  - now repeat split.
  - cbn [fold_left]. destruct (IH (scan_line acc line)) as (-> & -> & ->).
    unfold counts_as_change in Hline.
    apply orb_false_elim in Hline as [Hline Haa].
    apply orb_false_elim in Hline as [Hline Huu].
    apply orb_false_elim in Hline as [Hq Hm].
    unfold scan_line. rewrite Hq, Hm, Huu, Haa. cbn [orb].
    now destruct (PyStr.startswith line "M ").
Qed.

(** X30.  Only untracked files, files modified in the tree and files in
    conflict make a tree count as not clean.  When the status lists nothing
    but changes of other kinds -- files deleted, files added or changed in
    the index, files changed in both places -- [get_repo_status] calls the
    tree clean and free of conflicts, and the pull runs without a stash. *)
Theorem other_changes_count_as_clean (self : GitService) (repo_path : string)
        (w w' : World) (status : GitStatus) (q : CompletedProcess) :
  get_repo_status self repo_path w = (Ret status, w') ->
  answer w 1 ["git"; "status"; "--porcelain"] repo_path (git_timeout self) = Completed q ->
  Forall (fun line => counts_as_change line = false) (PyStr.splitlines (stdout q)) ->
  is_clean status = true /\ has_conflicts status = false
  /\ forall branch wk,
      exists during,
        invocations (snd (stash_and_pull self repo_path branch status wk))
        = during ++ invocations wk
        /\ Forall (fun inv => git_verb inv <> "stash") during.
Proof.
  intros Hst Hq Hall.
  destruct (repo_status_value _ _ _ _ _ Hst) as (q' & sync & Hq' & ->).
  rewrite Hq in Hq'. injection Hq' as <-.
  destruct (scan_fold_uncounted _ (mkScan [] [] [] false) Hall) as (Hu & Hm & Hc).
  fold (scan_status (stdout q)) in Hu, Hm, Hc. cbn [scan_untracked scan_modified scan_conflicts] in *.
  cbv zeta. cbn [is_clean has_conflicts]. rewrite Hu, Hm, Hc.
  split; [reflexivity|]. split; [reflexivity|].
  intros branch wk. unfold stash_and_pull, bind at 1. cbn [is_clean negb length Nat.eqb andb].
  unfold ret at 1, bind at 1, subprocess_run at 1.
  fold (pull_call self repo_path branch).
  assert (Hverb : git_verb (pull_call self repo_path branch) <> "stash")
    by (rewrite pull_call_verb; discriminate).
  destruct (run_oracle wk _ _) as [p|e].
  - destruct (returncode p =? 0).
    + unfold bind, ret. cbn [snd with_invocations invocations].
      exists [pull_call self repo_path branch]. split; [reflexivity|]. now repeat constructor.
    + destruct (PyStr.str_in "conflict" _); unfold ret; cbn [snd with_invocations invocations];
        exists [pull_call self repo_path branch]; (split; [reflexivity|]);
        now repeat constructor.
  - cbn [snd with_invocations invocations].
    exists [pull_call self repo_path branch]. split; [reflexivity|]. now repeat constructor.
Qed.

Example deleted_status :
  get_repo_status service "/repo" deleted_world
  = (Ret (mkGitStatus true false 0 0 [] [] []),
     with_invocations
       (map (fun a => mkInvocation a (Some "/repo") 30)
            [["git"; "rev-list"; "--count"; "--left-right"; "HEAD...@{u}"];
             ["git"; "fetch"; "--quiet"];
             ["git"; "status"; "--porcelain"];
             ["git"; "rev-parse"; "--is-inside-work-tree"]])
       deleted_world).
Proof. vm_compute. reflexivity. Qed.

Lemma other_changes_count_as_clean_witness :
  exists status w',
    get_repo_status service "/repo" deleted_world = (Ret status, w')
    /\ is_clean status = true.
Proof.
  eexists _, _. split; [exact deleted_status|].
  refine (proj1 (other_changes_count_as_clean service "/repo" deleted_world _ _
                   (mkCompleted 0 (" D gone.txt" +:+ PyStr.nl +:+ "MM both.txt" +:+ PyStr.nl
                                   +:+ "A  new.txt" +:+ PyStr.nl) "")
                   deleted_status eq_refl _)).
  repeat constructor.
Defined.
